(** * Pigeon Optics: datasets, attachments and codecs

    A shallow embedding of the storage substrate of the datasets database
    (base data model, attachment store, codec registry, XML codec and the
    request-body decoding of the server), with the properties the
    specification states about it.

    Conventions of the embedding.
    - JavaScript strings are [string]s (sequences of 8-bit code units; the
      case mapping is the ASCII one).
    - A plain JavaScript object is a [jsobj]: its own properties in the order
      [Object.keys] enumerates them, that is array-index keys first in
      ascending numeric order, then the other keys in insertion order.
      Property lookup is own-property lookup (the keys of [Object.prototype]
      are outside the model).
    - [async] functions are run to completion: an operation is a function of
      the state of the stores returning an outcome and the new state; a thrown
      exception is the outcome [Throw], and what was written before the throw
      stays written. *)

From Stdlib Require Import ZArith NArith List String Ascii Bool Lia Permutation Sorted.
From stdpp Require Import base option list gmap strings sorting.

Open Scope Z_scope.
Open Scope string_scope.

#[local] Set Warnings "-register-all".

(** ** JavaScript strings *)

Module Js.

Definition isUpper (c : ascii) : bool :=
  let n := nat_of_ascii c in (65 <=? n)%nat && (n <=? 90)%nat.

Definition lowerChar (c : ascii) : ascii :=
  if isUpper c then ascii_of_nat (nat_of_ascii c + 32) else c.

(** [String.prototype.toLowerCase] *)
Fixpoint toLowerCase (s : string) : string :=
  match s with
  | EmptyString => EmptyString
  | String c r => String (lowerChar c) (toLowerCase r)
  end.

(** [s.startsWith(p)] *)
Definition startsWith (s p : string) : bool := String.prefix p s.

(** [s.endsWith(p)] *)
Definition endsWith (s p : string) : bool :=
  let n := String.length s in
  let k := String.length p in
  (k <=? n)%nat && String.eqb (String.substring (n - k) k s) p.

(** [s.includes(p)] *)
Fixpoint includes (s p : string) : bool :=
  String.prefix p s ||
  match s with
  | EmptyString => false
  | String _ r => includes r p
  end.

(** [s.split(sep)[0]] for a one-character separator: the text before the
    first occurrence of [sep], the whole string when there is none. *)
Fixpoint splitHead (sep : ascii) (s : string) : string :=
  match s with
  | EmptyString => EmptyString
  | String c r => if Ascii.eqb c sep then EmptyString else String c (splitHead sep r)
  end.

(** [Array.prototype.join] on an array of strings *)
Definition join (sep : string) (l : list string) : string := String.concat sep l.

Definition isDigit (c : ascii) : bool :=
  let n := nat_of_ascii c in (48 <=? n)%nat && (n <=? 57)%nat.

Definition digitVal (c : ascii) : N := N.of_nat (nat_of_ascii c - 48).

Fixpoint allDigits (s : string) : bool :=
  match s with
  | EmptyString => true
  | String c r => isDigit c && allDigits r
  end.

Fixpoint decimalValue (acc : N) (s : string) : N :=
  match s with
  | EmptyString => acc
  | String c r => decimalValue (10 * acc + digitVal c)%N r
  end.

(** An array index is a canonical numeric string (no sign, no leading zero
    unless it is "0") whose value is at most 2^32 - 2. *)
Definition arrayIndex (k : string) : option N :=
  match k with
  | EmptyString => None
  | String c r =>
      if allDigits k && (negb (Ascii.eqb c "0"%char) || String.eqb r EmptyString)
      then let v := decimalValue 0 k in
           if (v <? 4294967295)%N then Some v else None
      else None
  end.

(** *** Ordinary objects

    The own properties of an object, in enumeration order. *)
Definition jsobj (V : Type) : Type := list (string * V).

Section Objects.
Context {V : Type}.

(** [o[k]] for an own property *)
Fixpoint get (k : string) (o : jsobj V) : option V :=
  match o with
  | [] => None
  | (k', v) :: r => if String.eqb k k' then Some v else get k r
  end.

(** [k in o] *)
Definition has (k : string) (o : jsobj V) : bool :=
  match get k o with Some _ => true | None => false end.

(** [delete o[k]] *)
Fixpoint del (k : string) (o : jsobj V) : jsobj V :=
  match o with
  | [] => []
  | (k', v) :: r => if String.eqb k k' then del k r else (k', v) :: del k r
  end.

(** Position of a new array-index key [i]: before the first property that is
    not an array index or is a larger index. *)
Fixpoint addIndex (i : N) (k : string) (v : V) (o : jsobj V) : jsobj V :=
  match o with
  | [] => [(k, v)]
  | (k', v') :: r =>
      match arrayIndex k' with
      | Some j => if (j <? i)%N then (k', v') :: addIndex i k v r
                  else (k, v) :: (k', v') :: r
      | None => (k, v) :: (k', v') :: r
      end
  end.

(** Creation of a new own property. *)
Definition add (k : string) (v : V) (o : jsobj V) : jsobj V :=
  match arrayIndex k with
  | Some i => addIndex i k v o
  | None => (o ++ [(k, v)])%list
  end.

(** Assignment to an existing own property keeps its place. *)
Fixpoint replace (k : string) (v : V) (o : jsobj V) : jsobj V :=
  match o with
  | [] => []
  | (k', v') :: r =>
      if String.eqb k k' then (k', v) :: r else (k', v') :: replace k v r
  end.

(** [o[k] = v] *)
Definition set (k : string) (v : V) (o : jsobj V) : jsobj V :=
  if has k o then replace k v o else add k v o.

(** [Object.keys], [Object.values], [Object.entries] *)
Definition keys (o : jsobj V) : list string := map fst o.
Definition values (o : jsobj V) : list V := map snd o.
Definition entries (o : jsobj V) : list (string * V) := o.

(** [Object.fromEntries] *)
Definition fromEntries (l : list (string * V)) : jsobj V :=
  fold_left (fun o kv => set (fst kv) (snd kv) o) l [].

End Objects.

(** The order in which an object enumerates two of its properties: distinct
    keys, array indices ascending and before the other keys. *)
Definition before {V : Type} (a b : string * V) : Prop :=
  a.1 <> b.1 /\
  match arrayIndex a.1, arrayIndex b.1 with
  | Some i, Some j => (i < j)%N
  | Some _, None => True
  | None, Some _ => False
  | None, None => True
  end.

(** A list of properties that is in the enumeration order of an object. *)
Definition enumerated {V : Type} (o : jsobj V) : Prop := StronglySorted before o.

(** The names of the properties an ordinary object inherits from
    [Object.prototype]. For a key that is none of them, [o[k]] and [k in o]
    look at the own properties of [o] only. *)
Definition inherited : list string :=
  ["constructor"; "__defineGetter__"; "__defineSetter__"; "hasOwnProperty";
   "__lookupGetter__"; "__lookupSetter__"; "isPrototypeOf"; "propertyIsEnumerable";
   "toString"; "valueOf"; "__proto__"; "toLocaleString"].

Definition ownName (k : string) : Prop := k ∉ inherited.

(** Outcome of a call that may throw. *)
Inductive outcome (E A : Type) : Type :=
  | Ok (a : A)
  | Throw (e : E).
Arguments Ok {E A} a.
Arguments Throw {E A} e.

End Js.

(** ** Codec registry: [library/models/codec/index.js] *)

Module Codec.

(** What the registry reads of a codec module. *)
Record codec : Type := mkCodec {
  codecName : string;
  handles : list string;
  extensions : list string
}.

(** [handles] and [extensions] of the XML codec. *)
Definition xml : codec :=
  mkCodec "xml"
    ["application/xml"; "text/xml"; "application/rdf+xml"; "application/rss+xml";
     "application/atom+xml"; "text/xml"; "application/xhtml+xml"]
    ["xml"; "rss"; "atom"; "xhtml"].

Section Registry.
(** The codec modules the registry exports, in export order. *)
Variable codecs : list codec.

Definition mediaTypeHandlers : Js.jsobj codec :=
  Js.fromEntries
    (flat_map (fun c => map (fun mediaType => (mediaType, c)) (handles c)) codecs).

Definition extensionHandlers : Js.jsobj codec :=
  Js.fromEntries
    (flat_map (fun c => map (fun ext => (Js.toLowerCase ext, c)) (extensions c)) codecs).

(** The [for ... in] loop over [extensionHandlers]. *)
Fixpoint forExtension (query : string) (hs : Js.jsobj codec) : option codec :=
  match hs with
  | [] => None
  | (ext, c) :: r =>
      if String.eqb query ext || Js.endsWith query ("." ++ ext)
      then Some c
      else forExtension query r
  end.

(** [exports.for]; [None] is [undefined]. *)
Definition for_ (query : string) : option codec :=
  let query := Js.toLowerCase query in
  if Js.has (Js.splitHead ";"%char query) mediaTypeHandlers
  then Js.get query mediaTypeHandlers
  else forExtension query extensionHandlers.

End Registry.

(** Modelled from the spec: the JSON codec module is not among the sources;
    it handles the media type [application/json] and the extension [json]. *)
Definition json : codec := mkCodec "json" ["application/json"] ["json"].

End Codec.

(** ** Request bodies: [server.js] and its earlier version *)

Module Server.

(** What the handlers read of a thrown error. *)
Record jsError : Type := mkError {
  statusCode : option Z;
  code : option string;
  name : string;
  stack : string;
  message : string
}.

Inductive contentType : Type := Json | Cbor | OtherType.

Inductive reply (B : Type) : Type :=
  | Next (body : option B)
  | Respond (status : Z) (err : string).
Arguments Next {B} body.
Arguments Respond {B} status err.

Section Decoders.
Variable Raw Body : Type.
(** [codec.json.decode] after [req.body.toString()], and [codec.cbor.decode];
    the codec modules are parameters. *)
Variable jsonDecode : Raw -> Js.outcome jsError Body.
Variable cborDecode : Raw -> Js.outcome jsError Body.

(** The body middleware of the earlier server (try/catch around the two
    decoders): [next()] or a response. *)
Definition bodyMiddleware (reqType : contentType) (raw : Raw) : reply Body :=
  match reqType with
  | Json =>
      match jsonDecode raw with
      | Js.Ok b => Next (Some b)
      | Js.Throw err => Respond 415 ("Problem parsing request body: " ++ message err)
      end
  | Cbor =>
      match cborDecode raw with
      | Js.Ok b => Next (Some b)
      | Js.Throw err => Respond 415 ("Problem parsing request body: " ++ message err)
      end
  | OtherType => Next None
  end.

(** [if (error.statusCode)]: a number other than 0. *)
Definition truthyStatus (error : jsError) : option Z :=
  match statusCode error with
  | Some s => if Z.eqb s 0 then None else Some s
  | None => None
  end.

(** The status the error-handling middleware of [server.js] sets. *)
Definition errorStatus (error : jsError) : Z :=
  match truthyStatus error with
  | Some s => s
  | None =>
      if match code error with Some c => String.eqb c "ENOENT" | None => false end
      then 404
      else if String.eqb (name error) "SyntaxError"
              || Js.includes (stack error) "/borc/src/decoder.js"
      then 400
      else 500
  end.

(** The decoding middleware of [server.js]: [specificCodec] is the [decode] of
    the codec found for the media type of the request, if the type is one a
    codec handles; what it throws reaches the error handler. *)
Definition decodeMiddleware (specificCodec : option (Raw -> Js.outcome jsError Body))
    (raw : Raw) : reply Body :=
  match specificCodec with
  | Some decode =>
      match decode raw with
      | Js.Ok b => Next (Some b)
      | Js.Throw err => Respond (errorStatus err) (message err)
      end
  | None => Next None
  end.

End Decoders.

End Server.

(** ** Attachment store: [library/models/attachments.js] *)

Module Attachments.

(** Attachment metadata; [other] stands for the user-supplied properties. *)
Record meta : Type := mkMeta {
  created : Z;
  updated : Z;
  linkers : list string;
  other : list (string * string)
}.

(** The blob store and the meta store, keyed by the hex hash, and the
    process-wide [holding] table. *)
Record store : Type := mkStore {
  blobs : gset string;
  metas : gmap string meta;
  holding : gmap string Z
}.

Inductive error : Type :=
  | Error (msg : string)
  | TypeError (msg : string).

(** Modelled from the spec: the file store's [update(path, fn)] is not among
    the sources; it reads the current value (or undefined), calls [fn] on it
    and writes a result that is not undefined; when [fn] throws nothing is
    written. *)
Definition metaUpdate (hexHash : string)
    (fn : option meta -> Js.outcome error (option meta)) (st : store)
    : Js.outcome error unit * store :=
  match fn (metas st !! hexHash) with
  | Js.Throw e => (Js.Throw e, st)
  | Js.Ok None => (Js.Ok tt, st)
  | Js.Ok (Some m) => (Js.Ok tt, mkStore (blobs st) (<[hexHash := m]> (metas st)) (holding st))
  end.

(** [linkers.includes(x)] *)
Definition includesPath (l : list string) (x : string) : bool :=
  existsb (String.eqb x) l.

(** [exports.link]; [hexHash] is [hash.toString('hex')] and [now] is what
    [Date.now()] returns. *)
Definition link (now : Z) (hexHash : string) (dataPaths : list string) (st : store)
    : Js.outcome error unit * store :=
  metaUpdate hexHash (fun meta =>
    match meta with
    | None => Js.Throw (Error "Cannot link non-existant attachment")
    | Some m =>
        let missing := List.filter (fun x => negb (includesPath (linkers m) x)) dataPaths in
        if (0 <? length missing)%nat
        then Js.Ok (Some (mkMeta (created m) now (linkers m ++ missing)%list (other m)))
        else Js.Ok None
    end) st.

(** [exports.has]: both the blob and the meta exist. *)
Definition has (hexHash : string) (st : store) : bool :=
  bool_decide (hexHash ∈ blobs st) && bool_decide (is_Some (metas st !! hexHash)).

(** [hash in holding] *)
Definition held (hexHash : string) (st : store) : bool :=
  bool_decide (is_Some (holding st !! hexHash)).

(** The table update of [exports.hold]. *)
Definition hold (hexHash : string) (st : store) : store :=
  mkStore (blobs st) (metas st)
    (match holding st !! hexHash with
     | Some n => <[hexHash := n + 1]> (holding st)
     | None => <[hexHash := 1]> (holding st)
     end).

Section Validate.
(** [readPath.meta]: what the resolver yields for a list of paths, each item
    with its [path] and its [links] when they are an array. *)
Variable readPathMeta : list string -> list (string * option (list string)).

(** The two nested loops of [validate] that fill [newLinkers]. *)
Definition pruneLinkers (hashURL : string) (items : list (string * option (list string)))
    : list string :=
  flat_map (fun item =>
    match snd item with
    | Some links =>
        flat_map (fun link =>
          if Js.startsWith (Js.toLowerCase link) hashURL then [fst item] else []) links
    | None => []
    end) items.

(** The list [validate] stores as the new [linkers]. *)
Definition pruned (hexHash : string) (m : meta) : list string :=
  pruneLinkers ("hash://sha256/" ++ Js.toLowerCase hexHash) (readPathMeta (linkers m)).

(** [exports.validate]: the returned boolean and the stores afterwards. *)
Definition validate (hexHash : string) (st : store) : bool * store :=
  let hashURL := "hash://sha256/" ++ Js.toLowerCase hexHash in
  let '(retain, st1) :=
    match metas st !! hexHash with
    | Some m =>
        let newLinkers := pruneLinkers hashURL (readPathMeta (linkers m)) in
        ((0 <? length newLinkers)%nat,
         mkStore (blobs st)
           (<[hexHash := mkMeta (created m) (updated m) newLinkers (other m)]> (metas st))
           (holding st))
    | None => (false, st)
    end in
  if negb retain && negb (held hexHash st1)
  then (retain, mkStore (blobs st1 ∖ {[hexHash]}) (delete hexHash (metas st1)) (holding st1))
  else (retain, st1).

(** The first call of the function [hold] returns (the closure exists only
    after [hold], so the entry is present). *)
Definition release (hexHash : string) (st : store) : bool * store :=
  match holding st !! hexHash with
  | Some n =>
      if Z.eqb (n - 1) 0
      then let '(kept, st') :=
             validate hexHash (mkStore (blobs st) (metas st) (delete hexHash (holding st))) in
           (negb kept, st')
      else (false, mkStore (blobs st) (metas st) (<[hexHash := n - 1]> (holding st)))
  | None => (false, st)
  end.

End Validate.

(** [[...new Set(l)]]: the items of [l] in the order of their first
    occurrence. *)
Definition unique (l : list string) : list string :=
  fold_left (fun seen x => if includesPath seen x then seen else (seen ++ [x])%list) l [].

Section Digest.
(** The hex text of the digest [HashThrough] computes over what the stream
    delivers. *)
Variable digest : list Byte.byte -> string.

(** The object the callback of [writeStream] returns: [oldValue] is the
    stored meta, [newLinkers] is [meta.linkers] of the argument and [props]
    are the other properties of the argument (none of them named created,
    updated or linkers). *)
Definition writtenMeta (now : Z) (oldValue : option meta) (newLinkers : list string)
    (props : list (string * string)) : meta :=
  mkMeta
    (match oldValue with Some old => created old | None => now end)
    now
    (unique ((match oldValue with Some old => linkers old | None => [] end) ++ newLinkers)%list)
    (fold_left (fun o kv => Js.set kv.1 kv.2 o) props
       (match oldValue with Some old => other old | None => [] end)).

(** [exports.writeStream]: the hex text of the returned hash and the stores
    afterwards; [content] is what the stream delivers. Modelled from the
    spec: the blob store is not among the sources; the temporary file written
    from the stream is renamed to the path of the hash, after which the blob
    of that hash exists. *)
Definition writeStream (now : Z) (content : list Byte.byte) (newLinkers : list string)
    (props : list (string * string)) (st : store) : string * store :=
  let hexHash := digest content in
  let st1 := hold hexHash st in
  (hexHash,
   mkStore ({[hexHash]} ∪ blobs st1)
     (<[hexHash := writtenMeta now (metas st1 !! hexHash) newLinkers props]> (metas st1))
     (holding st1)).

End Digest.

(** The names of the properties the callback of [writeStream] sets itself: a
    property of the [meta] argument under one of them is not among [props]. *)
Definition reserved : list string := ["created"; "updated"; "linkers"].

(** [exports.import]; [hexHash] is [hash.toString('hex')]. The module binds
    [fs] to [require('fs/promises')], which has no [createReadStream]: for an
    attachment that is not there, evaluating the argument of the call of
    [writeStream] throws a TypeError, and [writeStream] is not called. *)
Definition import_ (now : Z) (hexHash : string) (newLinkers : list string) (st : store)
    : Js.outcome error unit * store :=
  if has hexHash st
  then link now hexHash newLinkers st
  else (Js.Throw (TypeError "fs.createReadStream is not a function"), st).

End Attachments.

(** ** Base data model: [library/models/base-data-model.js] *)

Module Dataset.

#[global] Instance byte_eq_dec : EqDecision Byte.byte := Byte.byte_eq_dec.
#[global] Instance byte_countable : Countable Byte.byte :=
  inj_countable Byte.to_N Byte.of_N Byte.of_to_N.

(** A [Buffer] *)
Abbreviation buffer := (list Byte.byte).

(** A hash URL found in a record value: [link.hash] and [link.toString()]. *)
Record hashURL : Type := mkHashURL {
  urlHash : string;
  urlText : string
}.

(** The value of one property of [meta.records]; [recordVersion] is [None]
    while the object has no [version] property. *)
Record recordMeta : Type := mkRecord {
  hash : buffer;
  links : list string;
  recordVersion : option Z
}.

Inductive error : Type :=
  | DatasetMissing
  | AssertionError (msg : string)
  | MissingAttachments (missingLinks : list string)
  | ValidationError (msg : string)
  | TypeError
  | NotFound (msg : string).

Section Model.
(** Record values other than [null] and [undefined], and the user's
    configuration properties of a dataset. *)
Variable Data : Type.
Variable Config : Type.

(** The dataset's meta file. *)
Record meta : Type := mkMeta {
  version : Z;
  created : Z;
  updated : Z;
  config : Config;
  records : Js.jsobj recordMeta
}.

(** The stores an operation on one dataset touches: the meta file of the
    dataset's file store, its object store with its hold table, and the
    attachment store. *)
Record world : Type := mkWorld {
  metaFile : option meta;
  objects : gmap buffer Data;
  objectHolds : gset buffer;
  attachments : Attachments.store
}.

(** The hash [objectStore.write] computes for a value. *)
Variable objectHash : Data -> buffer.
(** [recordStructure.listHashURLs] *)
Variable listHashURLs : Data -> list hashURL.
(** The source-specific validators; [Some msg] when they throw. *)
Variable validateRecord : string -> Data -> option string.
Variable validateConfig : meta -> option string.
(** The comparator of the [string-natural-compare] package. *)
Variable stringNaturalCompare : string -> string -> Z.

Definition setRecords (m : meta) (rs : Js.jsobj recordMeta) : meta :=
  mkMeta (version m) (created m) (updated m) (config m) rs.

Definition setMetaFile (f : option meta) (w : world) : world :=
  mkWorld f (objects w) (objectHolds w) (attachments w).

(** Modelled from the spec: the file store's [read] is not among the sources;
    [read(path)] returns the stored value, or undefined when there is none. *)
Definition fileRead (w : world) : option meta := metaFile w.

(** Modelled from the spec: the object store is not among the sources;
    [write(value)] stores the value under its hash and returns the hash. *)
Definition objectWrite (data : Data) (w : world) : buffer * world :=
  (objectHash data,
   mkWorld (metaFile w) (<[objectHash data := data]> (objects w)) (objectHolds w)
     (attachments w)).

(** Modelled from the spec: the object store is not among the sources;
    [retain(list)] deletes every stored hash that is neither in the list nor
    in the hold table. *)
Definition retain (retainObjectList : list buffer) (w : world) : world :=
  mkWorld (metaFile w)
    (filter (fun kv => kv.1 ∈ retainObjectList \/ kv.1 ∈ objectHolds w) (objects w))
    (objectHolds w) (attachments w).

(** [exports.readMeta] *)
Definition readMeta (w : world) : Js.outcome error (option meta) :=
  Js.Ok (fileRead w).

(** Modelled from the spec: the object store is not among the sources;
    [read(hash)] returns the value stored under the hash, and fails when there
    is none. *)
Definition objectRead (h : buffer) (w : world) : Js.outcome error Data :=
  match objects w !! h with
  | Some data => Js.Ok data
  | None => Js.Throw (NotFound "object")
  end.

(** [exports.read]; reading [records] of an undefined meta is a TypeError,
    and the result is undefined ([None]) when there is no such record. *)
Definition read (recordID : string) (w : world) : Js.outcome error (option Data) :=
  match readMeta w with
  | Js.Ok (Some m) =>
      match Js.get recordID (records m) with
      | Some recordMeta =>
          match objectRead (hash recordMeta) w with
          | Js.Ok data => Js.Ok (Some data)
          | Js.Throw e => Js.Throw e
          end
      | None => Js.Ok None
      end
  | Js.Ok None => Js.Throw TypeError
  | Js.Throw e => Js.Throw e
  end.

(** The loop of [updateMeta] over [Object.values(result.records)]: a missing
    version becomes [config.version], the assertions are checked and the hash
    joins [retainObjectList]. Returns the list as it is when the loop ends or
    throws. *)
Fixpoint checkRecords (configVersion : Z) (rs : list (string * recordMeta))
    (retainObjectList : list buffer)
    : Js.outcome error (list (string * recordMeta)) * list buffer :=
  match rs with
  | [] => (Js.Ok [], retainObjectList)
  | (id, r) :: rest =>
      let v := match recordVersion r with Some v => v | None => configVersion end in
      if negb (0 <? v)%Z
      then (Js.Throw (AssertionError "record object must contain version number above 0"),
            retainObjectList)
      else if negb (length (hash r) =? 32)%nat
      then (Js.Throw (AssertionError "record object's hash property must be 32 bytes long"),
            retainObjectList)
      else
        let '(res, l) := checkRecords configVersion rest (retainObjectList ++ [hash r])%list in
        (match res with
         | Js.Ok rest' => Js.Ok ((id, mkRecord (hash r) (links r) (Some v)) :: rest')
         | Js.Throw e => Js.Throw e
         end, l)
  end.

Definition keyLe (a b : string * recordMeta) : Prop :=
  stringNaturalCompare a.1 b.1 <= 0.

#[local] Instance keyLe_dec (a b : string * recordMeta) : Decision (keyLe a b) :=
  Z_le_dec _ _.

(** [Object.fromEntries(Object.entries(records).sort(...))] *)
Definition sortRecords (rs : list (string * recordMeta)) : Js.jsobj recordMeta :=
  Js.fromEntries (merge_sort keyLe rs).

(** The callback [updateMeta] is given. It receives the draft and returns the
    draft as it has left it together with the object it returns (the same
    object twice when it returns the draft), or throws; it may write to the
    object store. *)
Definition block : Type := meta -> world -> Js.outcome error (meta * meta) * world.

(** [exports.updateMeta]; [now] is what [Date.now()] returns. The result is
    the version of the [pathUpdated] event. *)
Definition updateMeta (now : Z) (blk : block) (w : world) : Js.outcome error Z * world :=
  match fileRead w with
  | None => (Js.Throw DatasetMissing, w)
  | Some stored =>
      let draft := mkMeta (version stored + 1) (created stored) now (config stored)
                     (records stored) in
      let retainObjectList := map hash (Js.values (records draft)) in
      match blk draft w with
      | (Js.Throw e, w1) => (Js.Throw e, retain retainObjectList w1)
      | (Js.Ok (draft', result), w1) =>
          match checkRecords (version draft') (Js.entries (records result)) retainObjectList with
          | (Js.Throw e, l) => (Js.Throw e, retain l w1)
          | (Js.Ok rs, l) =>
              let result' := setRecords result (sortRecords rs) in
              match validateConfig result' with
              | Some msg => (Js.Throw (ValidationError msg), retain l w1)
              | None => (Js.Ok (version result'), setMetaFile (Some result') (retain l w1))
              end
          end
      end
  end.

(** [attachments.has] for each link, and the links that are not present. *)
Definition missingLinks (data : Data) (w : world) : list string :=
  map urlText
    (List.filter (fun l => negb (Attachments.has (urlHash l) (attachments w)))
       (listHashURLs data)).

Definition sameHash (a b : buffer) : bool := bool_decide (a = b).

(** The [for await] loop of [writeEntries]; an entry whose data is [null] or
    [undefined] is [(id, None)]. *)
Fixpoint writeLoop (entries : list (string * option Data)) (m : meta)
    (includedRecords : list string) (w : world)
    : Js.outcome error (meta * list string) * world :=
  match entries with
  | [] => (Js.Ok (m, includedRecords), w)
  | (id, None) :: rest =>
      writeLoop rest (setRecords m (Js.del id (records m))) includedRecords w
  | (id, Some data) :: rest =>
      let missing := missingLinks data w in
      if (0 <? length missing)%nat
      then (Js.Throw (MissingAttachments missing), w)
      else
        match validateRecord id data with
        | Some msg => (Js.Throw (ValidationError msg), w)
        | None =>
            let '(h, w') := objectWrite data w in
            let fresh := mkRecord h (map urlText (listHashURLs data)) None in
            let rs :=
              match Js.get id (records m) with
              | Some r => if sameHash (hash r) h then records m
                          else Js.set id fresh (records m)
              | None => Js.set id fresh (records m)
              end in
            writeLoop rest (setRecords m rs) (includedRecords ++ [id])%list w'
        end
  end.

(** [includedRecords.has(id)] *)
Definition included (includedRecords : list string) (id : string) : bool :=
  existsb (String.eqb id) includedRecords.

(** The loop over [prevRecords] when [overwrite] is set. *)
Definition dropOthers (prevRecords includedRecords : list string) (rs : Js.jsobj recordMeta)
    : Js.jsobj recordMeta :=
  fold_left (fun rs id => if included includedRecords id then rs else Js.del id rs)
    prevRecords rs.

(** The callback [writeEntries] hands to [updateMeta]. *)
Definition writeBlock (entries : list (string * option Data)) (overwrite : bool) : block :=
  fun m w =>
    let prevRecords := Js.keys (records m) in
    match writeLoop entries m [] w with
    | (Js.Throw e, w') => (Js.Throw e, w')
    | (Js.Ok (m', includedRecords), w') =>
        let m'' := if overwrite
                   then setRecords m' (dropOthers prevRecords includedRecords (records m'))
                   else m' in
        (Js.Ok (m'', m''), w')
    end.

(** [exports.writeEntries] *)
Definition writeEntries (now : Z) (entries : list (string * option Data)) (overwrite : bool)
    (w : world) : Js.outcome error Z * world :=
  updateMeta now (writeBlock entries overwrite) w.

(** [exports.write]; its two assertions, against [undefined] and against
    [null], are the one case [None]. *)
Definition write (now : Z) (recordID : string) (data : option Data) (w : world)
    : Js.outcome error Z * world :=
  match data with
  | None => (Js.Throw (AssertionError "Records cannot be set to undefined"), w)
  | Some d => writeEntries now [(recordID, Some d)] false w
  end.

(** [exports.merge] and [exports.overwrite] *)
Definition merge (now : Z) (recs : Js.jsobj (option Data)) (w : world)
    : Js.outcome error Z * world :=
  writeEntries now (Js.entries recs) false w.

Definition overwrite (now : Z) (recs : Js.jsobj (option Data)) (w : world)
    : Js.outcome error Z * world :=
  writeEntries now (Js.entries recs) true w.

(** The callback of [exports.delete] for a record. *)
Definition deleteBlock (recordID : string) : block :=
  fun m w => let m' := setRecords m (Js.del recordID (records m)) in (Js.Ok (m', m'), w).

(** [exports.delete] with a string [recordID] *)
Definition delete (now : Z) (recordID : string) (w : world) : Js.outcome error Z * world :=
  if (0 <? String.length recordID)%nat
  then updateMeta now (deleteBlock recordID) w
  else (Js.Throw (AssertionError "recordID can't be an empty string"), w).

(** [exports.create] *)
Definition create (now : Z) (cfg : Config) (w : world) : Js.outcome error Z * world :=
  let c := mkMeta 0 now now cfg [] in
  match metaFile w with
  | Some _ =>
      (Js.Throw (AssertionError "Name already in use already exists, choose another name"), w)
  | None =>
      match validateConfig c with
      | Some msg => (Js.Throw (ValidationError msg), w)
      | None => (Js.Ok 0, setMetaFile (Some c) w)
      end
  end.

(** The mutations of a dataset that go through [updateMeta]. *)
Inductive mutation : Type :=
  | Write (recordID : string) (data : option Data)
  | WriteEntries (entries : list (string * option Data)) (overwrite : bool)
  | Merge (recs : Js.jsobj (option Data))
  | Overwrite (recs : Js.jsobj (option Data))
  | Delete (recordID : string).

Definition run (now : Z) (op : mutation) (w : world) : Js.outcome error Z * world :=
  match op with
  | Write id data => write now id data w
  | WriteEntries entries ow => writeEntries now entries ow w
  | Merge recs => merge now recs w
  | Overwrite recs => overwrite now recs w
  | Delete id => delete now id w
  end.

(** A sequence of mutations, each at its own time; the versions [readMeta]
    reports after each of them. *)
Fixpoint observe (ops : list (Z * mutation)) (w : world) : list (option Z) :=
  match ops with
  | [] => []
  | (now, op) :: rest =>
      let w' := (run now op w).2 in
      (version <$> metaFile w') :: observe rest w'
  end.

(** *** Notions the properties are stated with *)

(** The hashes the records of a meta refer to. *)
Definition hashes (m : meta) : list buffer := map hash (Js.values (records m)).

(** A block that returns a meta carrying the version of the draft it got. *)
Definition keepsVersion (blk : block) : Prop :=
  forall m w d r w', blk m w = (Js.Ok (d, r), w') -> version r = version m.

(** A block that leaves the meta file of the dataset alone. *)
Definition keepsMetaFile (blk : block) : Prop :=
  forall m w, metaFile (blk m w).2 = metaFile w.

(** One step of the version: a call that succeeds stores a meta one version
    above the stored one and announces that version; a call that throws
    leaves the meta file as it was. *)
Definition versionStep (before : world) (res : Js.outcome error Z * world) : Prop :=
  match res.1 with
  | Js.Ok v =>
      exists m m', metaFile before = Some m /\ metaFile res.2 = Some m' /\
                   version m' = version m + 1 /\ v = version m'
  | Js.Throw _ => metaFile res.2 = metaFile before
  end.

(** A list of reported versions in which each is the one before (starting
    from [v]) or one more. *)
Fixpoint stepsFrom (v : Z) (vs : list (option Z)) : Prop :=
  match vs with
  | [] => True
  | o :: rest => exists v', o = Some v' /\ (v' = v \/ v' = v + 1) /\ stepsFrom v' rest
  end.

(** Entries that get through the loop of [writeEntries]: deletions, and
    values whose links are all present and that [validateRecord] accepts. *)
Definition passes (w : world) (entries : list (string * option Data)) : Prop :=
  Forall (fun e =>
    match e.2 with
    | None => True
    | Some data => missingLinks data w = [] /\ validateRecord e.1 data = None
    end) entries.

(** The object store once the values of [entries] are written to it. *)
Definition written (entries : list (string * option Data)) (objs : gmap buffer Data)
    : gmap buffer Data :=
  fold_left (fun objs e =>
    match e.2 with
    | Some data => <[objectHash data := data]> objs
    | None => objs
    end) entries objs.

(** The values [entries] write. *)
Definition writes (entries : list (string * option Data)) : list Data :=
  flat_map (fun e => match e.2 with Some data => [data] | None => [] end) entries.

(** [exports.exists]; [recordID] is [None] when the argument is not a string.
    Modelled from the spec: the file store's [exists(['meta'])] tells whether
    the meta file is there. *)
Definition exists_ (recordID : option string) (w : world) : bool :=
  match metaFile w with
  | Some m =>
      match recordID with
      | Some id => Js.has id (records m)
      | None => true
      end
  | None => false
  end.

(** [exports.delete] without a [recordID]. Modelled from the spec: the file
    store's [delete([])] removes the folder of the dataset, that is the meta
    file and the objects folder under it. *)
Definition deleteDataset (w : world) : world :=
  mkWorld None ∅ (objectHolds w) (attachments w).

(** A record as the loop of [updateMeta] leaves it: with the version it
    has, or the version of the draft when it has none. *)
Definition stamp (configVersion : Z) (r : recordMeta) : recordMeta :=
  mkRecord (hash r) (links r)
    (Some (match recordVersion r with Some v => v | None => configVersion end)).

(** The draft [updateMeta] hands to its callback. *)
Definition draftOf (now : Z) (stored : meta) : meta :=
  mkMeta (version stored + 1) (created stored) now (config stored) (records stored).

(** What [updateMeta] asserts of a record, the version bounded by the
    version of the dataset. *)
Definition recordChecked (datasetVersion : Z) (r : recordMeta) : Prop :=
  length (hash r) = 32%nat /\
  exists v, recordVersion r = Some v /\ 0 < v <= datasetVersion.

(** A meta whose version is not negative and whose records have distinct
    ids and are as [updateMeta] stores them. *)
Definition wellFormed (m : meta) : Prop :=
  0 <= version m /\
  NoDup (Js.keys (records m)) /\
  Forall (fun e => recordChecked (version m) e.2) (records m).

(** The object of every record of the stored meta is in the object store. *)
Definition objectsPresent (w : world) : Prop :=
  forall m, metaFile w = Some m ->
    Forall (fun e => is_Some (objects w !! hash e.2)) (records m).

(** The ids the entries of a call name, and the ids a mutation names. *)
Definition ids (entries : list (string * option Data)) : list string := map fst entries.

Definition named (op : mutation) : list string :=
  match op with
  | Write id _ => [id]
  | WriteEntries entries _ => ids entries
  | Merge recs => Js.keys recs
  | Overwrite recs => Js.keys recs
  | Delete id => [id]
  end.

(** The states of one dataset: it does not exist at first; it is created,
    mutated (with record ids that are no inherited property names) and
    deleted by the operations of the model, while holds on objects and the
    attachment store change by other activity. *)
Inductive reachable : world -> Prop :=
  | reach_absent w : metaFile w = None -> reachable w
  | reach_create w now cfg : reachable w -> reachable (create now cfg w).2
  | reach_run w now op :
      Forall Js.ownName (named op) -> reachable w -> reachable (run now op w).2
  | reach_delete w : reachable w -> reachable (deleteDataset w)
  | reach_other w holds store :
      reachable w -> reachable (mkWorld (metaFile w) (objects w) holds store).

End Model.

#[global] Existing Instance keyLe_dec.

Arguments hashes {Config} m.
Arguments keepsVersion {Data Config} blk.
Arguments keepsMetaFile {Data Config} blk.
Arguments versionStep {Data Config} before res.
Arguments passes {Data Config} listHashURLs validateRecord w entries.
Arguments written {Data} objectHash entries objs.
Arguments writes {Data} entries.
Arguments mkMeta {Config} version created updated config records.
Arguments version {Config} m.
Arguments created {Config} m.
Arguments updated {Config} m.
Arguments config {Config} m.
Arguments records {Config} m.
Arguments mkWorld {Data Config} metaFile objects objectHolds attachments.
Arguments metaFile {Data Config} w.
Arguments objects {Data Config} w.
Arguments objectHolds {Data Config} w.
Arguments attachments {Data Config} w.
Arguments setRecords {Config} m rs.
Arguments setMetaFile {Data Config} f w.
Arguments fileRead {Data Config} w.
Arguments readMeta {Data Config} w.
Arguments objectRead {Data Config} h w.
Arguments read {Data Config} recordID w.
Arguments retain {Data Config} retainObjectList w.
Arguments objectWrite {Data Config} objectHash data w.
Arguments missingLinks {Data Config} listHashURLs data w.
Arguments updateMeta {Data Config} validateConfig stringNaturalCompare now blk w.
Arguments writeLoop {Data Config} objectHash listHashURLs validateRecord entries m
  includedRecords w.
Arguments writeBlock {Data Config} objectHash listHashURLs validateRecord entries overwrite.
Arguments deleteBlock {Data Config} recordID.
Arguments writeEntries {Data Config} objectHash listHashURLs validateRecord validateConfig
  stringNaturalCompare now entries overwrite w.
Arguments write {Data Config} objectHash listHashURLs validateRecord validateConfig
  stringNaturalCompare now recordID data w.
Arguments merge {Data Config} objectHash listHashURLs validateRecord validateConfig
  stringNaturalCompare now recs w.
Arguments overwrite {Data Config} objectHash listHashURLs validateRecord validateConfig
  stringNaturalCompare now recs w.
Arguments delete {Data Config} validateConfig stringNaturalCompare now recordID w.
Arguments create {Data Config} validateConfig now cfg w.
Arguments Write {Data} recordID data.
Arguments WriteEntries {Data} entries overwrite.
Arguments Merge {Data} recs.
Arguments Overwrite {Data} recs.
Arguments Delete {Data} recordID.
Arguments run {Data Config} objectHash listHashURLs validateRecord validateConfig
  stringNaturalCompare now op w.
Arguments observe {Data Config} objectHash listHashURLs validateRecord validateConfig
  stringNaturalCompare ops w.
Arguments exists_ {Data Config} recordID w.
Arguments deleteDataset {Data Config} w.
Arguments draftOf {Config} now stored.
Arguments wellFormed {Config} m.
Arguments objectsPresent {Data Config} w.
Arguments reachable {Data Config} objectHash listHashURLs validateRecord validateConfig
  stringNaturalCompare w.
Arguments ids {Data} entries.
Arguments named {Data} op.

End Dataset.

(** ** The comparator of the [string-natural-compare] package

    The records of a dataset are sorted with this third-party comparator.
    [naturalCompare] follows the package's algorithm with its default options:
    runs of digits compare as numbers (leading zeros skipped and remembered
    for ties), other characters by code unit. *)

Module NaturalCompare.

Definition code (c : ascii) : Z := Z.of_nat (nat_of_ascii c).

(** Skips the leading zeros of a run; returns the rest and how many went. *)
Fixpoint dropZeros (s : string) : string * nat :=
  match s with
  | String c r =>
      if Ascii.eqb c "0"%char
      then let '(t, n) := dropZeros r in (t, S n)
      else (s, O)
  | EmptyString => (s, O)
  end.

(** Splits off the leading digits. *)
Fixpoint spanDigits (s : string) : string * string :=
  match s with
  | String c r =>
      if Js.isDigit c
      then let '(d, t) := spanDigits r in (String c d, t)
      else (EmptyString, s)
  | EmptyString => (EmptyString, EmptyString)
  end.

(** First difference of two digit strings of the same length. *)
Fixpoint compareDigits (x y : string) : Z :=
  match x, y with
  | String a x', String b y' =>
      if Z.eqb (code a - code b) 0 then compareDigits x' y' else code a - code b
  | _, _ => 0
  end.

(** The main loop; [a] and [b] are the texts from [indexA] and [indexB] on.
    Every round consumes a character of [a], so [fuel] above the length of
    [a] is never used up. *)
Fixpoint loop (fuel : nat) (a b : string) (indexA indexB : nat)
    (firstDifferenceInLeadingZeros : Z) : Z :=
  match fuel with
  | O => 0
  | S fuel' =>
      match a, b with
      | String ca ra, String cb rb =>
          if Js.isDigit ca then
            if negb (Js.isDigit cb) then code ca - code cb
            else
              let '(a1, za) := dropZeros a in
              let '(b1, zb) := dropZeros b in
              let numStartA := (indexA + za)%nat in
              let numStartB := (indexB + zb)%nat in
              let fd := if negb (Nat.eqb numStartA numStartB)
                           && Z.eqb firstDifferenceInLeadingZeros 0
                        then Z.of_nat numStartA - Z.of_nat numStartB
                        else firstDifferenceInLeadingZeros in
              let '(da, a2) := spanDigits a1 in
              let '(db, b2) := spanDigits b1 in
              let difference := Z.of_nat (String.length da) - Z.of_nat (String.length db) in
              if negb (Z.eqb difference 0) then difference
              else if negb (Z.eqb (compareDigits da db) 0) then compareDigits da db
              else loop fuel' a2 b2 (numStartA + String.length da)%nat
                     (numStartB + String.length db)%nat fd
          else if negb (Ascii.eqb ca cb) then code ca - code cb
          else loop fuel' ra rb (S indexA) (S indexB) firstDifferenceInLeadingZeros
      | String _ _, EmptyString => 1
      | EmptyString, String _ _ => -1
      | EmptyString, EmptyString => firstDifferenceInLeadingZeros
      end
  end.

Definition naturalCompare (a b : string) : Z :=
  loop (S (String.length a)) a b 0 0 0.

End NaturalCompare.

(** ** XML codec: [library/models/codec/xml.js] *)

Module Xml.

Definition arbitraryNS : string := "pigeon-optics:arbitrary".

Inductive error : Type :=
  | TypeError
  | Error (msg : string).

Abbreviation result := (Js.outcome error).

Definition bind {A B : Type} (m : result A) (f : A -> result B) : result B :=
  match m with
  | Js.Ok a => f a
  | Js.Throw e => Js.Throw e
  end.

(** [l.map(f)] for a callback that may throw *)
Definition mapM {A B : Type} (f : A -> result B) : list A -> result (list B) :=
  fix go (l : list A) : result (list B) :=
    match l with
    | [] => Js.Ok []
    | x :: r => bind (f x) (fun y => bind (go r) (fun ys => Js.Ok (y :: ys)))
    end.

(** The texts [f] yields for the items of [l], joined *)
Definition concatM {A : Type} (f : A -> result string) : list A -> result string :=
  fix go (l : list A) : result string :=
    match l with
    | [] => Js.Ok ""
    | x :: r => bind (f x) (fun s => bind (go r) (fun t => Js.Ok (s ++ t)))
    end.

(** [countChars] *)
Fixpoint countChars (s : string) (char : ascii) : nat :=
  match s with
  | EmptyString => O
  | String c r => if Ascii.eqb c char then S (countChars r char) else countChars r char
  end.

(** The double quote character and the one-character string of it *)
Definition doubleQuote : ascii := ascii_of_nat 34.
Definition doubleQuoteText : string := String doubleQuote EmptyString.

Definition entity (c : ascii) : option string :=
  if Ascii.eqb c "&"%char then Some "&amp;"
  else if Ascii.eqb c "<"%char then Some "&lt;"
  else if Ascii.eqb c ">"%char then Some "&gt;"
  else if Ascii.eqb c doubleQuote then Some "&quot;"
  else if Ascii.eqb c "'"%char then Some "&apos;"
  else None.

Fixpoint inString (c : ascii) (s : string) : bool :=
  match s with
  | EmptyString => false
  | String d r => Ascii.eqb c d || inString c r
  end.

(** [esc] *)
Fixpoint esc (s replaceList : string) : string :=
  match s with
  | EmptyString => EmptyString
  | String c r =>
      match entity c with
      | Some e => if inString c replaceList then e ++ esc r replaceList
                  else String c (esc r replaceList)
      | None => String c (esc r replaceList)
      end
  end.

(** [s.replace('--', '-')]: the first occurrence only *)
Fixpoint replaceDashes (s : string) : string :=
  match s with
  | String a r =>
      if String.prefix "--" s
      then match r with String _ r' => String "-"%char r' | EmptyString => s end
      else String a (replaceDashes r)
  | EmptyString => EmptyString
  end.

Section Values.
(** JavaScript numbers and [Date] objects. *)
Variable number date : Type.

Inductive value : Type :=
  | VNull
  | VUndefined
  | VBool (b : bool)
  | VNumber (n : number)
  | VString (s : string)
  | VDate (d : date)
  | VBuffer (b : list Byte.byte)
  | VArray (items : list value)
  | VObject (props : list (string * value)).

(** [n.toString()], [parseFloat], and whether a number is falsy. *)
Variable numberToString : number -> string.
Variable parseFloat : string -> number.
Variable numberFalsy : number -> bool.
(** [d.toISOString()] and [new Date(text)] *)
Variable toISOString : date -> string.
Variable newDate : string -> date.
(** [b.toString('base64')] and [Buffer.from(text, encoding)] *)
Variable toBase64 : list Byte.byte -> string.
Variable bufferFrom : string -> value -> result (list Byte.byte).
(** The conversion to string of a value that is not a string, [null] or
    [undefined]. *)
Variable toText : value -> string.
(** [onml.parse] *)
Variable parse : string -> result value.

Definition truthy (v : value) : bool :=
  match v with
  | VNull | VUndefined => false
  | VBool b => b
  | VNumber n => negb (numberFalsy n)
  | VString s => negb (String.eqb s "")
  | _ => true
  end.

(** [typeof v === 'object'] *)
Definition isObjectType (v : value) : bool :=
  match v with
  | VNull | VDate _ | VBuffer _ | VArray _ | VObject _ => true
  | _ => false
  end.

Definition isArray (v : value) : bool :=
  match v with VArray _ => true | _ => false end.

Definition isString (v : value) : bool :=
  match v with VString _ => true | _ => false end.

(** An element of [l.join('')] *)
Definition joinText (v : value) : string :=
  match v with
  | VString s => s
  | VNull | VUndefined => ""
  | _ => toText v
  end.

Definition joinValues (l : list value) : string := Js.join "" (map joinText l).

(** A value used as a property key *)
Definition toKey (v : value) : string :=
  match v with
  | VString s => s
  | VNull => "null"
  | VUndefined => "undefined"
  | VBool true => "true"
  | VBool false => "false"
  | _ => toText v
  end.

(** [expandElement] *)
Definition expandElement (element : value) : result value :=
  match element with
  | VArray (VString tag :: rest) =>
      match rest with
      | [] => Js.Ok (VArray [VString tag; VObject []])
      | x :: _ =>
          if isString x || isArray x
          then Js.Ok (VArray (VString tag :: VObject [] :: rest))
          else Js.Ok element
      end
  | VArray _ => Js.Throw (Error "first array item must be string type tag-name")
  | _ => Js.Throw (Error "element must be an array")
  end.

(** [enc[1][name] = text] on an expanded element *)
Definition setAttribute (name text : string) (enc : value) : result value :=
  match enc with
  | VArray (tag :: VObject attributes :: rest) =>
      Js.Ok (VArray (tag :: VObject (Js.set name (VString text) attributes) :: rest))
  | _ => Js.Throw TypeError
  end.

(** The attribute branch of [buildXML]; a value that is not a string has no
    [replace] method. *)
Fixpoint buildAttributes (attributes : list (string * value)) : result string :=
  match attributes with
  | [] => Js.Ok ""
  | (name, VString text) :: rest =>
      let one :=
        if (countChars text "'"%char <? countChars text doubleQuote)%nat
        then " " ++ name ++ "='" ++ esc text "<&'" ++ "'"
        else " " ++ name ++ "=" ++ doubleQuoteText
               ++ esc text ("<&" ++ doubleQuoteText) ++ doubleQuoteText in
      bind (buildAttributes rest) (fun more => Js.Ok (one ++ more))
  | _ :: _ => Js.Throw TypeError
  end.

(** [more.filter(x => typeof x === 'string').join('')] *)
Definition commentText (more : list value) : string :=
  Js.join "" (flat_map (fun x => match x with VString s => [s] | _ => [] end) more).

(** The text [buildXML] yields for an array whose first item is [tag], from
    the text of its attributes and of its children [more]. *)
Definition buildElement (tag : value) (attributes children : result string)
    (more : list value) : result string :=
  match tag with
  | VString t =>
      if String.eqb t "#comment"
      then Js.Ok ("<!-- " ++ replaceDashes (commentText more) ++ " -->")
      else if String.eqb t "#document-fragment" || String.eqb t "#document"
      then children
      else if String.eqb t "#cdata-section"
      then Js.Ok ("<![CDATA[" ++ joinValues more ++ "]]>")
      else if Js.startsWith t "?"
      then bind attributes (fun a => Js.Ok ("<" ++ t ++ a ++ "?>"))
      else
        match more with
        | [] => bind attributes (fun a => Js.Ok ("<" ++ t ++ a ++ "/>"))
        | _ :: _ =>
            bind attributes (fun a =>
            bind children (fun c =>
            Js.Ok ("<" ++ t ++ a ++ ">" ++ c ++ "</" ++ t ++ ">")))
        end
  | _ => Js.Throw TypeError
  end.

(** [more[0] && typeof more[0] === 'object' && !Array.isArray(more[0])] *)
Definition isAttributes (x : value) : bool :=
  truthy x && isObjectType x && negb (isArray x).

(** [buildXML], with the pieces it yields joined *)
Fixpoint buildXML (element : value) : result string :=
  match element with
  | VArray [] => Js.Throw TypeError
  | VArray (tag :: rest) =>
      match rest with
      | x :: more =>
          if isAttributes x
          then buildElement tag (buildXML x) (concatM buildXML more) more
          else buildElement tag (Js.Ok "") (concatM buildXML rest) rest
      | [] => buildElement tag (Js.Ok "") (Js.Ok "") []
      end
  | VNull => Js.Throw TypeError
  | VObject props =>
      (fix root (l : list (string * value)) : result string :=
         match l with
         | [] => buildAttributes props
         | (k, v) :: r => if String.eqb k "JsonML" then buildXML v else root r
         end) props
  | VDate _ => Js.Ok ""
  | VBuffer [] => Js.Ok ""
  | VBuffer (_ :: _) => Js.Throw TypeError
  | VString s => Js.Ok (esc s "&<")
  | VNumber _ | VBool _ | VUndefined => Js.Throw (Error "Unsupported content")
  end.

(** [arbitraryObjectToJsonML] *)
Fixpoint arbitraryObjectToJsonML (obj : value) : result value :=
  match obj with
  | VNull => Js.Ok (VArray [VString "null"])
  | VUndefined => Js.Ok (VArray [VString "undefined"])
  | VString s => Js.Ok (VArray [VString "string"; VString s])
  | VNumber n => Js.Ok (VArray [VString "number"; VString (numberToString n)])
  | VDate d => Js.Ok (VArray [VString "date"; VString (toISOString d)])
  | VBool b => Js.Ok (VArray [VString (if b then "true" else "false")])
  | VBuffer b =>
      Js.Ok (VArray [VString "buffer"; VObject [("encoding", VString "base64")];
                     VString (toBase64 b)])
  | VArray items =>
      bind (mapM arbitraryObjectToJsonML items) (fun l => Js.Ok (VArray (VString "array" :: l)))
  | VObject props =>
      bind ((fix each (l : list (string * value)) : result (list value) :=
               match l with
               | [] => Js.Ok []
               | (prop, v) :: r =>
                   bind (arbitraryObjectToJsonML v) (fun j =>
                   bind (expandElement j) (fun enc =>
                   bind (setAttribute "name" prop enc) (fun enc' =>
                   bind (each r) (fun rest => Js.Ok (enc' :: rest)))))
               end) props)
        (fun l => Js.Ok (VArray (VString "object" :: l)))
  end.

(** [child[1].name] as the key [Object.fromEntries] makes of it *)
Definition childName (child : value) : result string :=
  let nameOf (second : value) : result string :=
    match second with
    | VNull | VUndefined => Js.Throw TypeError
    | VObject attributes =>
        Js.Ok (toKey (match Js.get "name" attributes with Some v => v | None => VUndefined end))
    | _ => Js.Ok "undefined"
    end in
  match child with
  | VArray (_ :: second :: _) => nameOf second
  | VObject props =>
      match Js.get "1" props with Some second => nameOf second | None => Js.Throw TypeError end
  | VString (String _ (String _ _)) => Js.Ok "undefined"
  | VBuffer (_ :: _ :: _) => Js.Ok "undefined"
  | _ => Js.Throw TypeError
  end.

(** The value [jsonMLToArbitraryObject] returns for an array, from its
    [tag], [attributes] and [children]; [self] is the method itself. *)
Definition fromElement (self : value -> result value) (tag attributes : value)
    (children : list value) : result value :=
  let key := toKey tag in
  if String.eqb key "true" then Js.Ok (VBool true)
  else if String.eqb key "false" then Js.Ok (VBool false)
  else if String.eqb key "null" then Js.Ok VNull
  else if String.eqb key "undefined" then Js.Ok VUndefined
  else
    match tag with
    | VString t =>
        if String.eqb t "number" then Js.Ok (VNumber (parseFloat (joinValues children)))
        else if String.eqb t "date" then Js.Ok (VDate (newDate (joinValues children)))
        else if String.eqb t "string" then Js.Ok (VString (joinValues children))
        else if String.eqb t "buffer" then
          bind (bufferFrom (joinValues children)
                  (match attributes with
                   | VObject a => match Js.get "encoding" a with
                                  | Some e => e
                                  | None => VUndefined
                                  end
                   | _ => VUndefined
                   end))
               (fun b => Js.Ok (VBuffer b))
        else if String.eqb t "array" then
          bind (mapM self children) (fun l => Js.Ok (VArray l))
        else if String.eqb t "object" then
          bind (mapM (fun child =>
                  bind (childName child) (fun k =>
                  bind (self child) (fun v => Js.Ok (k, v)))) children)
               (fun l => Js.Ok (VObject (Js.fromEntries l)))
        else Js.Ok VUndefined
    | _ => Js.Ok VUndefined
    end.

(** The body of [jsonMLToArbitraryObject] after the [JsonML] property has
    been looked through: [tag] is [jsonml[0]], the attributes are [jsonml[1]]
    when it is a truthy object, and the children are what follows. *)
Definition fromJsonML (self : value -> result value) (jsonml : value) : result value :=
  match jsonml with
  | VArray [] => fromElement self VUndefined (VObject []) []
  | VArray (tag :: rest) =>
      match rest with
      | second :: children =>
          if truthy second && isObjectType second
          then fromElement self tag second children
          else fromElement self tag (VObject []) rest
      | [] => fromElement self tag (VObject []) []
      end
  | VString _ | VBuffer _ => Js.Ok VUndefined
  | _ => Js.Throw TypeError
  end.

(** [jsonMLToArbitraryObject] *)
Fixpoint jsonMLToArbitraryObject (jsonml : value) : result value :=
  match jsonml with
  | VObject props =>
      (fix look (l : list (string * value)) : result value :=
         match l with
         | [] => Js.Throw TypeError
         | (k, v) :: r =>
             if String.eqb k "JsonML"
             then if truthy v then fromJsonML jsonMLToArbitraryObject v
                  else Js.Throw TypeError
             else look r
         end) props
  | _ => fromJsonML jsonMLToArbitraryObject jsonml
  end.

(** ['JsonML' in obj && Array.isArray(obj.JsonML)] on a plain object *)
Definition isDocument (obj : value) : bool :=
  match obj with
  | VObject props =>
      match Js.get "JsonML" props with
      | Some j => isArray j
      | None => false
      end
  | _ => false
  end.

(** [encode] *)
Definition encode (obj : value) : result string :=
  if isDocument obj then buildXML obj
  else
    bind (arbitraryObjectToJsonML obj) (fun j =>
    bind (expandElement j) (fun arbitrary =>
    bind (setAttribute "xmlns" arbitraryNS arbitrary) (fun arbitrary' =>
    buildXML arbitrary'))).

(** The test [decode] makes on what the parser returns *)
Definition isArbitrary (parsed : value) : bool :=
  match parsed with
  | VArray (_ :: VObject attributes :: _) =>
      match Js.get "xmlns" attributes with
      | Some (VString ns) => String.eqb ns arbitraryNS
      | _ => false
      end
  | _ => false
  end.

(** [decode] of a string *)
Definition decode (input : string) : result value :=
  bind (parse input) (fun parsed =>
    if isArbitrary parsed then jsonMLToArbitraryObject parsed
    else Js.Ok (VObject [("JsonML", parsed)])).

(** *** Notions the properties are stated with *)

(** The JsonML document [encode] serialises for a value that is not itself
    a document. *)
Definition document (obj : value) : result value :=
  bind (arbitraryObjectToJsonML obj) (fun j =>
  bind (expandElement j) (fun arbitrary =>
  setAttribute "xmlns" arbitraryNS arbitrary)).

(** A value whose objects list their properties the way a JavaScript object
    enumerates them. *)
Fixpoint wellFormed (v : value) : Prop :=
  match v with
  | VArray items =>
      (fix all (l : list value) : Prop :=
         match l with
         | [] => True
         | x :: r => wellFormed x /\ all r
         end) items
  | VObject props =>
      Js.enumerated props /\
      (fix all (l : list (string * value)) : Prop :=
         match l with
         | [] => True
         | (_, x) :: r => wellFormed x /\ all r
         end) props
  | _ => True
  end.

(** The attributes of an element: the codec's own ([base]) with the one
    [extra] attribute set after them, if any. *)
Definition attributesOf (extra : option (string * string)) (base : list (string * value))
    : list value :=
  match extra with
  | Some (name, text) => [VObject (Js.set name (VString text) base)]
  | None => match base with [] => [] | _ :: _ => [VObject base] end
  end.

(** The attribute [encode] and [arbitraryObjectToJsonML] set on an element:
    [name] on a member of an object, [xmlns] on the root. *)
Definition ownAttribute (extra : option (string * string)) : Prop :=
  match extra with
  | Some (name, _) => name = "name" \/ name = "xmlns"
  | None => True
  end.

(** The JsonML of a value in closed form: as [arbitraryObjectToJsonML]
    returns it when [extra] is [None], expanded and with the attribute set
    when it is given. *)
Fixpoint jsonML (extra : option (string * string)) (v : value) : value :=
  match v with
  | VNull => VArray (VString "null" :: attributesOf extra [])
  | VUndefined => VArray (VString "undefined" :: attributesOf extra [])
  | VBool b => VArray (VString (if b then "true" else "false") :: attributesOf extra [])
  | VNumber n =>
      VArray (VString "number" :: attributesOf extra [] ++ [VString (numberToString n)])%list
  | VString s => VArray (VString "string" :: attributesOf extra [] ++ [VString s])%list
  | VDate d =>
      VArray (VString "date" :: attributesOf extra [] ++ [VString (toISOString d)])%list
  | VBuffer b =>
      VArray (VString "buffer" :: attributesOf extra [("encoding", VString "base64")]
                ++ [VString (toBase64 b)])%list
  | VArray items =>
      VArray (VString "array" :: attributesOf extra [] ++ map (jsonML None) items)%list
  | VObject props =>
      VArray (VString "object" :: attributesOf extra []
                ++ map (fun kv => match kv with
                                  | (prop, x) => jsonML (Some ("name", prop)) x
                                  end) props)%list
  end.

(** *** The streaming encoders *)

(** [hash.toString('hex')] *)
Variable toHex : list Byte.byte -> string.

(** The line feed *)
Definition lineFeed : string := String (ascii_of_nat 10) EmptyString.

(** [isJsonML] *)
Definition isJsonML (doc : value) : bool :=
  match doc with
  | VObject props =>
      match Js.get "JsonML" props with
      | Some j => truthy j
      | None => false
      end
  | _ => false
  end.

(** What a [Transform] of the codec has pushed once the chunks written to it
    are consumed: its [transform] pushes one text per chunk, the first one
    after the [opening] line, and [flush] pushes the [closing] line; an error
    given to the callback ends the stream, and [flush] is not called. [each]
    is what the [try] block makes of a chunk. *)
Fixpoint transformed {A : Type} (each : A -> result string) (opening closing : string)
    (first : bool) (chunks : list A) : list string * option error :=
  match chunks with
  | [] => ([closing], None)
  | chunk :: rest =>
      match each chunk with
      | Js.Ok xmlString =>
          let out := transformed each opening closing false rest in
          ((if first then opening ++ xmlString ++ lineFeed else xmlString ++ lineFeed)
             :: out.1, out.2)
      | Js.Throw err => ([], Some err)
      end
  end.

(** [encoder()] *)
Definition encoder (chunks : list value) : list string * option error :=
  transformed encode ("<array>" ++ lineFeed) ("</array>" ++ lineFeed) true chunks.

(** A chunk of [entriesEncoder()] *)
Record exportEntry : Type := mkEntry {
  entryId : string;
  entryData : value;
  entryHash : list Byte.byte;
  entryVersion : number
}.

(** The text [entriesEncoder()] makes of a chunk. *)
Definition recordXml (chunk : exportEntry) : result string :=
  bind (if isJsonML (entryData chunk)
        then Js.Ok (entryData chunk)
        else bind (arbitraryObjectToJsonML (entryData chunk)) (fun j =>
             bind (expandElement j) (fun data =>
             setAttribute "xmlns" arbitraryNS data)))
    (fun data =>
       encode (VObject
         [("JsonML",
           VArray [VString "record";
                   VObject [("hash", VString (toHex (entryHash chunk)));
                            ("version", VString (numberToString (entryVersion chunk)));
                            ("id", VString (entryId chunk))];
                   data])])).

(** [entriesEncoder()] *)
Definition entriesEncoder (chunks : list exportEntry) : list string * option error :=
  transformed recordXml
    ("<export xmlns=" ++ doubleQuoteText ++ "pigeon-optics:export" ++ doubleQuoteText
       ++ ">" ++ lineFeed)
    ("</export>" ++ lineFeed) true chunks.

End Values.

Arguments VNull {number date}.
Arguments VUndefined {number date}.
Arguments VBool {number date} b.
Arguments VNumber {number date} n.
Arguments VString {number date} s.
Arguments VDate {number date} d.
Arguments VBuffer {number date} b.
Arguments VArray {number date} items.
Arguments VObject {number date} props.
Arguments truthy {number date} numberFalsy v.
Arguments isObjectType {number date} v.
Arguments isArray {number date} v.
Arguments isString {number date} v.
Arguments joinText {number date} toText v.
Arguments joinValues {number date} toText l.
Arguments toKey {number date} toText v.
Arguments expandElement {number date} element.
Arguments setAttribute {number date} name text enc.
Arguments buildAttributes {number date} attributes.
Arguments commentText {number date} more.
Arguments buildElement {number date} toText tag attributes children more.
Arguments isAttributes {number date} numberFalsy x.
Arguments buildXML {number date} numberFalsy toText element.
Arguments arbitraryObjectToJsonML {number date} numberToString toISOString toBase64 obj.
Arguments childName {number date} toText child.
Arguments fromElement {number date} parseFloat newDate bufferFrom toText self tag attributes
  children.
Arguments fromJsonML {number date} parseFloat numberFalsy newDate bufferFrom toText self
  jsonml.
Arguments jsonMLToArbitraryObject {number date} parseFloat numberFalsy newDate bufferFrom
  toText jsonml.
Arguments isDocument {number date} obj.
Arguments encode {number date} numberToString numberFalsy toISOString toBase64 toText obj.
Arguments isArbitrary {number date} parsed.
Arguments decode {number date} parseFloat numberFalsy newDate bufferFrom toText parse input.
Arguments document {number date} numberToString toISOString toBase64 obj.
Arguments wellFormed {number date} v.
Arguments attributesOf {number date} extra base.
Arguments jsonML {number date} numberToString toISOString toBase64 extra v.
Arguments isJsonML {number date} numberFalsy doc.
Arguments transformed {A} each opening closing first chunks.
Arguments encoder {number date} numberToString numberFalsy toISOString toBase64 toText chunks.
Arguments mkEntry {number date} entryId entryData entryHash entryVersion.
Arguments entryId {number date} e.
Arguments entryData {number date} e.
Arguments entryHash {number date} e.
Arguments entryVersion {number date} e.
Arguments recordXml {number date} numberToString numberFalsy toISOString toBase64 toText
  toHex chunk.
Arguments entriesEncoder {number date} numberToString numberFalsy toISOString toBase64
  toText toHex chunks.

End Xml.

(** ** The XML parser: the [onml] package over the [sax] tokenizer

    [decode] hands the text to [onml.parse], a third-party function that
    drives the [sax] tokenizer in strict mode and builds the JsonML of the
    first element. Both packages are dependencies of the repository and
    not part of it. This module follows the two on elements, attributes and
    character data with the five predefined entities, which is the markup
    [buildXML] writes for an element. Comments, CDATA sections, processing
    instructions, declarations, entities of other names and the states of the
    tokenizer that only tolerate stray white space inside a tag are outside
    the model, which stops on them with an error of its own. *)

Module Onml.

(** *** Character classes of the tokenizer *)

Definition between (lo hi : nat) (c : ascii) : bool :=
  let n := nat_of_ascii c in (lo <=? n)%nat && (n <=? hi)%nat.

Definition lineFeedChar : ascii := ascii_of_nat 10.
Definition carriageReturn : ascii := ascii_of_nat 13.
Definition tab : ascii := ascii_of_nat 9.

Definition isWhitespace (c : ascii) : bool :=
  Ascii.eqb c " " || Ascii.eqb c lineFeedChar || Ascii.eqb c carriageReturn
  || Ascii.eqb c tab.

Definition isQuote (c : ascii) : bool :=
  Ascii.eqb c Xml.doubleQuote || Ascii.eqb c "'".

(** The name characters among 8-bit code units. *)
Definition nameStart (c : ascii) : bool :=
  Ascii.eqb c ":" || Ascii.eqb c "_" || between 65 90 c || between 97 122 c
  || between 192 214 c || between 216 246 c || between 248 255 c.

Definition nameBody (c : ascii) : bool :=
  nameStart c || Ascii.eqb c "-" || Ascii.eqb c "." || between 48 57 c
  || between 183 183 c.

Definition entityStart (c : ascii) : bool := Ascii.eqb c "#" || nameStart c.
Definition entityBody (c : ascii) : bool := Ascii.eqb c "#" || nameBody c.

(** [s += c] *)
Definition push (s : string) (c : ascii) : string := s ++ String c EmptyString.

(** *** The tokenizer *)

(** What the tokenizer emits of interest to [onml]. *)
Inductive event : Type :=
  | OpenTag (name : string) (attributes : Js.jsobj string)
  | CloseTag
  | Text (text : string).

(** The states of the tokenizer, each with the buffers it is filling: the
    tag name, the attributes of the tag so far, the name and the value of the
    attribute being read, its quote, and the name of an entity. *)
Inductive state : Type :=
  | BEGIN
  | TEXT
  | TEXT_ENTITY (entity : string)
  | OPEN_WAKA
  | OPEN_TAG (tagName : string)
  | OPEN_TAG_SLASH (tagName : string) (attributes : Js.jsobj string)
  | ATTRIB (tagName : string) (attributes : Js.jsobj string)
  | ATTRIB_NAME (tagName : string) (attributes : Js.jsobj string) (attribName : string)
  | ATTRIB_VALUE (tagName : string) (attributes : Js.jsobj string) (attribName : string)
  | ATTRIB_VALUE_QUOTED (tagName : string) (attributes : Js.jsobj string)
      (attribName attribValue : string) (q : ascii)
  | ATTRIB_VALUE_ENTITY_Q (tagName : string) (attributes : Js.jsobj string)
      (attribName attribValue : string) (q : ascii) (entity : string)
  | ATTRIB_VALUE_CLOSED (tagName : string) (attributes : Js.jsobj string)
  | CLOSE_TAG (tagName : string).

(** The tokenizer: its state, the character data gathered, the names of
    the open tags (the innermost first), whether the root element has been
    seen and closed, and the events emitted. *)
Record parser : Type := mkParser {
  pstate : state;
  textNode : string;
  tags : list string;
  sawRoot : bool;
  closedRoot : bool;
  events : list event
}.

Definition start : parser := mkParser BEGIN "" [] false false [].

Abbreviation result := (Js.outcome Xml.error).

Definition fail {A : Type} (message : string) : result A := Js.Throw (Xml.Error message).

Definition setState (p : parser) (s : state) : parser :=
  mkParser s (textNode p) (tags p) (sawRoot p) (closedRoot p) (events p).

(** [closeText]: the text gathered so far is emitted when there is any. *)
Definition closeText (p : parser) : list event :=
  if String.eqb (textNode p) "" then events p
  else (events p ++ [Text (textNode p)])%list.

(** [parseEntity] in strict mode: the predefined entities, by their name or
    by their name in lower case. *)
Definition parseEntity (entity : string) : result string :=
  let named (name : string) : option string :=
    if String.eqb name "amp" then Some "&"
    else if String.eqb name "gt" then Some ">"
    else if String.eqb name "lt" then Some "<"
    else if String.eqb name "quot" then Some Xml.doubleQuoteText
    else if String.eqb name "apos" then Some "'"
    else None in
  match named entity with
  | Some text => Js.Ok text
  | None =>
      match named (Js.toLowerCase entity) with
      | Some text => Js.Ok text
      | None => fail "Invalid character entity"
      end
  end.

(** [attrib]: an attribute the tag has already is ignored. *)
Definition attrib (attributes : Js.jsobj string) (attribName attribValue : string)
    : Js.jsobj string :=
  if Js.has attribName attributes then attributes
  else Js.set attribName attribValue attributes.

(** [openTag] *)
Definition openTag (p : parser) (tagName : string) (attributes : Js.jsobj string)
    : parser :=
  mkParser TEXT "" (tagName :: tags p) true (closedRoot p)
    (closeText p ++ [OpenTag tagName attributes])%list.

(** [closeTag] in strict mode: the name is the one of the innermost open
    tag. *)
Definition closeTag (p : parser) (tagName : string) : result parser :=
  if String.eqb tagName "" then fail "Weird empty close tag."
  else
    match tags p with
    | [] => fail "Unmatched closing tag"
    | innermost :: outer =>
        if String.eqb innermost tagName
        then Js.Ok (mkParser TEXT "" outer (sawRoot p)
                      (match outer with [] => true | _ :: _ => closedRoot p end)
                      (closeText p ++ [CloseTag])%list)
        else fail "Unexpected close tag"
    end.

(** One character. *)
Definition step (p : parser) (c : ascii) : result parser :=
  match pstate p with
  | BEGIN =>
      if Ascii.eqb c "<" then Js.Ok (setState p OPEN_WAKA)
      else if isWhitespace c then Js.Ok p
      else fail "Non-whitespace before first tag."
  | TEXT =>
      if Ascii.eqb c "<" then Js.Ok (setState p OPEN_WAKA)
      else if negb (isWhitespace c) && (negb (sawRoot p) || closedRoot p)
      then fail "Text data outside of root node."
      else if Ascii.eqb c "&" then Js.Ok (setState p (TEXT_ENTITY ""))
      else Js.Ok (mkParser TEXT (push (textNode p) c) (tags p) (sawRoot p) (closedRoot p)
                    (events p))
  | TEXT_ENTITY entity =>
      if Ascii.eqb c ";"
      then Xml.bind (parseEntity entity) (fun text =>
             Js.Ok (mkParser TEXT (textNode p ++ text) (tags p) (sawRoot p) (closedRoot p)
                      (events p)))
      else if (if String.eqb entity "" then entityStart c else entityBody c)
      then Js.Ok (setState p (TEXT_ENTITY (push entity c)))
      else fail "Invalid character in entity name"
  | OPEN_WAKA =>
      if isWhitespace c then Js.Ok p
      else if nameStart c then Js.Ok (setState p (OPEN_TAG (String c EmptyString)))
      else if Ascii.eqb c "/" then Js.Ok (setState p (CLOSE_TAG ""))
      else if Ascii.eqb c "!" || Ascii.eqb c "?" then fail "unsupported"
      else fail "Unencoded <"
  | OPEN_TAG tagName =>
      if nameBody c then Js.Ok (setState p (OPEN_TAG (push tagName c)))
      else if Ascii.eqb c ">" then Js.Ok (openTag p tagName [])
      else if Ascii.eqb c "/" then Js.Ok (setState p (OPEN_TAG_SLASH tagName []))
      else if isWhitespace c then Js.Ok (setState p (ATTRIB tagName []))
      else fail "Invalid character in tag name"
  | OPEN_TAG_SLASH tagName attributes =>
      if Ascii.eqb c ">" then closeTag (openTag p tagName attributes) tagName
      else fail "Forward-slash in opening tag not followed by >"
  | ATTRIB tagName attributes =>
      if isWhitespace c then Js.Ok p
      else if Ascii.eqb c ">" then Js.Ok (openTag p tagName attributes)
      else if Ascii.eqb c "/" then Js.Ok (setState p (OPEN_TAG_SLASH tagName attributes))
      else if nameStart c
      then Js.Ok (setState p (ATTRIB_NAME tagName attributes (String c EmptyString)))
      else fail "Invalid attribute name"
  | ATTRIB_NAME tagName attributes attribName =>
      if Ascii.eqb c "=" then Js.Ok (setState p (ATTRIB_VALUE tagName attributes attribName))
      else if Ascii.eqb c ">" then fail "Attribute without value"
      else if isWhitespace c then fail "unsupported"
      else if nameBody c
      then Js.Ok (setState p (ATTRIB_NAME tagName attributes (push attribName c)))
      else fail "Invalid attribute name"
  | ATTRIB_VALUE tagName attributes attribName =>
      if isWhitespace c then Js.Ok p
      else if isQuote c
      then Js.Ok (setState p (ATTRIB_VALUE_QUOTED tagName attributes attribName "" c))
      else fail "Unquoted attribute value"
  | ATTRIB_VALUE_QUOTED tagName attributes attribName attribValue q =>
      if negb (Ascii.eqb c q)
      then if Ascii.eqb c "&"
           then Js.Ok (setState p
                  (ATTRIB_VALUE_ENTITY_Q tagName attributes attribName attribValue q ""))
           else Js.Ok (setState p
                  (ATTRIB_VALUE_QUOTED tagName attributes attribName (push attribValue c) q))
      else Js.Ok (setState p
             (ATTRIB_VALUE_CLOSED tagName (attrib attributes attribName attribValue)))
  | ATTRIB_VALUE_ENTITY_Q tagName attributes attribName attribValue q entity =>
      if Ascii.eqb c ";"
      then Xml.bind (parseEntity entity) (fun text =>
             Js.Ok (setState p
               (ATTRIB_VALUE_QUOTED tagName attributes attribName (attribValue ++ text) q)))
      else if (if String.eqb entity "" then entityStart c else entityBody c)
      then Js.Ok (setState p
             (ATTRIB_VALUE_ENTITY_Q tagName attributes attribName attribValue q
                (push entity c)))
      else fail "Invalid character in entity name"
  | ATTRIB_VALUE_CLOSED tagName attributes =>
      if isWhitespace c then Js.Ok (setState p (ATTRIB tagName attributes))
      else if Ascii.eqb c ">" then Js.Ok (openTag p tagName attributes)
      else if Ascii.eqb c "/" then Js.Ok (setState p (OPEN_TAG_SLASH tagName attributes))
      else if nameStart c then fail "No whitespace between attributes"
      else fail "Invalid attribute name"
  | CLOSE_TAG tagName =>
      if String.eqb tagName ""
      then if isWhitespace c then Js.Ok p
           else if nameStart c then Js.Ok (setState p (CLOSE_TAG (String c EmptyString)))
           else fail "Invalid tagname in closing tag."
      else if Ascii.eqb c ">" then closeTag p tagName
      else if nameBody c then Js.Ok (setState p (CLOSE_TAG (push tagName c)))
      else if isWhitespace c then fail "unsupported"
      else fail "Invalid tagname in closing tag"
  end.

(** [parser.write(data)]. The tokenizer records an error and goes on, and
    the call of [close] that follows throws what was recorded last; here the
    first error ends the run, which throws in the same cases. *)
Fixpoint write (p : parser) (data : string) : result parser :=
  match data with
  | EmptyString => Js.Ok p
  | String c rest => Xml.bind (step p c) (fun p' => write p' rest)
  end.

(** [parser.close()] after a [write] without error: the text gathered is
    emitted. What the tokenizer finds wrong at the end of the input (a root
    element left open, an unfinished tag) it records without throwing. *)
Definition close (p : parser) : list event := closeText p.

(** *** The handlers of [onml.parse] *)

(** [String.prototype.trim] on 8-bit code units: white space and line
    terminators go from both ends. *)
Definition isTrimmed (c : ascii) : bool :=
  between 9 13 c || between 32 32 c || between 160 160 c.

Fixpoint trimStart (s : string) : string :=
  match s with
  | EmptyString => EmptyString
  | String c rest => if isTrimmed c then trimStart rest else s
  end.

Fixpoint trimEnd (s : string) : string :=
  match s with
  | EmptyString => EmptyString
  | String c rest =>
      match trimEnd rest with
      | EmptyString => if isTrimmed c then EmptyString else String c EmptyString
      | kept => String c kept
      end
  end.

Definition trim (s : string) : string := trimEnd (trimStart s).

Section Tree.
Context {number date : Type}.
Local Abbreviation val := (Xml.value number date).

(** An element that is open: its name, its attributes and the children it
    has so far. *)
Definition leaf : Type := (string * Js.jsobj string * list val)%type.

(** The array [onml] makes of an element. *)
Definition element (l : leaf) : val :=
  Xml.VArray
    (Xml.VString l.1.1
       :: Xml.VObject (map (fun kv => (kv.1, Xml.VString kv.2)) l.1.2)
       :: l.2).

(** [pointer.push(x)]: [pointer] is the innermost open element, or the
    result array when none is open. An element is put in its parent by
    reference when it opens; here it is put there when it closes, which
    gives the same array. *)
Definition pushChild (x : val) (stack : list leaf) (res : list val)
    : list leaf * list val :=
  match stack with
  | (name, attributes, children) :: outer =>
      ((name, attributes, (children ++ [x])%list) :: outer, res)
  | [] => ([], (res ++ [x])%list)
  end.

(** The result array when the events end: the elements still open are in
    their parents already. *)
Fixpoint unwind (inner : list val) (stack : list leaf) (res : list val) : list val :=
  match stack with
  | [] => (res ++ inner)%list
  | (name, attributes, children) :: outer =>
      unwind [element (name, attributes, (children ++ inner)%list)] outer res
  end.

(** The three handlers, run over the events. *)
Fixpoint handle (evs : list event) (stack : list leaf) (res : list val) : list val :=
  match evs with
  | [] => unwind [] stack res
  | Text e :: rest =>
      let e := trim e in
      if String.eqb e "" then handle rest stack res
      else let '(stack', res') := pushChild (Xml.VString e) stack res in
           handle rest stack' res'
  | OpenTag name attributes :: rest => handle rest ((name, attributes, []) :: stack) res
  | CloseTag :: rest =>
      match stack with
      | l :: outer =>
          let '(stack', res') := pushChild (element l) outer res in handle rest stack' res'
      | [] => handle rest [] res
      end
  end.

(** [onml.parse]: [res[0]] *)
Definition parse (data : string) : result val :=
  Xml.bind (write start data) (fun p =>
  Js.Ok (match handle (close p) [] [] with
         | first :: _ => first
         | [] => Xml.VUndefined
         end)).

End Tree.

(** *** Notions the round trip is stated with *)

(** The names of the elements and of the attributes the codec writes for a
    value. *)
Definition tagNames : list string :=
  ["null"; "undefined"; "true"; "false"; "number"; "string"; "date"; "buffer"; "array";
   "object"].

Definition attributeNames : list string := ["name"; "xmlns"; "encoding"].

(** The states of the tokenizer in which the name of the tag [T] and the
    attributes [attrs] have been read. *)
Definition inTag (T : string) (attrs : Js.jsobj string) (s : state) : Prop :=
  (s = OPEN_TAG T /\ attrs = []) \/ s = ATTRIB_VALUE_CLOSED T attrs.

Section Encoded.
Context {number date : Type}.
Variable numberToString : number -> string.
Variable parseFloat : string -> number.
Variable toISOString : date -> string.
Variable newDate : string -> date.
Variable toBase64 : list Byte.byte -> string.
Variable bufferFrom : string -> Xml.value number date -> result (list Byte.byte).

Local Abbreviation val := (Xml.value number date).

(** The element of the arbitrary-object tag set that stands for a value:
    its name, the attribute it has of itself, and the text it holds. *)
Definition tagOf (v : val) : string :=
  match v with
  | Xml.VNull => "null"
  | Xml.VUndefined => "undefined"
  | Xml.VBool b => if b then "true" else "false"
  | Xml.VNumber _ => "number"
  | Xml.VString _ => "string"
  | Xml.VDate _ => "date"
  | Xml.VBuffer _ => "buffer"
  | Xml.VArray _ => "array"
  | Xml.VObject _ => "object"
  end.

Definition textOf (v : val) : option string :=
  match v with
  | Xml.VNumber n => Some (numberToString n)
  | Xml.VString s => Some s
  | Xml.VDate d => Some (toISOString d)
  | Xml.VBuffer b => Some (toBase64 b)
  | _ => None
  end.

(** The attributes of the element: its own, then the [name] or [xmlns] it
    is given. *)
Definition attributesFor (extra : option (string * string)) (v : val) : Js.jsobj string :=
  (match v with Xml.VBuffer _ => [("encoding", "base64")] | _ => [] end
   ++ match extra with Some kv => [kv] | None => [] end)%list.

(** The text of one attribute, as [buildXML] writes it. *)
Definition attributeText (kv : string * string) : string :=
  if (Xml.countChars kv.2 "'"%char <? Xml.countChars kv.2 Xml.doubleQuote)%nat
  then " " ++ kv.1 ++ "='" ++ Xml.esc kv.2 "<&'" ++ "'"
  else " " ++ kv.1 ++ "=" ++ Xml.doubleQuoteText
         ++ Xml.esc kv.2 ("<&" ++ Xml.doubleQuoteText) ++ Xml.doubleQuoteText.

Definition joined (l : list string) : string := fold_right String.append "" l.

(** An element with the text of its children, or without children. *)
Definition markup (tag attributes : string) (children : option string) : string :=
  match children with
  | Some inner => "<" ++ tag ++ attributes ++ ">" ++ inner ++ "</" ++ tag ++ ">"
  | None => "<" ++ tag ++ attributes ++ "/>"
  end.

(** The text [encode] writes for a value. *)
Fixpoint xmlOf (extra : option (string * string)) (v : val) : string :=
  markup (tagOf v) (joined (map attributeText (attributesFor extra v)))
    (match v with
     | Xml.VArray items =>
         match items with
         | [] => None
         | _ :: _ => Some (joined (map (xmlOf None) items))
         end
     | Xml.VObject props =>
         match props with
         | [] => None
         | _ :: _ =>
             Some (joined (map (fun kv => match kv with
                                          | (prop, x) => xmlOf (Some ("name", prop)) x
                                          end) props))
         end
     | _ => option_map (fun text => Xml.esc text "&<") (textOf v)
     end).

(** The events the tokenizer emits for that text. *)
Fixpoint eventsOf (extra : option (string * string)) (v : val) : list event :=
  (OpenTag (tagOf v) (attributesFor extra v)
   :: match v with
      | Xml.VArray items => flat_map (eventsOf None) items
      | Xml.VObject props =>
          flat_map (fun kv => match kv with
                              | (prop, x) => eventsOf (Some ("name", prop)) x
                              end) props
      | _ =>
          match textOf v with
          | Some text => if String.eqb text "" then [] else [Text text]
          | None => []
          end
      end ++ [CloseTag])%list.

(** The JsonML [onml.parse] builds from them. *)
Fixpoint parsedOf (extra : option (string * string)) (v : val) : val :=
  element
    (tagOf v, attributesFor extra v,
     match v with
     | Xml.VArray items => map (parsedOf None) items
     | Xml.VObject props =>
         map (fun kv => match kv with
                        | (prop, x) => parsedOf (Some ("name", prop)) x
                        end) props
     | _ =>
         match textOf v with
         | Some text => if String.eqb (trim text) "" then [] else [Xml.VString (trim text)]
         | None => []
         end
     end).

(** A value whose strings have no white space at their ends, and whose
    numbers, dates and byte strings the built-in conversions get back from
    the text written for them. *)
Fixpoint recovers (v : val) : Prop :=
  match v with
  | Xml.VString s => trim s = s
  | Xml.VNumber n => parseFloat (trim (numberToString n)) = n
  | Xml.VDate d => newDate (trim (toISOString d)) = d
  | Xml.VBuffer b => bufferFrom (trim (toBase64 b)) (Xml.VString "base64") = Js.Ok b
  | Xml.VArray items =>
      (fix all (l : list val) : Prop :=
         match l with
         | [] => True
         | x :: r => recovers x /\ all r
         end) items
  | Xml.VObject props =>
      (fix all (l : list (string * val)) : Prop :=
         match l with
         | [] => True
         | (_, x) :: r => recovers x /\ all r
         end) props
  | _ => True
  end.

End Encoded.

End Onml.

(** ** Text in HTML views: [library/vibe/escape-text.js] *)

Module EscapeText.

(** The replacement [table] *)
Definition table (char : ascii) : option string :=
  if Ascii.eqb char "&"%char then Some "&amp;"
  else if Ascii.eqb char "<"%char then Some "&lt;"
  else None.

(** [escapeText]: every character the pattern matches is replaced by its
    entry of the table. *)
Fixpoint escapeText (s : string) : string :=
  match s with
  | EmptyString => EmptyString
  | String c r =>
      match table c with
      | Some e => e ++ escapeText r
      | None => String c (escapeText r)
      end
  end.

End EscapeText.

(** ** Concrete stores and parameters for the scenarios *)

Module Scenario.

(** Record values are strings here. A stand-in for the SHA-256 of the
    canonical encoding: the first 32 bytes of the text, zero padded. *)
Definition objectHash (data : string) : Dataset.buffer :=
  take 32 (list_byte_of_string data ++ repeat Byte.x00 32)%list.

(** A record value that is a hash URL links to it. *)
Definition listHashURLs (data : string) : list Dataset.hashURL :=
  if Js.startsWith data "hash://sha256/"
  then [Dataset.mkHashURL (String.substring 14 (String.length data - 14) data) data]
  else [].

Definition validateRecord (recordID data : string) : option string := None.

Definition validateConfig (m : Dataset.meta unit) : option string := None.

Definition noAttachments : Attachments.store := Attachments.mkStore ∅ ∅ ∅.

Definition writeEntries :=
  Dataset.writeEntries objectHash listHashURLs validateRecord validateConfig
    NaturalCompare.naturalCompare.

Definition updateMeta :=
  @Dataset.updateMeta string unit validateConfig NaturalCompare.naturalCompare.

Definition run :=
  Dataset.run objectHash listHashURLs validateRecord validateConfig
    NaturalCompare.naturalCompare.

(** A new dataset, as [create] leaves it at time 1000. *)
Definition created : Dataset.world string unit :=
  Dataset.mkWorld (Some (Dataset.mkMeta 0 1000 1000 tt [])) ∅ ∅ noAttachments.

(** The dataset after record [a] has been written twice with different
    values: the object of the first value is still stored. *)
Definition writtenTwice : Dataset.world string unit :=
  (run 1002 (Dataset.Write "a" (Some "second"))
     (run 1001 (Dataset.Write "a" (Some "first")) created).2).2.

(** A block that returns a copy of the draft with the version set to 0:
    [meta => ({ ...meta, version: 0 })]. *)
Definition resetVersion : Dataset.block string unit :=
  fun m w =>
    (Js.Ok (m, Dataset.mkMeta 0 (Dataset.created m) (Dataset.updated m) (Dataset.config m)
                 (Dataset.records m)), w).

(** A dataset holding the records a, b and c. *)
Definition abc : Dataset.world string unit :=
  (writeEntries 1001 [("a", Some "A"); ("b", Some "B"); ("c", Some "C")] false created).2.

(** A hash URL no attachment exists for. *)
Definition deadbeef : string :=
  "hash://sha256/deadbeef00000000000000000000000000000000000000000000000000000000".

(** An attachment with one linker that no longer refers to it, held by an
    upload in progress. *)
Definition hash1 : string := "2cf24dba5fb0a30e26e83b2ac5b9e29e1b161e5c1fa7425e73043362938b9824".

Definition heldStore : Attachments.store :=
  Attachments.mkStore {[hash1]}
    {[hash1 := Attachments.mkMeta 10 20 ["datasets/u/n/k"] []]}
    {[hash1 := 1]}.

(** The resolver finds no link left in any record. *)
Definition noLinks (paths : list string) : list (string * option (list string)) :=
  map (fun p => (p, Some [])) paths.

(** For the XML codec: numbers and dates are represented by their text, and
    the text of a buffer is its bytes, so that the conversions invert each
    other. *)
Definition xmlValue : Type := Xml.value string string.

Definition numberFalsy (n : string) : bool := String.eqb n "0" || String.eqb n "NaN".

Definition bufferFrom (text : string) (encoding : xmlValue)
    : Xml.result (list Byte.byte) :=
  Js.Ok (list_byte_of_string text).

Definition toText (v : xmlValue) : string := "[object Object]".

Definition encode : xmlValue -> Xml.result string :=
  Xml.encode (fun n => n) numberFalsy (fun d => d) string_of_list_byte toText.

Definition decode : string -> Xml.result xmlValue :=
  Xml.decode (fun text => text) numberFalsy (fun text => text) bufferFrom toText Onml.parse.

(** A record value and the text [encode] makes of it. *)
Definition song : xmlValue :=
  Xml.VObject
    [("title", Xml.VString "A & B <live>");
     ("tags", Xml.VArray [Xml.VNumber "1"; Xml.VNull; Xml.VBool true; Xml.VString ""]);
     ("data", Xml.VBuffer [Byte.x68; Byte.x69]);
     ("released", Xml.VDate "2021-03-04T05:06:07.000Z");
     ("credits",
      Xml.VObject
        [("0", Xml.VUndefined);
         ("the " ++ Xml.doubleQuoteText ++ "band" ++ Xml.doubleQuoteText, Xml.VBool false);
         ("it's", Xml.VArray [])])].

Definition songXml : string :=
  Eval vm_compute in
    match encode song with
    | Js.Ok xml => xml
    | Js.Throw _ => EmptyString
    end.

(** The two zeros of JavaScript: [toString] gives the text 0 for both, and
    [parseFloat] of that text is the positive zero. They are the numbers
    needed to follow [encode] and [decode] on a zero. *)
Inductive zero : Type := PositiveZero | NegativeZero.

Definition zeroToString (n : zero) : string := "0".

Definition parseZero (text : string) : zero := PositiveZero.

Definition encodeZero : Xml.value zero string -> Xml.result string :=
  Xml.encode zeroToString (fun n => true) (fun d => d) string_of_list_byte
    (fun v => "[object Object]").

Definition decodeZero : string -> Xml.result (Xml.value zero string) :=
  Xml.decode parseZero (fun n => true) (fun text => text)
    (fun text encoding => Js.Ok (list_byte_of_string text)) (fun v => "[object Object]")
    Onml.parse.

(** Two objects with a [JsonML] property: an empty array, and the element
    [encode] produces for the string x. *)
Definition emptyDocument : xmlValue := Xml.VObject [("JsonML", Xml.VArray [])].

Definition stringDocument : xmlValue :=
  Xml.VObject
    [("JsonML",
      Xml.VArray [Xml.VString "string";
                  Xml.VObject [("xmlns", Xml.VString Xml.arbitraryNS)];
                  Xml.VString "x"])].

(** No dataset yet. *)
Definition absent : Dataset.world string unit :=
  Dataset.mkWorld None ∅ ∅ noAttachments.

(** The dataset after record [a] has been written once. *)
Definition writtenOnce : Dataset.world string unit :=
  (run 1001 (Dataset.Write "a" (Some "first")) created).2.

(** The meta of [writtenOnce] and of [abc]. *)
Definition metaOnce : Dataset.meta unit :=
  Dataset.mkMeta 1 1000 1001 tt [("a", Dataset.mkRecord (objectHash "first") [] (Some 1))].

Definition metaAbc : Dataset.meta unit :=
  Dataset.mkMeta 1 1000 1001 tt
    [("a", Dataset.mkRecord (objectHash "A") [] (Some 1));
     ("b", Dataset.mkRecord (objectHash "B") [] (Some 1));
     ("c", Dataset.mkRecord (objectHash "C") [] (Some 1))].

(** A configuration validator that rejects every meta. *)
Definition rejectConfig (m : Dataset.meta unit) : option string := Some "memo is too long".

(** A stand-in for the digest of a stream: the content read as text. *)
Definition digest (content : list Byte.byte) : string := string_of_list_byte content.

(** An upload whose digest is [hash1]. *)
Definition upload : list Byte.byte := list_byte_of_string hash1.

(** A stand-in for the hex text of a hash: its bytes read as text. *)
Definition toHex (b : list Byte.byte) : string := string_of_list_byte b.

End Scenario.

(** * Properties *)

(** ** JavaScript objects *)

Module JsFacts.

Section Objects.
Context {V : Type}.
Implicit Types (o : Js.jsobj V) (k : string) (v : V).

Lemma get_Some_entry k v o : Js.get k o = Some v -> (k, v) ∈ o.
Proof.
  induction o as [|[k' v'] r IH]; simpl; [discriminate|].
  destruct (String.eqb_spec k k') as [->|Hne].
  - intros [= ->]. left.
  - intros H. right. auto.
Qed.

Lemma get_None_keys k o : Js.get k o = None <-> k ∉ Js.keys o.
Proof.
  induction o as [|[k' v'] r IH]; simpl.
  - split; [intros _; apply not_elem_of_nil | reflexivity].
  - destruct (String.eqb_spec k k') as [->|Hne].
    + split; [discriminate|]. intros H. exfalso. apply H. left.
    + rewrite IH. rewrite not_elem_of_cons. tauto.
Qed.

Lemma has_keys k o : Js.has k o = true <-> k ∈ Js.keys o.
Proof.
  unfold Js.has. destruct (Js.get k o) eqn:E.
  - split; [|reflexivity]. intros _.
    destruct (decide (k ∈ Js.keys o)) as [|Hn]; [assumption|].
    apply get_None_keys in Hn. congruence.
  - apply get_None_keys in E. split; [discriminate | tauto].
Qed.

Lemma elem_of_del (e : string * V) k o : e ∈ Js.del k o <-> e.1 <> k /\ e ∈ o.
Proof.
  induction o as [|[k' v'] r IH]; simpl.
  - rewrite elem_of_nil. tauto.
  - destruct (String.eqb_spec k k') as [->|Hne].
    + rewrite IH, elem_of_cons. split; [tauto|].
      intros [Hk [->|H]]; [simpl in Hk; congruence | tauto].
    + rewrite !elem_of_cons, IH. split; [|tauto].
      intros [->|H]; [simpl; split; [congruence | now left] | tauto].
Qed.

Lemma keys_del id k o : id ∈ Js.keys (Js.del k o) <-> id <> k /\ id ∈ Js.keys o.
Proof.
  unfold Js.keys. rewrite !list_elem_of_fmap. split.
  - intros ([k1 v1] & -> & H). apply elem_of_del in H as [H1 H2].
    split; [assumption|]. now exists (k1, v1).
  - intros (Hne & [k1 v1] & -> & H). exists (k1, v1). split; [reflexivity|].
    apply elem_of_del. now split.
Qed.

Lemma elem_of_addIndex (e : string * V) i k v o :
  e ∈ Js.addIndex i k v o <-> e = (k, v) \/ e ∈ o.
Proof.
  induction o as [|[k' v'] r IH]; simpl.
  - rewrite list_elem_of_singleton, elem_of_nil. tauto.
  - destruct (Js.arrayIndex k') as [j|].
    + destruct (j <? i)%N; rewrite !elem_of_cons; [rewrite IH|]; tauto.
    + rewrite !elem_of_cons. tauto.
Qed.

Lemma elem_of_add (e : string * V) k v o : e ∈ Js.add k v o <-> e = (k, v) \/ e ∈ o.
Proof.
  unfold Js.add. destruct (Js.arrayIndex k).
  - apply elem_of_addIndex.
  - rewrite elem_of_app, list_elem_of_singleton. tauto.
Qed.

Lemma keys_replace k v o : Js.keys (Js.replace k v o) = Js.keys o.
Proof.
  induction o as [|[k' v'] r IH]; simpl; [reflexivity|].
  destruct (String.eqb k k'); simpl; [reflexivity | now rewrite IH].
Qed.

Lemma elem_of_replace (e : string * V) k v o :
  e ∈ Js.replace k v o -> e = (k, v) \/ e ∈ o.
Proof.
  induction o as [|[k' v'] r IH]; simpl.
  - now right.
  - destruct (String.eqb_spec k k') as [->|Hne]; rewrite !elem_of_cons.
    + tauto.
    + intros [->|H]; [tauto|]. apply IH in H. tauto.
Qed.

Lemma keys_set id k v o : id ∈ Js.keys (Js.set k v o) <-> id = k \/ id ∈ Js.keys o.
Proof.
  unfold Js.set. destruct (Js.has k o) eqn:E.
  - rewrite keys_replace. apply has_keys in E. split; [tauto|].
    intros [->|H]; assumption.
  - unfold Js.keys. rewrite !list_elem_of_fmap. split.
    + intros ([k1 v1] & -> & H). apply elem_of_add in H as [[= -> ->]|H].
      * now left.
      * right. now exists (k1, v1).
    + intros [->|([k1 v1] & -> & H)].
      * exists (k, v). split; [reflexivity|]. apply elem_of_add. now left.
      * exists (k1, v1). split; [reflexivity|]. apply elem_of_add. now right.
Qed.

Lemma elem_of_set (e : string * V) k v o : e ∈ Js.set k v o -> e = (k, v) \/ e ∈ o.
Proof.
  unfold Js.set. destruct (Js.has k o).
  - apply elem_of_replace.
  - apply elem_of_add.
Qed.

Lemma addIndex_perm i k v o : Js.addIndex i k v o ≡ₚ (k, v) :: o.
Proof.
  induction o as [|[k' v'] r IH]; simpl; [reflexivity|].
  destruct (Js.arrayIndex k') as [j|]; [|reflexivity].
  destruct (j <? i)%N; [|reflexivity].
  rewrite IH. apply Permutation_swap.
Qed.

Lemma add_perm k v o : Js.add k v o ≡ₚ (k, v) :: o.
Proof.
  unfold Js.add. destruct (Js.arrayIndex k).
  - apply addIndex_perm.
  - symmetry. apply Permutation_cons_append.
Qed.

Lemma NoDup_keys_set k v o : NoDup (Js.keys o) -> NoDup (Js.keys (Js.set k v o)).
Proof.
  intros H. unfold Js.set. destruct (Js.has k o) eqn:E.
  - now rewrite keys_replace.
  - unfold Js.keys. rewrite (add_perm k v o). simpl. constructor; [|assumption].
    intros Hk. apply has_keys in Hk. congruence.
Qed.

Lemma fold_set_keys (l : list (string * V)) : forall o id,
  id ∈ Js.keys (fold_left (fun o kv => Js.set kv.1 kv.2 o) l o) <->
  id ∈ Js.keys o \/ id ∈ map fst l.
Proof.
  induction l as [|[k v] l IH]; intros o id; simpl.
  - rewrite elem_of_nil. tauto.
  - rewrite IH, keys_set, elem_of_cons. tauto.
Qed.

Lemma fold_set_NoDup (l : list (string * V)) : forall o,
  NoDup (Js.keys o) -> NoDup (Js.keys (fold_left (fun o kv => Js.set kv.1 kv.2 o) l o)).
Proof.
  induction l as [|[k v] l IH]; intros o H; simpl; [assumption|].
  apply IH. now apply NoDup_keys_set.
Qed.

(** The keys of [Object.fromEntries(l)] are the keys of [l], each once. *)
Lemma keys_fromEntries (l : list (string * V)) id :
  id ∈ Js.keys (Js.fromEntries l) <-> id ∈ map fst l.
Proof.
  unfold Js.fromEntries. rewrite fold_set_keys. simpl. rewrite elem_of_nil. tauto.
Qed.

Lemma NoDup_keys_fromEntries (l : list (string * V)) : NoDup (Js.keys (Js.fromEntries l)).
Proof. apply fold_set_NoDup. constructor. Qed.

(** A new array index that comes after every property goes to the end. *)
Lemma addIndex_last i k v o :
  Js.arrayIndex k = Some i ->
  Forall (fun a => Js.before a (k, v)) o ->
  Js.addIndex i k v o = (o ++ [(k, v)])%list.
Proof.
  intros Hk H. induction o as [|[k' v'] r IH]; simpl; [reflexivity|].
  inversion H as [|? ? [_ Hb] Hr]; subst. simpl in Hb. rewrite Hk in Hb.
  destruct (Js.arrayIndex k') as [j|]; [|contradiction].
  apply N.ltb_lt in Hb. rewrite Hb. f_equal. now apply IH.
Qed.

Lemma set_last k v o :
  Forall (fun a => Js.before a (k, v)) o ->
  Js.set k v o = (o ++ [(k, v)])%list.
Proof.
  intros H. unfold Js.set.
  assert (Hk : Js.has k o = false).
  { destruct (Js.has k o) eqn:E; [|reflexivity].
    apply has_keys in E. unfold Js.keys in E.
    apply list_elem_of_fmap in E as (b & Hb & Hin).
    rewrite Forall_forall in H. apply H in Hin as [Hne _]. simpl in Hne. congruence. }
  rewrite Hk. unfold Js.add. destruct (Js.arrayIndex k) as [i|] eqn:Ek; [|reflexivity].
  now apply addIndex_last.
Qed.

Lemma fold_set_enumerated (l : list (string * V)) : forall o,
  Js.enumerated (o ++ l)%list ->
  fold_left (fun o kv => Js.set kv.1 kv.2 o) l o = (o ++ l)%list.
Proof.
  induction l as [|[k v] l IH]; intros o H; simpl.
  - now rewrite app_nil_r.
  - rewrite set_last.
    + rewrite IH; rewrite <- app_assoc; [reflexivity | exact H].
    + apply Forall_forall. intros a Ha.
      eapply StronglySorted_app_1_elem_of; [exact H | exact Ha | left].
Qed.

(** Rebuilding an object from its entries gives the object back. *)
Lemma fromEntries_enumerated o : Js.enumerated o -> Js.fromEntries o = o.
Proof. intros H. unfold Js.fromEntries. now rewrite fold_set_enumerated. Qed.

(** Distinct keys that are not array indices are in enumeration order as
    they come. *)
Lemma enumerated_plain (l : list (string * V)) :
  NoDup (map fst l) ->
  Forall (fun e => Js.arrayIndex e.1 = None) l ->
  Js.enumerated l.
Proof.
  induction l as [|[k v] r IH]; intros Hnd Hp; [constructor|].
  simpl in Hnd. apply NoDup_cons in Hnd as [Hk Hnd].
  inversion Hp as [|? ? Hk0 Hr]; subst. simpl in Hk0.
  constructor; [now apply IH|].
  apply Forall_forall. intros [k' v'] Hin. split; simpl.
  - intros ->. apply Hk. apply list_elem_of_fmap. now exists (k', v').
  - rewrite Hk0. rewrite Forall_forall in Hr. specialize (Hr _ Hin). simpl in Hr.
    now rewrite Hr.
Qed.

End Objects.

End JsFacts.

(** ** Codec registry *)

Module CodecFacts.

(** When the media type before the first [;] is handled, [for] answers with
    the entry of the whole query. *)
Lemma for_handled (codecs : list Codec.codec) (query : string) :
  Js.has (Js.splitHead ";"%char (Js.toLowerCase query)) (Codec.mediaTypeHandlers codecs) = true ->
  Codec.for_ codecs query = Js.get (Js.toLowerCase query) (Codec.mediaTypeHandlers codecs).
Proof.
  intros H. unfold Codec.for_. now rewrite H.
Qed.

(** C6. [for] finds the codec of a bare media type, but a query that carries
    parameters after the media type gets [undefined]: the handler is looked
    up under the whole query text. *)
Theorem for_with_parameters_is_undefined :
  Codec.for_ [Codec.json; Codec.xml] "application/json" = Some Codec.json /\
  Codec.for_ [Codec.json; Codec.xml] "application/json; charset=utf-8" = None /\
  Codec.for_ [Codec.json; Codec.xml] "application/xml" = Some Codec.xml /\
  Codec.for_ [Codec.json; Codec.xml] "application/xml;charset=utf-8" = None /\
  Codec.for_ [Codec.json; Codec.xml] "text/plain" = None.
Proof.
  repeat split; reflexivity.
Qed.

End CodecFacts.

(** ** Request bodies *)

Module ServerFacts.

(** The error handler answers 400 to a [SyntaxError] that carries no status
    and no [ENOENT] code. *)
Lemma errorStatus_syntax_error (stack message : string) :
  Server.errorStatus (Server.mkError None None "SyntaxError" stack message) = 400.
Proof. reflexivity. Qed.

(** So it does for an error raised inside the CBOR decoder. *)
Lemma errorStatus_borc (name stack message : string) :
  Js.includes stack "/borc/src/decoder.js" = true ->
  Server.errorStatus (Server.mkError None None name stack message) = 400.
Proof.
  intros H. unfold Server.errorStatus; simpl. rewrite H.
  now rewrite orb_true_r.
Qed.

(** C7. A body that fails to decode gets 415 from the try/catch middleware,
    for JSON and for CBOR, whatever the error is; the same [SyntaxError] gets
    400 on the path through the error handler. *)
Theorem decode_failure_status (Raw Body : Type) (raw : Raw) (err : Server.jsError)
    (stack message : string) :
  let syntaxError := Server.mkError None None "SyntaxError" stack message in
  Server.bodyMiddleware Raw Body (fun _ => Js.Throw err) (fun _ => Js.Throw err)
    Server.Json raw
    = Server.Respond 415 ("Problem parsing request body: " ++ Server.message err) /\
  Server.bodyMiddleware Raw Body (fun _ => Js.Throw err) (fun _ => Js.Throw err)
    Server.Cbor raw
    = Server.Respond 415 ("Problem parsing request body: " ++ Server.message err) /\
  Server.decodeMiddleware Raw Body (Some (fun _ => Js.Throw syntaxError)) raw
    = Server.Respond 400 message.
Proof.
  repeat split; reflexivity.
Qed.

End ServerFacts.

(** ** Attachment store *)

Module AttachmentFacts.

Import Attachments.

Lemma includesPath_elem (l : list string) (x : string) :
  includesPath l x = true <-> x ∈ l.
Proof.
  unfold includesPath. rewrite existsb_exists. split.
  - intros (y & Hy & He). apply String.eqb_eq in He. subst.
    now apply list_elem_of_In.
  - intros H. exists x. split; [now apply list_elem_of_In | apply String.eqb_refl].
Qed.

(** The paths [link] finds missing are none exactly when every given path is
    a linker already. *)
Lemma missing_nil (l dataPaths : list string) :
  List.filter (fun x => negb (includesPath l x)) dataPaths = [] <->
  Forall (fun x => x ∈ l) dataPaths.
Proof.
  induction dataPaths as [|p ps IH]; simpl.
  - split; [constructor | reflexivity].
  - destruct (includesPath l p) eqn:E; simpl.
    + rewrite IH. apply includesPath_elem in E. split.
      * intros H. now constructor.
      * intros H. now inversion H.
    + split; [discriminate |].
      intros H. inversion H as [|? ? Hp _]; subst.
      apply includesPath_elem in Hp. congruence.
Qed.

(** C10. For an attachment whose meta exists: when every given path is in
    [linkers] already, [link] leaves the stores as they are, the [updated]
    time included; otherwise the stored meta gets the missing paths appended
    to [linkers] and [updated] set to the current time, and nothing else
    changes. *)
Theorem link_frame (now : Z) (hexHash : string) (dataPaths : list string)
    (st : store) (m : meta) :
  metas st !! hexHash = Some m ->
  (Forall (fun x => x ∈ linkers m) dataPaths ->
     link now hexHash dataPaths st = (Js.Ok tt, st)) /\
  (~ Forall (fun x => x ∈ linkers m) dataPaths ->
     link now hexHash dataPaths st =
       (Js.Ok tt,
        mkStore (blobs st)
          (<[hexHash :=
               mkMeta (created m) now
                 (linkers m ++
                  List.filter (fun x => negb (includesPath (linkers m) x)) dataPaths)%list
                 (other m)]> (metas st))
          (holding st))).
Proof.
  intros Hm. unfold link, metaUpdate. rewrite Hm.
  split; intros H.
  - apply missing_nil in H. now rewrite H.
  - destruct (List.filter _ dataPaths) as [|p ps] eqn:E.
    + exfalso. apply H. now apply missing_nil.
    + reflexivity.
Qed.

(** The held attachment of the scenario: linked again from its one linker,
    then from a second record as well. *)
Lemma link_frame_witness :
  link 99 Scenario.hash1 ["datasets/u/n/k"] Scenario.heldStore
    = (Js.Ok tt, Scenario.heldStore) /\
  metas (link 99 Scenario.hash1 ["datasets/u/n/k"; "datasets/u/n/j"] Scenario.heldStore).2
    !! Scenario.hash1
    = Some (mkMeta 10 99 ["datasets/u/n/k"; "datasets/u/n/j"] []).
Proof.
  assert (Hm : metas Scenario.heldStore !! Scenario.hash1
               = Some (mkMeta 10 20 ["datasets/u/n/k"] [])) by reflexivity.
  split.
  - apply (proj1 (link_frame 99 Scenario.hash1 ["datasets/u/n/k"] _ _ Hm)).
    repeat constructor.
  - rewrite (proj2 (link_frame 99 Scenario.hash1 ["datasets/u/n/k"; "datasets/u/n/j"] _ _ Hm)).
    + simpl. now rewrite lookup_insert_eq.
    + intros H. inversion H as [|? ? _ H2]; subst.
      inversion H2 as [|? ? H3 _]; subst.
      apply includesPath_elem in H3. discriminate H3.
Defined.

Section Validate.
Variable readPathMeta : list string -> list (string * option (list string)).

(** What [validate] returns and leaves behind when the meta exists: it
    returns whether the pruned list is non-empty; with an empty list and no
    entry in [holding] the blob and the meta are deleted, otherwise the blob
    stays and the meta is stored with the pruned list. *)
Lemma validate_existing (hexHash : string) (st : store) (m : meta) :
  metas st !! hexHash = Some m ->
  validate readPathMeta hexHash st =
    if bool_decide (pruned readPathMeta hexHash m = []) && negb (held hexHash st)
    then (false, mkStore (blobs st ∖ {[hexHash]}) (delete hexHash (metas st)) (holding st))
    else (negb (bool_decide (pruned readPathMeta hexHash m = [])),
          mkStore (blobs st)
            (<[hexHash := mkMeta (created m) (updated m) (pruned readPathMeta hexHash m) (other m)]>
               (metas st))
            (holding st)).
Proof.
  intros Hm. unfold validate. rewrite Hm. fold (pruned readPathMeta hexHash m).
  unfold held; simpl.
  destruct (pruned readPathMeta hexHash m) as [|p ps]; simpl.
  - destruct (bool_decide (is_Some (holding st !! hexHash))); simpl; [reflexivity|].
    now rewrite delete_insert_eq.
  - reflexivity.
Qed.

(** Without a meta nothing is retained: [validate] returns false, and deletes
    the blob unless the hash is held. *)
Lemma validate_absent (hexHash : string) (st : store) :
  metas st !! hexHash = None ->
  validate readPathMeta hexHash st =
    if held hexHash st then (false, st)
    else (false, mkStore (blobs st ∖ {[hexHash]}) (delete hexHash (metas st)) (holding st)).
Proof.
  intros Hm. unfold validate. rewrite Hm. simpl.
  now destruct (held hexHash st).
Qed.

End Validate.

(** C3. With an attachment whose linkers are all dead and which is held,
    [validate] deletes nothing, as it should, yet returns false: the
    attachment is still on disk ([has] is true, the blob and the meta with
    its pruned list are there). *)
Theorem validate_held_returns_false :
  let '(kept, st) := validate Scenario.noLinks Scenario.hash1 Scenario.heldStore in
  kept = false /\
  has Scenario.hash1 st = true /\
  blobs st = blobs Scenario.heldStore /\
  metas st !! Scenario.hash1 = Some (mkMeta 10 20 [] []).
Proof.
  rewrite (validate_existing Scenario.noLinks Scenario.hash1 Scenario.heldStore
             (mkMeta 10 20 ["datasets/u/n/k"] [])) by reflexivity.
  repeat split.
Qed.

End AttachmentFacts.

(** ** Base data model *)

Module DatasetFacts.

Import Dataset.

Section Facts.
Context {Data Config : Type}.
Variable objectHash : Data -> buffer.
Variable listHashURLs : Data -> list hashURL.
Variable validateRecord : string -> Data -> option string.
Variable validateConfig : meta Config -> option string.
Variable stringNaturalCompare : string -> string -> Z.

Implicit Types (w : world Data Config) (m : meta Config).

Lemma missingLinks_attachments data w1 w2 :
  attachments w1 = attachments w2 ->
  missingLinks listHashURLs data w1 = missingLinks listHashURLs data w2.
Proof. unfold missingLinks. now intros ->. Qed.

(** The loop of [writeEntries] writes to the object store only, and leaves
    the draft's own fields alone. *)
Lemma writeLoop_frame entries : forall m inc w r w',
  writeLoop objectHash listHashURLs validateRecord entries m inc w = (r, w') ->
  metaFile w' = metaFile w /\ objectHolds w' = objectHolds w /\
  attachments w' = attachments w /\
  match r with
  | Js.Ok (m', _) => version m' = version m
  | Js.Throw _ => True
  end.
Proof.
  induction entries as [|[id [data|]] rest IH]; intros m inc w r w'; simpl.
  - intros [= <- <-]. auto.
  - destruct (0 <? length (missingLinks listHashURLs data w))%nat.
    { intros [= <- <-]. auto. }
    destruct (validateRecord id data).
    { intros [= <- <-]. auto. }
    intros H. apply IH in H. simpl in H. exact H.
  - intros H. apply IH in H. exact H.
Qed.

Lemma checkRecords_keys v rs : forall l rs' l',
  checkRecords v rs l = (Js.Ok rs', l') ->
  rs'.*1 = rs.*1 /\ map hash rs'.*2 = map hash rs.*2 /\ l' = (l ++ map hash rs.*2)%list.
Proof.
  induction rs as [|[id r] rest IH]; intros l rs' l'; simpl.
  - intros [= <- <-]. now rewrite app_nil_r.
  - destruct (negb _); [discriminate|].
    destruct (negb _); [discriminate|].
    destruct (checkRecords v rest (l ++ [hash r])) as [[rest'|e] l1] eqn:E; [|discriminate].
    intros [= <- <-]. apply IH in E as (E1 & E2 & ->).
    repeat split.
    + cbn. f_equal. exact E1.
    + cbn. f_equal. exact E2.
    + cbn. now rewrite <- app_assoc.
Qed.

Lemma checkRecords_retain v rs : forall l r l' h,
  checkRecords v rs l = (r, l') ->
  h ∈ l' -> h ∈ l \/ h ∈ map hash rs.*2.
Proof.
  induction rs as [|[id rm] rest IH]; intros l r l' h; simpl.
  - intros [= <- <-]. auto.
  - destruct (negb _); [intros [= <- <-]; auto|].
    destruct (negb _); [intros [= <- <-]; auto|].
    destruct (checkRecords v rest (l ++ [hash rm])) as [res l1] eqn:E.
    intros [= <- <-] Hh. eapply IH in E; [|exact Hh].
    rewrite elem_of_cons. rewrite elem_of_app, list_elem_of_singleton in E. tauto.
Qed.

Lemma writeBlock_keepsMetaFile entries ow :
  @keepsMetaFile Data Config (writeBlock objectHash listHashURLs validateRecord entries ow).
Proof.
  intros m w. unfold writeBlock.
  destruct (writeLoop _ _ _ entries m [] w) as [[[m' inc]|e] w'] eqn:E;
    apply writeLoop_frame in E; simpl; tauto.
Qed.

Lemma writeBlock_keepsVersion entries ow :
  @keepsVersion Data Config (writeBlock objectHash listHashURLs validateRecord entries ow).
Proof.
  intros m w d r w'. unfold writeBlock.
  destruct (writeLoop _ _ _ entries m [] w) as [[[m' inc]|e] w1] eqn:E; [|discriminate].
  apply writeLoop_frame in E as (_ & _ & _ & Hv).
  intros [= <- <- <-]. now destruct ow.
Qed.

Lemma deleteBlock_keepsMetaFile recordID : keepsMetaFile (@deleteBlock Data Config recordID).
Proof. now intros m w. Qed.

Lemma deleteBlock_keepsVersion recordID : keepsVersion (@deleteBlock Data Config recordID).
Proof. intros m w d r w'. unfold deleteBlock. now intros [= <- <- <-]. Qed.

(** A call of [updateMeta] with a block that keeps the version and the meta
    file makes one version step. *)
Lemma updateMeta_step now (blk : block Data Config) w :
  keepsMetaFile blk -> keepsVersion blk ->
  versionStep w (updateMeta validateConfig stringNaturalCompare now blk w).
Proof.
  intros Hf Hv. unfold versionStep, updateMeta, fileRead.
  destruct (metaFile w) as [stored|] eqn:Em; [|exact Em].
  set (draft := mkMeta _ _ _ _ _).
  specialize (Hf draft w). specialize (Hv draft w).
  destruct (blk draft w) as [[[d r]|e] w1]; simpl in *; [|congruence].
  destruct (checkRecords _ _ _) as [[rs|e] l]; simpl; [|congruence].
  destruct (validateConfig _); simpl; [congruence|].
  exists stored, (setRecords r (sortRecords stringNaturalCompare rs)).
  specialize (Hv d r w1 eq_refl). simpl. rewrite Hv. auto.
Qed.

Lemma writeEntries_step now entries ow w :
  versionStep w
    (writeEntries objectHash listHashURLs validateRecord validateConfig stringNaturalCompare
       now entries ow w).
Proof.
  apply updateMeta_step;
    [apply writeBlock_keepsMetaFile | apply writeBlock_keepsVersion].
Qed.

(** Every mutation makes one version step. *)
Lemma run_step now op w :
  versionStep w
    (run objectHash listHashURLs validateRecord validateConfig stringNaturalCompare now op w).
Proof.
  destruct op as [id [d|]|entries ow|recs|recs|id]; simpl;
    unfold write, merge, overwrite, delete;
    try apply writeEntries_step; try reflexivity.
  destruct (0 <? String.length id)%nat; [|reflexivity].
  apply updateMeta_step; [apply deleteBlock_keepsMetaFile | apply deleteBlock_keepsVersion].
Qed.

(** The versions successive [readMeta] calls report while mutations run:
    each is the one before or one more. *)
Lemma observe_steps ops : forall w m,
  metaFile w = Some m ->
  stepsFrom (version m)
    (observe objectHash listHashURLs validateRecord validateConfig stringNaturalCompare ops w).
Proof.
  induction ops as [|[now op] rest IH]; intros w m Hm; simpl; [exact I|].
  pose proof (run_step now op w) as Hs. unfold versionStep in Hs.
  destruct (run _ _ _ _ _ now op w) as [[v|e] w'] eqn:E; simpl in *.
  - destruct Hs as (m0 & m' & H0 & H1 & H2 & _).
    rewrite Hm in H0. injection H0 as <-.
    exists (version m'). rewrite H1. simpl.
    split; [reflexivity|]. split; [now right|]. now apply IH.
  - exists (version m). rewrite Hs, Hm. simpl.
    split; [reflexivity|]. split; [now left|]. apply IH. now rewrite Hs.
Qed.


Lemma writeLoop_app pre rest : forall m inc w,
  writeLoop objectHash listHashURLs validateRecord (pre ++ rest) m inc w =
  match writeLoop objectHash listHashURLs validateRecord pre m inc w with
  | (Js.Ok (m', inc'), w') => writeLoop objectHash listHashURLs validateRecord rest m' inc' w'
  | (Js.Throw e, w') => (Js.Throw e, w')
  end.
Proof.
  induction pre as [|[id [data|]] pre IH]; intros m inc w; simpl; [reflexivity| |apply IH].
  destruct (0 <? length (missingLinks listHashURLs data w))%nat; [reflexivity|].
  destruct (validateRecord id data); [reflexivity|]. apply IH.
Qed.

(** Entries that pass are all written, and the loop goes on. *)
Lemma writeLoop_passes pre : forall m inc w,
  passes listHashURLs validateRecord w pre ->
  exists m' inc',
    writeLoop objectHash listHashURLs validateRecord pre m inc w =
      (Js.Ok (m', inc'),
       mkWorld (metaFile w) (written objectHash pre (objects w)) (objectHolds w)
         (attachments w)).
Proof.
  unfold passes.
  induction pre as [|[id [data|]] pre IH]; intros m inc w Hp; simpl.
  - exists m, inc. now destruct w.
  - inversion Hp as [|? ? Hhd Hrest]; subst. simpl in Hhd. destruct Hhd as [Hm Hv].
    rewrite Hm, Hv. simpl.
    match goal with |- context [writeLoop _ _ _ pre ?m1 ?i1 ?w1] =>
      destruct (IH m1 i1 w1) as (m' & inc' & E) end.
    { eapply Forall_impl; [exact Hrest|].
      intros [k [d|]]; simpl; [|trivial].
      intros [H1 H2]. split; [|exact H2].
      rewrite <- H1. now apply missingLinks_attachments. }
    exists m', inc'. rewrite E. reflexivity.
  - inversion Hp as [|? ? _ Hrest]; subst.
    destruct (IH (setRecords m (Js.del id (records m))) inc w Hrest) as (m' & inc' & E).
    now exists m', inc'.
Qed.

(** The first entry with a missing link stops the loop; what was written
    before stays written. *)
Lemma writeLoop_missing pre id data post m inc w :
  passes listHashURLs validateRecord w pre ->
  missingLinks listHashURLs data w <> [] ->
  writeLoop objectHash listHashURLs validateRecord (pre ++ (id, Some data) :: post) m inc w =
    (Js.Throw (MissingAttachments (missingLinks listHashURLs data w)),
     mkWorld (metaFile w) (written objectHash pre (objects w)) (objectHolds w)
       (attachments w)).
Proof.
  intros Hp Hm. rewrite writeLoop_app.
  destruct (writeLoop_passes pre m inc w Hp) as (m' & inc' & ->). simpl.
  match goal with |- context [missingLinks listHashURLs data ?w1] =>
    rewrite (missingLinks_attachments data w1 w) by reflexivity end.
  destruct (missingLinks listHashURLs data w); [congruence | reflexivity].
Qed.


Lemma included_elem inc id : included inc id = true <-> id ∈ inc.
Proof.
  unfold included. rewrite existsb_exists. split.
  - intros (y & Hy & He). apply String.eqb_eq in He. subst. now apply list_elem_of_In.
  - intros H. exists id. split; [now apply list_elem_of_In | apply String.eqb_refl].
Qed.

Lemma dropOthers_keys prev inc : forall (rs : Js.jsobj recordMeta) id,
  id ∈ Js.keys (dropOthers prev inc rs) <-> id ∈ Js.keys rs /\ (id ∈ prev -> id ∈ inc).
Proof.
  unfold dropOthers.
  induction prev as [|p prev IH]; intros rs id; simpl.
  - rewrite elem_of_nil. tauto.
  - rewrite IH. destruct (included inc p) eqn:E.
    + apply included_elem in E. rewrite elem_of_cons. split; [|tauto].
      intros [H1 H2]. split; [assumption|]. intros [->|H]; auto.
    + rewrite JsFacts.keys_del, elem_of_cons. split; [tauto|].
      intros [H1 H2]. split; [|tauto]. split; [|assumption].
      intros ->. assert (Hp : p ∈ inc) by auto.
      apply included_elem in Hp. congruence.
Qed.

Lemma dropOthers_entries prev inc : forall (rs : Js.jsobj recordMeta) e,
  e ∈ dropOthers prev inc rs -> e ∈ rs.
Proof.
  unfold dropOthers.
  induction prev as [|p prev IH]; intros rs e; simpl; [trivial|].
  intros H. apply IH in H. destruct (included inc p); [assumption|].
  now apply JsFacts.elem_of_del in H.
Qed.

(** When every entry carries a value, the loop leaves the keys it found
    together with the keys it wrote, and has noted the latter. *)
Lemma writeLoop_keys entries : forall m inc w m' inc' w',
  Forall (fun e => is_Some e.2) entries ->
  writeLoop objectHash listHashURLs validateRecord entries m inc w = (Js.Ok (m', inc'), w') ->
  inc' = (inc ++ map fst entries)%list /\
  forall id, id ∈ Js.keys (records m') <-> id ∈ Js.keys (records m) \/ id ∈ map fst entries.
Proof.
  induction entries as [|[k [data|]] rest IH]; intros m inc w m' inc' w' Hs; simpl.
  - intros [= <- <- <-]. rewrite app_nil_r. split; [reflexivity|].
    intros id. rewrite elem_of_nil. tauto.
  - inversion Hs as [|? ? _ Hrest]; subst.
    destruct (0 <? length (missingLinks listHashURLs data w))%nat; [discriminate|].
    destruct (validateRecord k data); [discriminate|].
    intros H. apply IH in H as [-> Hk]; [|assumption].
    split; [now rewrite <- app_assoc|].
    intros id. rewrite Hk, elem_of_cons. simpl.
    destruct (Js.get k (records m)) as [r|] eqn:Eg.
    + assert (Hin : k ∈ Js.keys (records m)).
      { apply JsFacts.get_Some_entry in Eg.
        apply (list_elem_of_fmap_2 fst) in Eg. exact Eg. }
      destruct (sameHash (hash r) (objectHash data)).
      * split; [tauto|]. intros [H|[->|H]]; tauto.
      * rewrite JsFacts.keys_set. split; [tauto|]. intros [H|[->|H]]; tauto.
    + rewrite JsFacts.keys_set. tauto.
  - inversion Hs as [|? ? Hk _]; subst. simpl in Hk. now destruct Hk.
Qed.

(** A record the loop leaves was there before, or carries the hash of a
    value the loop wrote. *)
Lemma writeLoop_entries entries : forall m inc w m' inc' w' e,
  writeLoop objectHash listHashURLs validateRecord entries m inc w = (Js.Ok (m', inc'), w') ->
  e ∈ records m' ->
  e ∈ records m \/ exists d, d ∈ writes entries /\ hash e.2 = objectHash d.
Proof.
  induction entries as [|[k [data|]] rest IH]; intros m inc w m' inc' w' e; simpl.
  - intros [= <- <- <-]. now left.
  - destruct (0 <? length (missingLinks listHashURLs data w))%nat; [discriminate|].
    destruct (validateRecord k data); [discriminate|].
    intros H He. eapply IH in H; [|exact He]. simpl in H.
    destruct H as [H|(d & Hd & Hh)].
    + assert (Hs : e ∈ records m \/ e = (k, mkRecord (objectHash data)
                                           (map urlText (listHashURLs data)) None)).
      { destruct (Js.get k (records m)) as [r|].
        - destruct (sameHash (hash r) (objectHash data)); [now left|].
          apply JsFacts.elem_of_set in H. tauto.
        - apply JsFacts.elem_of_set in H. tauto. }
      destruct Hs as [Hs| ->]; [now left|].
      right. exists data. split; [left | reflexivity].
    + right. exists d. split; [now right | assumption].
  - intros H He. eapply IH in H; [|exact He]. simpl in H.
    destruct H as [H|H]; [|now right].
    left. now apply JsFacts.elem_of_del in H.
Qed.

Lemma retain_lookup_None (l : list buffer) w h :
  h ∉ l -> h ∉ objectHolds w -> objects (retain l w) !! h = None.
Proof.
  intros Hl Hh. unfold retain; simpl. apply map_lookup_filter_None. right.
  intros x _ [H|H]; simpl in H; tauto.
Qed.

(** Garbage collection through [retain]: an object whose hash the current
    records do not refer to, that is not held and that the call does not write
    again, is gone after any call of [writeEntries], failed or not. *)
Lemma writeEntries_collects now entries ow w m h :
  metaFile w = Some m ->
  h ∉ hashes m -> h ∉ objectHolds w ->
  (forall d, d ∈ writes entries -> objectHash d <> h) ->
  objects (writeEntries objectHash listHashURLs validateRecord validateConfig
             stringNaturalCompare now entries ow w).2 !! h = None.
Proof.
  intros Hm Hh Hheld Hw. unfold writeEntries, updateMeta, fileRead. rewrite Hm.
  set (draft := mkMeta _ _ _ _ _).
  unfold writeBlock.
  destruct (writeLoop _ _ _ entries draft [] w) as [[[m1 inc]|e] w1] eqn:E.
  - pose proof (writeLoop_frame _ _ _ _ _ _ E) as (_ & Hholds & _).
    set (r := if ow then _ else m1).
    assert (Hr : forall e, e ∈ records r -> hash e.2 <> h).
    { intros e He Heq.
      assert (He1 : e ∈ records m1).
      { subst r. destruct ow; [|assumption]. simpl in He.
        now apply dropOthers_entries in He. }
      eapply writeLoop_entries in E as [H|(d & Hd & Hhd)]; [| |exact He1].
      - apply Hh. unfold hashes, Js.values. rewrite <- Heq.
        apply list_elem_of_fmap. exists e.2. split; [reflexivity|].
        apply list_elem_of_fmap. now exists e.
      - apply (Hw d Hd). congruence. }
    destruct (checkRecords _ _ _) as [res l] eqn:Ec.
    assert (Hl : h ∉ l).
    { intros Hin. eapply checkRecords_retain in Ec as [H|H]; [| |exact Hin].
      - exact (Hh H).
      - apply list_elem_of_fmap in H as (rm & -> & H).
        apply list_elem_of_fmap in H as (e & -> & H).
        exact (Hr e H eq_refl). }
    destruct res as [rs|e]; [destruct (validateConfig _)|]; simpl;
      apply retain_lookup_None; congruence.
  - apply writeLoop_frame in E as (_ & Hholds & _). simpl.
    apply retain_lookup_None; [exact Hh | congruence].
Qed.


(** When no key is an array index, the records object keeps the order the
    sort gives: with a total comparator its keys are in the comparator's
    order. *)
Lemma sortRecords_sorted (rs : list (string * recordMeta)) :
  (forall a b, stringNaturalCompare a b <= 0 \/ stringNaturalCompare b a <= 0) ->
  NoDup (map fst rs) ->
  Forall (fun e => Js.arrayIndex e.1 = None) rs ->
  sortRecords stringNaturalCompare rs ≡ₚ rs /\
  Sorted (fun a b => stringNaturalCompare a.1 b.1 <= 0) (sortRecords stringNaturalCompare rs).
Proof.
  intros Htotal Hnd Hplain. unfold sortRecords.
  pose proof (merge_sort_Permutation (keyLe stringNaturalCompare) rs) as Hperm.
  rewrite JsFacts.fromEntries_enumerated.
  - split; [exact Hperm|].
    assert (Ht : Total (keyLe stringNaturalCompare)) by (intros a b; apply Htotal).
    apply (Sorted_merge_sort (keyLe stringNaturalCompare)).
  - apply JsFacts.enumerated_plain.
    + now rewrite Hperm.
    + now rewrite Hperm.
Qed.

(** C1. In a call of [writeEntries] on an existing dataset, let the first
    entry that fails a check be a value with a link the attachment store does
    not have (the entries before it are deletions or values whose links are
    all present and that [validateRecord] accepts, the values under ids that
    are no inherited property names, so that the loop looks up own records
    only).
    Then the call fails with the missing-attachments error carrying the
    missing links of that entry, and the meta file, with its version and
    records, is what it was. The object store is garbage-collected: it keeps,
    of the objects stored before and those written for the earlier entries,
    the ones the records refer to or that are held. *)
Theorem writeEntries_missing_attachments now pre id data post ow w m :
  metaFile w = Some m ->
  Forall (fun e => is_Some e.2 -> Js.ownName e.1) pre ->
  passes listHashURLs validateRecord w pre ->
  missingLinks listHashURLs data w <> [] ->
  writeEntries objectHash listHashURLs validateRecord validateConfig stringNaturalCompare
    now (pre ++ (id, Some data) :: post) ow w =
  (Js.Throw (MissingAttachments (missingLinks listHashURLs data w)),
   mkWorld (Some m)
     (filter (fun kv => kv.1 ∈ hashes m \/ kv.1 ∈ objectHolds w)
        (written objectHash pre (objects w)))
     (objectHolds w) (attachments w)).
Proof.
  intros Hm _ Hp Hmiss. unfold writeEntries, updateMeta, fileRead. rewrite Hm.
  unfold writeBlock. rewrite writeLoop_missing by assumption.
  unfold retain, hashes. simpl. now rewrite Hm.
Qed.

(** C2. A call of [updateMeta] whose block returns a meta with the version of
    the draft it was given, and leaves the meta file alone, stores on success
    a meta whose version is the stored one plus one, and on failure leaves the
    meta file as it was. The blocks of [write], [writeEntries], [merge],
    [overwrite] and the per-record [delete] are such blocks, so the versions
    [readMeta] reports while these mutations run go up by one with each
    success and stay with each failure. *)
Theorem version_steps w :
  (forall now (blk : block Data Config),
     keepsMetaFile blk -> keepsVersion blk ->
     versionStep w (updateMeta validateConfig stringNaturalCompare now blk w)) /\
  (forall now op,
     versionStep w
       (run objectHash listHashURLs validateRecord validateConfig stringNaturalCompare
          now op w)) /\
  (forall ops m,
     metaFile w = Some m ->
     stepsFrom (version m)
       (observe objectHash listHashURLs validateRecord validateConfig stringNaturalCompare
          ops w)).
Proof.
  split; [|split].
  - intros now blk. apply updateMeta_step.
  - intros now op. apply run_step.
  - intros ops m. apply observe_steps.
Qed.

(** C4. After a successful [writeEntries] with [overwrite] whose entries all
    carry a value, the records of the stored meta have exactly the keys
    written in the call, each once. The object of a record that went, when no
    remaining record shares its hash and it is not held, is collected by the
    next call of [writeEntries] that does not write it again. *)
Theorem writeEntries_overwrite now entries w v w' m :
  metaFile w = Some m ->
  Forall (fun e => is_Some e.2) entries ->
  writeEntries objectHash listHashURLs validateRecord validateConfig stringNaturalCompare
    now entries true w = (Js.Ok v, w') ->
  exists m',
    metaFile w' = Some m' /\
    NoDup (Js.keys (records m')) /\
    (forall id, id ∈ Js.keys (records m') <-> id ∈ map fst entries) /\
    (forall id r now' entries' ow',
       (id, r) ∈ records m -> id ∉ map fst entries ->
       hash r ∉ hashes m' -> hash r ∉ objectHolds w ->
       (forall d, d ∈ writes entries' -> objectHash d <> hash r) ->
       objects (writeEntries objectHash listHashURLs validateRecord validateConfig
                  stringNaturalCompare now' entries' ow' w').2 !! hash r = None).
Proof.
  intros Hm Hs. unfold writeEntries at 1. unfold updateMeta, fileRead. rewrite Hm.
  set (draft := mkMeta _ _ _ _ _).
  unfold writeBlock.
  destruct (writeLoop _ _ _ entries draft [] w) as [[[m1 inc]|e] w1] eqn:E; [|discriminate].
  pose proof (writeLoop_frame _ _ _ _ _ _ E) as (_ & Hholds & _).
  destruct (checkRecords _ _ _) as [[rs|e] l] eqn:Ec; [|discriminate].
  destruct (validateConfig _); [discriminate|].
  intros [= <- <-]. eexists. split; [reflexivity|]. simpl.
  apply checkRecords_keys in Ec as (Hk & _ & _).
  apply writeLoop_keys in E as [-> Hkeys]; [|assumption].
  split; [apply JsFacts.NoDup_keys_fromEntries|].
  split.
  - intros id. unfold sortRecords. rewrite JsFacts.keys_fromEntries.
    unfold keyLe. rewrite merge_sort_Permutation.
    change (id ∈ rs.*1 <-> id ∈ map fst entries). rewrite Hk.
    change (id ∈ Js.keys (dropOthers (Js.keys (records draft)) ([] ++ map fst entries)
                            (records m1)) <-> id ∈ map fst entries).
    rewrite dropOthers_keys, Hkeys. simpl. tauto.
  - intros id r now' entries' ow' _ _ Hh Hheld Hw.
    eapply writeEntries_collects; [reflexivity | exact Hh | simpl; congruence | exact Hw].
Qed.

End Facts.

(** A call whose third entry has the missing link: the value written for the
    first entry is collected again. *)
Lemma writeEntries_missing_attachments_witness :
  Scenario.writeEntries 1003
    [("b", Some "B"); ("x", None); ("k", Some Scenario.deadbeef); ("c", Some "C")] false
    Scenario.writtenTwice
  = (Js.Throw (MissingAttachments [Scenario.deadbeef]),
     mkWorld (metaFile Scenario.writtenTwice)
       {[Scenario.objectHash "second" := "second"]} ∅ Scenario.noAttachments).
Proof.
  refine (eq_trans
    (writeEntries_missing_attachments Scenario.objectHash Scenario.listHashURLs
       Scenario.validateRecord Scenario.validateConfig NaturalCompare.naturalCompare
       1003 [("b", Some "B"); ("x", None)] "k" Scenario.deadbeef [("c", Some "C")] false
       Scenario.writtenTwice
       (mkMeta 2 1000 1002 tt [("a", mkRecord (Scenario.objectHash "second") [] (Some 2))])
       _ _ _ _) _).
  - reflexivity.
  - repeat (apply List.Forall_cons;
            [intros _; unfold Js.ownName; apply (bool_decide_unpack _); vm_compute; exact I|]).
    apply List.Forall_nil.
  - repeat constructor.
  - discriminate.
  - vm_compute. reflexivity.
Defined.


(** C1, the stored objects. Record [a] was written twice; the object of its
    first value is still stored. A call of [writeEntries] that fails for a
    missing attachment leaves the meta file alone but deletes that object. *)
Lemma missing_attachments_collects :
  let res := Scenario.writeEntries 1003 [("k", Some Scenario.deadbeef)] false
               Scenario.writtenTwice in
  res.1 = Js.Throw (MissingAttachments [Scenario.deadbeef]) /\
  metaFile res.2 = metaFile Scenario.writtenTwice /\
  objects Scenario.writtenTwice !! Scenario.objectHash "first" = Some "first" /\
  objects res.2 !! Scenario.objectHash "first" = None /\
  objects res.2 <> objects Scenario.writtenTwice.
Proof.
  assert (H : objects (Scenario.writeEntries 1003 [("k", Some Scenario.deadbeef)] false
                         Scenario.writtenTwice).2 !! Scenario.objectHash "first" = None)
    by (vm_compute; reflexivity).
  cbv zeta. repeat split; try (vm_compute; reflexivity).
  intros E. rewrite E in H. vm_compute in H. discriminate H.
Qed.

(** C2, a block that sets the version. The stored version is 2; the call
    succeeds and stores version 0, not 3. *)
Lemma updateMeta_version_regresses :
  let res := Scenario.updateMeta 1003 Scenario.resetVersion Scenario.writtenTwice in
  res.1 = Js.Ok 0 /\
  version <$> metaFile Scenario.writtenTwice = Some 2 /\
  version <$> metaFile res.2 = Some 0 /\
  ~ versionStep Scenario.writtenTwice res.
Proof.
  cbv zeta. repeat split; try (vm_compute; reflexivity).
  unfold versionStep.
  replace ((Scenario.updateMeta 1003 Scenario.resetVersion Scenario.writtenTwice).1)
    with (@Js.Ok error Z 0) by (vm_compute; reflexivity).
  intros (m & m' & H1 & H2 & H3 & _).
  vm_compute in H1. vm_compute in H2.
  injection H1 as <-. injection H2 as <-. simpl in H3. discriminate H3.
Qed.

(** A new dataset: a write, a write that fails for a missing attachment, a
    record deletion. *)
Lemma version_steps_witness :
  versionStep Scenario.created
    (Scenario.run 1001 (Write "a" (Some "first")) Scenario.created) /\
  stepsFrom 0
    (observe Scenario.objectHash Scenario.listHashURLs Scenario.validateRecord
       Scenario.validateConfig NaturalCompare.naturalCompare
       [(1001, Write "a" (Some "first")); (1002, Write "k" (Some Scenario.deadbeef));
        (1003, Delete "a")]
       Scenario.created).
Proof.
  split.
  - apply (proj1 (proj2 (version_steps Scenario.objectHash Scenario.listHashURLs
                           Scenario.validateRecord Scenario.validateConfig
                           NaturalCompare.naturalCompare Scenario.created))).
  - apply (proj2 (proj2 (version_steps Scenario.objectHash Scenario.listHashURLs
                           Scenario.validateRecord Scenario.validateConfig
                           NaturalCompare.naturalCompare Scenario.created))
             _ (mkMeta 0 1000 1000 tt [])).
    reflexivity.
Defined.

(** The dataset with records a, b and c, overwritten with record a alone. *)
Lemma writeEntries_overwrite_witness :
  exists m',
    metaFile (Scenario.writeEntries 1002 [("a", Some "A2")] true Scenario.abc).2 = Some m' /\
    Js.keys (records m') = ["a"].
Proof.
  destruct (writeEntries_overwrite Scenario.objectHash Scenario.listHashURLs
              Scenario.validateRecord Scenario.validateConfig NaturalCompare.naturalCompare
              1002 [("a", Some "A2")] Scenario.abc 2
              (Scenario.writeEntries 1002 [("a", Some "A2")] true Scenario.abc).2
              (mkMeta 1 1000 1001 tt
                 [("a", mkRecord (Scenario.objectHash "A") [] (Some 1));
                  ("b", mkRecord (Scenario.objectHash "B") [] (Some 1));
                  ("c", mkRecord (Scenario.objectHash "C") [] (Some 1))]))
    as (m' & Hm' & _ & _ & _).
  - reflexivity.
  - repeat constructor. now exists "A2".
  - vm_compute. reflexivity.
  - exists m'. split; [exact Hm'|].
    vm_compute in Hm'. injection Hm' as <-. reflexivity.
Defined.

(** C9. Records "1a" and "2" are written to a new dataset. The comparator
    puts "1a" before "2", but [Object.fromEntries] enumerates the array index
    "2" first: the stored records are not in the comparator's order. *)
Theorem records_not_in_natural_order :
  let res := Scenario.writeEntries 1001 [("1a", Some "x"); ("2", Some "y")] false
               Scenario.created in
  res.1 = Js.Ok 1 /\
  (fun m => Js.keys (records m)) <$> metaFile res.2 = Some ["2"; "1a"] /\
  NaturalCompare.naturalCompare "1a" "2" < 0 /\
  0 < NaturalCompare.naturalCompare "2" "1a".
Proof.
  cbv zeta. repeat split; vm_compute; reflexivity.
Qed.

End DatasetFacts.

(** ** XML codec *)

Module XmlFacts.

Import Xml Onml.

(** *** Strings *)

Lemma append_empty (s : string) : s ++ "" = s.
Proof.
  induction s as [|c r IH]; [reflexivity|].
  change (String c r ++ "") with (String c (r ++ "")). now rewrite IH.
Qed.

Lemma append_assoc (a b c : string) : (a ++ b) ++ c = a ++ b ++ c.
Proof.
  induction a as [|x r IH]; [reflexivity|].
  change ((String x r ++ b) ++ c) with (String x ((r ++ b) ++ c)). now rewrite IH.
Qed.

Lemma write_app (a b : string) : forall p,
  write p (a ++ b) = Xml.bind (write p a) (fun p' => write p' b).
Proof.
  induction a as [|c r IH]; intros p; [reflexivity|].
  change (String c r ++ b) with (String c (r ++ b)).
  cbn [write]. destruct (step p c) as [p'|e]; [apply IH | reflexivity].
Qed.

Lemma esc_plain (c : ascii) (r replaceList : string) :
  inString c replaceList = false ->
  esc (String c r) replaceList = String c (esc r replaceList).
Proof. intros H. cbn [esc]. destruct (entity c); [rewrite H|]; reflexivity. Qed.

Lemma inString_two (c x y : ascii) :
  Ascii.eqb c x = false -> Ascii.eqb c y = false -> inString c (String x (String y "")) = false.
Proof. intros Hx Hy. cbn. now rewrite Hx, Hy. Qed.

Lemma inString_three (c x y z : ascii) :
  Ascii.eqb c x = false -> Ascii.eqb c y = false -> Ascii.eqb c z = false ->
  inString c (String x (String y (String z ""))) = false.
Proof. intros Hx Hy Hz. cbn. now rewrite Hx, Hy, Hz. Qed.

(** Character data *)
Lemma write_text (s : string) : forall b ts evs,
  write (mkParser TEXT b ts true false evs) (esc s "&<")
  = Js.Ok (mkParser TEXT (b ++ s) ts true false evs).
Proof.
  induction s as [|c r IH]; intros b ts evs.
  - cbn. now rewrite append_empty.
  - destruct (Ascii.eqb_spec c "&") as [->|Hamp].
    { change (esc (String "&" r) "&<") with ("&amp;" ++ esc r "&<").
      rewrite write_app.
      change (write (mkParser TEXT b ts true false evs) "&amp;")
        with (@Js.Ok error _ (mkParser TEXT (b ++ "&") ts true false evs)).
      cbn [Xml.bind]. rewrite IH. now rewrite append_assoc. }
    destruct (Ascii.eqb_spec c "<") as [->|Hlt].
    { change (esc (String "<" r) "&<") with ("&lt;" ++ esc r "&<").
      rewrite write_app.
      change (write (mkParser TEXT b ts true false evs) "&lt;")
        with (@Js.Ok error _ (mkParser TEXT (b ++ "<") ts true false evs)).
      cbn [Xml.bind]. rewrite IH. now rewrite append_assoc. }
    apply Ascii.eqb_neq in Hamp, Hlt.
    rewrite esc_plain by now apply inString_two.
    cbn [write step pstate sawRoot closedRoot negb orb andb].
    rewrite Hamp, Hlt, andb_false_r. cbn [Xml.bind textNode tags events]. rewrite IH.
    unfold push. now rewrite append_assoc.
Qed.

(** Attribute values *)
Lemma write_value_plain (c q : ascii) T attrs k b tn ts saw closed evs :
  Ascii.eqb c q = false -> Ascii.eqb c "&" = false ->
  step (mkParser (ATTRIB_VALUE_QUOTED T attrs k b q) tn ts saw closed evs) c
  = Js.Ok (mkParser (ATTRIB_VALUE_QUOTED T attrs k (b ++ String c "") q) tn ts saw closed
             evs).
Proof. intros Hq Hamp. cbn [step pstate]. now rewrite Hq, Hamp. Qed.

Lemma write_value_single (t : string) : forall T attrs k b tn ts saw closed evs,
  write (mkParser (ATTRIB_VALUE_QUOTED T attrs k b "'") tn ts saw closed evs)
    (esc t "<&'")
  = Js.Ok (mkParser (ATTRIB_VALUE_QUOTED T attrs k (b ++ t) "'") tn ts saw closed evs).
Proof.
  induction t as [|c r IH]; intros T attrs k b tn ts saw closed evs.
  - cbn. now rewrite append_empty.
  - destruct (Ascii.eqb_spec c "&") as [->|Hamp].
    { change (esc (String "&" r) "<&'") with ("&amp;" ++ esc r "<&'").
      rewrite write_app.
      change (write (mkParser (ATTRIB_VALUE_QUOTED T attrs k b "'") tn ts saw closed evs)
                "&amp;")
        with (@Js.Ok error _
                (mkParser (ATTRIB_VALUE_QUOTED T attrs k (b ++ "&") "'") tn ts saw closed
                   evs)).
      cbn [Xml.bind]. rewrite IH. now rewrite append_assoc. }
    destruct (Ascii.eqb_spec c "<") as [->|Hlt].
    { change (esc (String "<" r) "<&'") with ("&lt;" ++ esc r "<&'").
      rewrite write_app.
      change (write (mkParser (ATTRIB_VALUE_QUOTED T attrs k b "'") tn ts saw closed evs)
                "&lt;")
        with (@Js.Ok error _
                (mkParser (ATTRIB_VALUE_QUOTED T attrs k (b ++ "<") "'") tn ts saw closed
                   evs)).
      cbn [Xml.bind]. rewrite IH. now rewrite append_assoc. }
    destruct (Ascii.eqb_spec c "'") as [->|Hq].
    { change (esc (String "'" r) "<&'") with ("&apos;" ++ esc r "<&'").
      rewrite write_app.
      change (write (mkParser (ATTRIB_VALUE_QUOTED T attrs k b "'") tn ts saw closed evs)
                "&apos;")
        with (@Js.Ok error _
                (mkParser (ATTRIB_VALUE_QUOTED T attrs k (b ++ "'") "'") tn ts saw closed
                   evs)).
      cbn [Xml.bind]. rewrite IH. now rewrite append_assoc. }
    apply Ascii.eqb_neq in Hamp, Hlt, Hq.
    rewrite esc_plain by now apply inString_three.
    cbn [write]. rewrite write_value_plain by assumption.
    cbn [Xml.bind]. rewrite IH. now rewrite append_assoc.
Qed.

Lemma write_value_double (t : string) : forall T attrs k b tn ts saw closed evs,
  write (mkParser (ATTRIB_VALUE_QUOTED T attrs k b doubleQuote) tn ts saw closed evs)
    (esc t ("<&" ++ doubleQuoteText))
  = Js.Ok (mkParser (ATTRIB_VALUE_QUOTED T attrs k (b ++ t) doubleQuote) tn ts saw closed
             evs).
Proof.
  induction t as [|c r IH]; intros T attrs k b tn ts saw closed evs.
  - cbn. now rewrite append_empty.
  - destruct (Ascii.eqb_spec c "&") as [->|Hamp].
    { change (esc (String "&" r) ("<&" ++ doubleQuoteText))
        with ("&amp;" ++ esc r ("<&" ++ doubleQuoteText)).
      rewrite write_app.
      change (write (mkParser (ATTRIB_VALUE_QUOTED T attrs k b doubleQuote) tn ts saw
                       closed evs) "&amp;")
        with (@Js.Ok error _
                (mkParser (ATTRIB_VALUE_QUOTED T attrs k (b ++ "&") doubleQuote) tn ts saw
                   closed evs)).
      cbn [Xml.bind]. rewrite IH. now rewrite append_assoc. }
    destruct (Ascii.eqb_spec c "<") as [->|Hlt].
    { change (esc (String "<" r) ("<&" ++ doubleQuoteText))
        with ("&lt;" ++ esc r ("<&" ++ doubleQuoteText)).
      rewrite write_app.
      change (write (mkParser (ATTRIB_VALUE_QUOTED T attrs k b doubleQuote) tn ts saw
                       closed evs) "&lt;")
        with (@Js.Ok error _
                (mkParser (ATTRIB_VALUE_QUOTED T attrs k (b ++ "<") doubleQuote) tn ts saw
                   closed evs)).
      cbn [Xml.bind]. rewrite IH. now rewrite append_assoc. }
    destruct (Ascii.eqb_spec c doubleQuote) as [->|Hq].
    { change (esc (String doubleQuote r) ("<&" ++ doubleQuoteText))
        with ("&quot;" ++ esc r ("<&" ++ doubleQuoteText)).
      rewrite write_app.
      change (write (mkParser (ATTRIB_VALUE_QUOTED T attrs k b doubleQuote) tn ts saw
                       closed evs) "&quot;")
        with (@Js.Ok error _
                (mkParser (ATTRIB_VALUE_QUOTED T attrs k (b ++ doubleQuoteText) doubleQuote)
                   tn ts saw closed evs)).
      cbn [Xml.bind]. rewrite IH. now rewrite append_assoc. }
    apply Ascii.eqb_neq in Hamp, Hlt, Hq.
    change ("<&" ++ doubleQuoteText) with (String "<" (String "&" (String doubleQuote ""))).
    rewrite esc_plain by now apply inString_three.
    cbn [write]. rewrite write_value_plain by assumption.
    cbn [Xml.bind]. rewrite IH. now rewrite append_assoc.
Qed.

(** *** The tokenizer on the markup of the codec *)

Lemma write_open (T : string) (st : state) ts saw closed evs :
  In T tagNames -> st = BEGIN \/ st = TEXT ->
  write (mkParser st "" ts saw closed evs) ("<" ++ T)
  = Js.Ok (mkParser (OPEN_TAG T) "" ts saw closed evs).
Proof.
  intros HT Hst. unfold tagNames in HT.
  repeat (destruct HT as [<-|HT]; [destruct Hst as [-> | ->]; reflexivity|]).
  destruct HT.
Qed.

Lemma write_space T attrs s tn ts saw closed evs :
  inTag T attrs s ->
  write (mkParser s tn ts saw closed evs) " "
  = Js.Ok (mkParser (ATTRIB T attrs) tn ts saw closed evs).
Proof. intros [[-> ->] | ->]; reflexivity. Qed.

Lemma write_name T attrs k tn ts saw closed evs :
  In k attributeNames ->
  write (mkParser (ATTRIB T attrs) tn ts saw closed evs) k
  = Js.Ok (mkParser (ATTRIB_NAME T attrs k) tn ts saw closed evs).
Proof.
  intros Hk. unfold attributeNames in Hk.
  repeat (destruct Hk as [<-|Hk]; [reflexivity|]). destruct Hk.
Qed.

Lemma write_attribute T attrs s k t tn ts saw closed evs :
  inTag T attrs s -> In k attributeNames ->
  write (mkParser s tn ts saw closed evs) (attributeText (k, t))
  = Js.Ok (mkParser (ATTRIB_VALUE_CLOSED T (attrib attrs k t)) tn ts saw closed evs).
Proof.
  intros Hs Hk. unfold attributeText. cbn [fst snd].
  destruct (_ <? _)%nat.
  - rewrite write_app, (write_space T attrs) by exact Hs. cbn [Xml.bind].
    rewrite write_app, write_name by exact Hk. cbn [Xml.bind].
    rewrite write_app.
    change (write (mkParser (ATTRIB_NAME T attrs k) tn ts saw closed evs) "='")
      with (@Js.Ok error _
              (mkParser (ATTRIB_VALUE_QUOTED T attrs k "" "'") tn ts saw closed evs)).
    cbn [Xml.bind]. rewrite write_app, write_value_single. cbn [Xml.bind].
    reflexivity.
  - rewrite write_app, (write_space T attrs) by exact Hs. cbn [Xml.bind].
    rewrite write_app, write_name by exact Hk. cbn [Xml.bind].
    rewrite write_app.
    change (write (mkParser (ATTRIB_NAME T attrs k) tn ts saw closed evs) "=")
      with (@Js.Ok error _ (mkParser (ATTRIB_VALUE T attrs k) tn ts saw closed evs)).
    cbn [Xml.bind]. rewrite write_app.
    change (write (mkParser (ATTRIB_VALUE T attrs k) tn ts saw closed evs) doubleQuoteText)
      with (@Js.Ok error _
              (mkParser (ATTRIB_VALUE_QUOTED T attrs k "" doubleQuote) tn ts saw closed evs)).
    cbn [Xml.bind]. rewrite write_app, write_value_double. cbn [Xml.bind].
    reflexivity.
Qed.

Lemma write_gt T attrs s ts saw closed evs :
  inTag T attrs s ->
  write (mkParser s "" ts saw closed evs) ">"
  = Js.Ok (mkParser TEXT "" (T :: ts) true closed (evs ++ [OpenTag T attrs])%list).
Proof. intros [[-> ->] | ->]; reflexivity. Qed.

Lemma write_selfclose T attrs s ts saw closed evs :
  In T tagNames -> inTag T attrs s ->
  write (mkParser s "" ts saw closed evs) "/>"
  = Js.Ok (mkParser TEXT "" ts true (match ts with [] => true | _ :: _ => closed end)
             ((evs ++ [OpenTag T attrs]) ++ [CloseTag])%list).
Proof.
  intros HT Hs. unfold tagNames in HT.
  repeat (destruct HT as [<-|HT]; [destruct Hs as [[-> ->] | ->]; reflexivity|]).
  destruct HT.
Qed.

Lemma write_close T b ts closed evs :
  In T tagNames ->
  write (mkParser TEXT b (T :: ts) true closed evs) ("</" ++ T ++ ">")
  = Js.Ok (mkParser TEXT "" ts true (match ts with [] => true | _ :: _ => closed end)
             ((if String.eqb b "" then evs else evs ++ [Text b]) ++ [CloseTag])%list).
Proof.
  intros HT. unfold tagNames in HT.
  repeat (destruct HT as [<-|HT]; [reflexivity|]). destruct HT.
Qed.

(** An element: its tag, the text of its attributes, its content. *)
Lemma write_markup (T attributes : string) (attrs : Js.jsobj string)
    (children : option string) (b : string) (inner : list event) st ts saw evs :
  In T tagNames -> st = BEGIN \/ st = TEXT ->
  (forall ts saw evs, exists s,
     write (mkParser (OPEN_TAG T) "" ts saw false evs) attributes
     = Js.Ok (mkParser s "" ts saw false evs) /\ inTag T attrs s) ->
  (forall c, children = Some c -> forall ts evs,
     write (mkParser TEXT "" (T :: ts) true false evs) c
     = Js.Ok (mkParser TEXT b (T :: ts) true false (evs ++ inner)%list)) ->
  write (mkParser st "" ts saw false evs) (markup T attributes children)
  = Js.Ok (mkParser TEXT "" ts true (match ts with [] => true | _ :: _ => false end)
             (evs ++ OpenTag T attrs
                :: match children with
                   | Some _ => inner ++ (if String.eqb b "" then [] else [Text b])
                   | None => []
                   end ++ [CloseTag])%list).
Proof.
  intros HT Hst Hattrs Hinner. unfold markup.
  destruct children as [c|].
  - rewrite <- append_assoc, write_app, write_open by assumption. cbn [Xml.bind].
    rewrite write_app. destruct (Hattrs ts saw evs) as (s & -> & Hs). cbn [Xml.bind].
    rewrite write_app, (write_gt T attrs) by exact Hs. cbn [Xml.bind].
    rewrite write_app, (Hinner c eq_refl). cbn [Xml.bind].
    rewrite write_close by exact HT. f_equal. f_equal.
    destruct (String.eqb b ""); rewrite <- ?app_assoc; reflexivity.
  - rewrite <- append_assoc, write_app, write_open by assumption. cbn [Xml.bind].
    rewrite write_app. destruct (Hattrs ts saw evs) as (s & -> & Hs). cbn [Xml.bind].
    rewrite (write_selfclose T attrs) by assumption. f_equal. f_equal.
    rewrite <- ?app_assoc; reflexivity.
Qed.

(** The children of an element, one after the other. *)
Lemma write_children {A : Type} (f : A -> string) (g : A -> list event) (T : string)
    (l : list A) :
  Forall (fun x => forall ts evs,
            write (mkParser TEXT "" (T :: ts) true false evs) (f x)
            = Js.Ok (mkParser TEXT "" (T :: ts) true false (evs ++ g x)%list)) l ->
  forall ts evs,
  write (mkParser TEXT "" (T :: ts) true false evs) (joined (map f l))
  = Js.Ok (mkParser TEXT "" (T :: ts) true false (evs ++ flat_map g l)%list).
Proof.
  induction 1 as [|x r Hx _ IH]; intros ts evs.
  - cbn. now rewrite app_nil_r.
  - cbn [map joined fold_right flat_map].
    rewrite write_app, Hx. cbn [Xml.bind].
    change (fold_right String.append "" (map f r)) with (joined (map f r)).
    rewrite IH. now rewrite <- app_assoc.
Qed.

Section Facts.
Context {number date : Type}.
Variable numberToString : number -> string.
Variable parseFloat : string -> number.
Variable numberFalsy : number -> bool.
Variable toISOString : date -> string.
Variable newDate : string -> date.
Variable toBase64 : list Byte.byte -> string.
Variable bufferFrom : string -> value number date -> result (list Byte.byte).
Variable toText : value number date -> string.

Local Abbreviation val := (value number date).
Local Abbreviation toJsonML := (arbitraryObjectToJsonML numberToString toISOString toBase64).
Local Abbreviation closedForm := (jsonML numberToString toISOString toBase64).
Local Abbreviation fromParsed :=
  (jsonMLToArbitraryObject parseFloat numberFalsy newDate bufferFrom toText).
Local Abbreviation build := (buildXML numberFalsy toText).
Local Abbreviation xmlOf' := (xmlOf numberToString toISOString toBase64).
Local Abbreviation eventsOf' := (eventsOf numberToString toISOString toBase64).
Local Abbreviation parsedOf' := (parsedOf numberToString toISOString toBase64).
Local Abbreviation textOf' := (textOf numberToString toISOString toBase64).
Local Abbreviation recovers' :=
  (recovers numberToString parseFloat toISOString newDate toBase64 bufferFrom).

(** Induction on values, through the items of arrays and the properties of
    objects. *)
Lemma value_induction (P : val -> Prop) :
  P VNull -> P VUndefined -> (forall b, P (VBool b)) -> (forall n, P (VNumber n)) ->
  (forall s, P (VString s)) -> (forall d, P (VDate d)) -> (forall b, P (VBuffer b)) ->
  (forall items, Forall P items -> P (VArray items)) ->
  (forall props, Forall (fun kv => P kv.2) props -> P (VObject props)) ->
  forall v, P v.
Proof.
  intros Hnull Hundef Hbool Hnum Hstr Hdate Hbuf Harr Hobj.
  fix IH 1. intros [| |b|n|s|d|b|items|props].
  - exact Hnull.
  - exact Hundef.
  - apply Hbool.
  - apply Hnum.
  - apply Hstr.
  - apply Hdate.
  - apply Hbuf.
  - apply Harr. induction items as [|x r IHr]; constructor; [apply IH | exact IHr].
  - apply Hobj. induction props as [|[k x] r IHr]; constructor; [apply IH | exact IHr].
Qed.

Lemma mapM_ok {A B : Type} (f : A -> result B) (g : A -> B) (l : list A) :
  Forall (fun x => f x = Js.Ok (g x)) l -> mapM f l = Js.Ok (map g l).
Proof.
  induction 1 as [|x r Hx _ IH]; simpl; [reflexivity|].
  now rewrite Hx, IH.
Qed.

(** What [expandElement] followed by an assignment to an attribute makes of
    the closed form without attributes. *)
Lemma expand_closedForm (name text : string) (v : val) :
  bind (expandElement (closedForm None v)) (setAttribute name text)
  = Js.Ok (closedForm (Some (name, text)) v).
Proof.
  destruct v as [| |b|n|s|d|b|items|props]; try reflexivity.
  - simpl. destruct items as [|x r]; [reflexivity|].
    simpl. destruct x; reflexivity.
  - simpl. destruct props as [|[k x] r]; [reflexivity|].
    simpl. destruct x; reflexivity.
Qed.

(** [arbitraryObjectToJsonML] never throws on these values and returns the
    closed form. *)
Lemma toJsonML_closedForm (v : val) : toJsonML v = Js.Ok (closedForm None v).
Proof.
  induction v as [| |b|n|s|d|b|items IH|props IH] using value_induction; try reflexivity.
  - simpl. now rewrite (mapM_ok _ (closedForm None) items IH).
  - simpl.
    match goal with |- bind (?each props) _ = _ =>
      assert (E : each props
                  = Js.Ok (map (fun kv => match kv with
                                          | (prop, x) => closedForm (Some ("name", prop)) x
                                          end) props)) end.
    { induction IH as [|[k x] r Hx _ IHr]; [reflexivity|].
      simpl in Hx. rewrite Hx. simpl.
      pose proof (expand_closedForm "name" k x) as He. unfold bind in He at 1.
      destruct (expandElement (closedForm None x)) as [enc|e]; [|discriminate].
      simpl. rewrite He. simpl. now rewrite IHr. }
    now rewrite E.
Qed.

Lemma document_closedForm (v : val) :
  document numberToString toISOString toBase64 v
  = Js.Ok (closedForm (Some ("xmlns", arbitraryNS)) v).
Proof.
  unfold document. rewrite toJsonML_closedForm. simpl.
  apply (expand_closedForm "xmlns" arbitraryNS v).
Qed.

Lemma wellFormed_array (items : list val) :
  wellFormed (VArray items) -> Forall wellFormed items.
Proof.
  induction items as [|x r IH]; simpl; [constructor|].
  intros [Hx Hr]. constructor; [exact Hx | now apply IH].
Qed.

Lemma wellFormed_object (props : list (string * val)) :
  wellFormed (VObject props) ->
  Js.enumerated props /\ Forall (fun kv => wellFormed kv.2) props.
Proof.
  intros [He H]. split; [exact He|]. clear He.
  induction props as [|[k x] r IH]; [constructor|].
  destruct H as [Hx Hr]. constructor; [exact Hx | now apply IH].
Qed.

(** *** From the value to what the parser returns *)

Lemma tagOf_listed (v : val) : In (tagOf v) tagNames.
Proof. destruct v as [| |[|]| | | | | |]; cbn; tauto. Qed.

Lemma write_attributesFor (extra : option (string * string)) (v : val) T ts saw evs :
  ownAttribute extra ->
  exists s,
    write (mkParser (OPEN_TAG T) "" ts saw false evs)
      (joined (map attributeText (attributesFor extra v)))
    = Js.Ok (mkParser s "" ts saw false evs) /\ inTag T (attributesFor extra v) s.
Proof.
  intros Hn.
  assert (Hstart : inTag T [] (OPEN_TAG T)) by (left; split; reflexivity).
  assert (Hbase : forall k, In k attributeNames ->
            match v with VBuffer _ => k <> "encoding" | _ => True end ->
            forall t, exists s,
            write (mkParser (OPEN_TAG T) "" ts saw false evs)
              (joined (map attributeText
                         (match v with VBuffer _ => [("encoding", "base64")] | _ => [] end
                          ++ [(k, t)])%list))
            = Js.Ok (mkParser s "" ts saw false evs)
            /\ inTag T (match v with VBuffer _ => [("encoding", "base64")] | _ => [] end
                        ++ [(k, t)])%list s).
  { intros k Hk Hne t. pose proof Hk as Hk'. unfold attributeNames in Hk.
    destruct Hk as [<-|[<-|[<-|[]]]];
      (destruct v; cbn [joined map fold_right app];
       [rewrite write_app, (write_attribute T []) by assumption; cbn [Xml.bind write];
        eexists; split; [reflexivity | right; reflexivity] ..
       |idtac
       |rewrite write_app, (write_attribute T []) by assumption; cbn [Xml.bind write];
        eexists; split; [reflexivity | right; reflexivity]
       |rewrite write_app, (write_attribute T []) by assumption; cbn [Xml.bind write];
        eexists; split; [reflexivity | right; reflexivity]]);
      try (now contradiction Hne);
      (rewrite write_app, (write_attribute T []) by (try assumption; cbn; tauto);
       cbn [Xml.bind];
       rewrite write_app, (write_attribute T (attrib [] "encoding" "base64"))
         by (try assumption; right; reflexivity);
       cbn [Xml.bind write]; eexists; split; [reflexivity | right; reflexivity]). }
  destruct extra as [[k t]|]; cbn [ownAttribute] in Hn.
  - unfold attributesFor. apply Hbase.
    + destruct Hn as [-> | ->]; cbn; tauto.
    + destruct v; try exact I; destruct Hn as [-> | ->]; discriminate.
  - unfold attributesFor. rewrite app_nil_r.
    destruct v; cbn [joined map fold_right];
      try (eexists; split; [reflexivity | exact Hstart]).
    rewrite write_app, (write_attribute T []) by (try assumption; cbn; tauto).
    cbn [Xml.bind write]. eexists; split; [reflexivity | right; reflexivity].
Qed.

(** The tokenizer on the text of a value. *)
Lemma write_xmlOf (v : val) : forall extra st ts saw evs,
  ownAttribute extra -> st = BEGIN \/ st = TEXT ->
  write (mkParser st "" ts saw false evs) (xmlOf' extra v)
  = Js.Ok (mkParser TEXT "" ts true (match ts with [] => true | _ :: _ => false end)
             (evs ++ eventsOf' extra v)%list).
Proof.
  induction v as [| |b|n|s|d|b|items IH|props IH] using value_induction;
    intros extra st ts saw evs Hn Hst.
  1-3: cbn [xmlOf eventsOf textOf option_map];
       apply (write_markup _ _ _ None "" []); try assumption;
       [apply tagOf_listed | intros; now apply write_attributesFor | discriminate].
  1-4: cbn [xmlOf eventsOf textOf option_map];
       match goal with |- context [esc ?text "&<"] =>
         apply (write_markup _ _ _ (Some (esc text "&<")) text []); try assumption;
         [apply (tagOf_listed (VNull)) || (cbn; tauto)
         | intros; now apply write_attributesFor
         | intros c [= <-] ts' evs'; rewrite write_text, app_nil_r; reflexivity]
       end.
  - destruct items as [|x r].
    { cbn [xmlOf eventsOf textOf option_map flat_map];
        apply (write_markup _ _ _ None "" []); try assumption;
        [cbn; tauto | intros; now apply write_attributesFor | discriminate]. }
    cbn [xmlOf eventsOf tagOf].
    rewrite (write_markup "array" _ (attributesFor extra (VArray (x :: r)))
               (Some (joined (map (xmlOf' None) (x :: r)))) ""
               (flat_map (eventsOf' None) (x :: r))); try assumption.
    + cbn [String.eqb]. now rewrite app_nil_r.
    + cbn; tauto.
    + intros; now apply write_attributesFor.
    + intros c [= <-]. apply (write_children (xmlOf' None) (eventsOf' None) "array" (x :: r)).
      eapply Forall_impl; [exact IH|]. intros y Hy ts' evs'.
      apply (Hy None TEXT (("array" : string) :: ts') true evs'); [exact I | now right].
  - destruct props as [|kx r].
    { cbn [xmlOf eventsOf textOf option_map flat_map];
        apply (write_markup _ _ _ None "" []); try assumption;
        [cbn; tauto | intros; now apply write_attributesFor | discriminate]. }
    cbn [xmlOf eventsOf tagOf].
    rewrite (write_markup "object" _ (attributesFor extra (VObject (kx :: r)))
               (Some (joined (map (fun kv => match kv with
                                             | (prop, x) => xmlOf' (Some ("name", prop)) x
                                             end) (kx :: r)))) ""
               (flat_map (fun kv => match kv with
                                    | (prop, x) => eventsOf' (Some ("name", prop)) x
                                    end) (kx :: r))); try assumption.
    + cbn [String.eqb]. now rewrite app_nil_r.
    + cbn; tauto.
    + intros; now apply write_attributesFor.
    + intros c [= <-].
      apply (write_children
               (fun kv => match kv with (prop, x) => xmlOf' (Some ("name", prop)) x end)
               (fun kv => match kv with (prop, x) => eventsOf' (Some ("name", prop)) x end)
               "object" (kx :: r)).
      eapply Forall_impl; [exact IH|]. intros [k y] Hy ts' evs'.
      apply (Hy (Some ("name", k)) TEXT (("object" : string) :: ts') true evs');
        [now left | now right].
Qed.

(** The handlers on the events of a value. *)
Lemma handle_children {A : Type} (ev : A -> list event) (pf : A -> val) (l : list A) :
  Forall (fun x => forall rest stack res,
            handle (ev x ++ rest) stack res
            = let '(stack', res') := pushChild (pf x) stack res in handle rest stack' res') l ->
  forall rest T attrs children stack res,
  handle (flat_map ev l ++ rest) ((T, attrs, children) :: stack) res
  = handle rest ((T, attrs, (children ++ map pf l)%list) :: stack) res.
Proof.
  induction 1 as [|x r Hx _ IH]; intros rest T attrs children stack res.
  - cbn. now rewrite app_nil_r.
  - cbn [flat_map map]. rewrite <- app_assoc, Hx. cbn [pushChild].
    rewrite IH. now rewrite <- app_assoc.
Qed.

Lemma handle_eventsOf (v : val) : forall extra rest stack res,
  handle (eventsOf' extra v ++ rest) stack res
  = let '(stack', res') := pushChild (parsedOf' extra v) stack res in handle rest stack' res'.
Proof.
  induction v as [| |b|n|s|d|b|items IH|props IH] using value_induction;
    intros extra rest stack res.
  1-3: reflexivity.
  1-4: cbn [eventsOf parsedOf textOf];
       match goal with |- context [String.eqb ?text ""] =>
         destruct (String.eqb_spec text "") as [E|E]; [rewrite E; reflexivity|];
         cbn [app handle]; destruct (String.eqb (trim text) ""); reflexivity
       end.
  - cbn [eventsOf parsedOf tagOf app handle]. rewrite <- app_assoc.
    rewrite (handle_children (eventsOf' None) (parsedOf' None))
      by (eapply Forall_impl; [exact IH|]; intros y Hy; apply Hy).
    reflexivity.
  - cbn [eventsOf parsedOf tagOf app handle]. rewrite <- app_assoc.
    rewrite (handle_children
               (fun kv => match kv with (prop, x) => eventsOf' (Some ("name", prop)) x end)
               (fun kv => match kv with (prop, x) => parsedOf' (Some ("name", prop)) x end)).
    + reflexivity.
    + eapply Forall_impl; [exact IH|]. intros [k y] Hy. apply Hy.
Qed.

(** [onml.parse] on the text of a value. *)
Lemma parse_xmlOf (v : val) (extra : option (string * string)) :
  ownAttribute extra ->
  Onml.parse (xmlOf' extra v) = Js.Ok (parsedOf' extra v).
Proof.
  intros Hn. unfold Onml.parse, start.
  rewrite write_xmlOf by (try assumption; now left). cbn [Xml.bind].
  unfold close, closeText. cbn [textNode events String.eqb app].
  rewrite <- (app_nil_r (eventsOf' extra v)), handle_eventsOf. reflexivity.
Qed.

(** *** The text [encode] writes, and the way back *)

Lemma concatM_joined {A : Type} (f : A -> val) (g : A -> string) (l : list A) :
  Forall (fun x => build (f x) = Js.Ok (g x)) l ->
  concatM build (map f l) = Js.Ok (joined (map g l)).
Proof.
  induction 1 as [|x r Hx _ IH]; [reflexivity|].
  cbn [map concatM]. fold (concatM build). rewrite Hx, IH. reflexivity.
Qed.

Lemma isAttributes_string (s : string) : isAttributes numberFalsy (@VString number date s) = false.
Proof. unfold isAttributes. cbn. now destruct (negb _). Qed.

Lemma isAttributes_closedForm extra (x : val) :
  isAttributes numberFalsy (closedForm extra x) = false.
Proof. destruct x; reflexivity. Qed.

(** [buildXML] on an array or object element with children. *)
Lemma build_with_attribute (T k text : string) (more : list val) (c : string) :
  T = "array" \/ T = "object" -> k = "name" \/ k = "xmlns" -> more <> [] ->
  concatM build more = Js.Ok c ->
  build (VArray (VString T :: VObject [(k, VString text)] :: more))
  = Js.Ok (markup T (joined [attributeText (k, text)]) (Some c)).
Proof.
  intros HT Hk Hmore Hc. destruct more as [|y m]; [contradiction|].
  cbn [buildXML]. fold (concatM build). rewrite Hc.
  destruct HT as [-> | ->]; destruct Hk as [-> | ->];
    cbv - [String.append esc countChars Nat.ltb]; destruct (_ <? _)%nat; reflexivity.
Qed.

Lemma build_without_attribute (T : string) (y : val) (m : list val) (c : string) :
  T = "array" \/ T = "object" -> isAttributes numberFalsy y = false ->
  concatM build (y :: m) = Js.Ok c ->
  build (VArray (VString T :: y :: m)) = Js.Ok (markup T "" (Some c)).
Proof.
  intros HT Hy Hc.
  cbn [buildXML]. fold (concatM build). rewrite Hy, Hc.
  destruct HT as [-> | ->]; reflexivity.
Qed.

(** [buildXML] writes [xmlOf] for the closed form. *)
Lemma build_xmlOf (v : val) : forall extra,
  ownAttribute extra -> build (closedForm extra v) = Js.Ok (xmlOf' extra v).
Proof.
  induction v as [| |b|n|s|d|b|items IH|props IH] using value_induction;
    intros [[name text]|] Hn; cbn [ownAttribute] in Hn;
    try (destruct Hn as [-> | ->]).
  1-9: try destruct b.
  1-24: cbn [jsonML attributesOf app buildXML]; rewrite ?isAttributes_string;
        cbv - [String.append esc countChars Nat.ltb]; rewrite ?append_empty; reflexivity.
  all: match goal with
       | IH : Forall _ ?l |- context [VArray ?l] =>
           assert (Hc : concatM build (map (closedForm None) l)
                        = Js.Ok (joined (map (xmlOf' None) l)))
             by (apply concatM_joined; eapply Forall_impl; [exact IH|];
                 intros y Hy; now apply Hy);
           destruct l as [|x r];
           [cbv - [String.append esc countChars Nat.ltb]; rewrite ?append_empty; reflexivity|]
       | IH : Forall _ ?l |- context [VObject ?l] =>
           assert (Hc : concatM build
                          (map (fun kv => match kv with
                                          | (prop, x) => closedForm (Some ("name", prop)) x
                                          end) l)
                        = Js.Ok (joined (map (fun kv => match kv with
                                                        | (prop, x) =>
                                                            xmlOf' (Some ("name", prop)) x
                                                        end) l)))
             by (apply concatM_joined; eapply Forall_impl; [exact IH|];
                 intros [k y] Hy; apply Hy; now left);
           destruct l as [|[k0 x] r];
           [cbv - [String.append esc countChars Nat.ltb]; rewrite ?append_empty; reflexivity|]
       end.
  - apply (build_with_attribute "array" "name" text (map (closedForm None) (x :: r)));
      [now left | now left | discriminate | exact Hc].
  - apply (build_with_attribute "array" "xmlns" text (map (closedForm None) (x :: r)));
      [now left | now right | discriminate | exact Hc].
  - apply (build_without_attribute "array" (closedForm None x) (map (closedForm None) r));
      [now left | apply isAttributes_closedForm | exact Hc].
  - apply (build_with_attribute "object" "name" text
             (map (fun kv => match kv with
                             | (prop, x) => closedForm (Some ("name", prop)) x
                             end) ((k0, x) :: r)));
      [now right | now left | discriminate | exact Hc].
  - apply (build_with_attribute "object" "xmlns" text
             (map (fun kv => match kv with
                             | (prop, x) => closedForm (Some ("name", prop)) x
                             end) ((k0, x) :: r)));
      [now right | now right | discriminate | exact Hc].
  - apply (build_without_attribute "object" (closedForm (Some ("name", k0)) x)
             (map (fun kv => match kv with
                             | (prop, x) => closedForm (Some ("name", prop)) x
                             end) r));
      [now right | apply isAttributes_closedForm | exact Hc].
Qed.

Lemma recovers_array (items : list val) :
  recovers' (VArray items) -> Forall recovers' items.
Proof.
  induction items as [|x r IH]; cbn; [constructor|].
  intros [Hx Hr]. constructor; [exact Hx | now apply IH].
Qed.

Lemma recovers_object (props : list (string * val)) :
  recovers' (VObject props) -> Forall (fun kv => recovers' kv.2) props.
Proof.
  induction props as [|[k x] r IH]; cbn; [constructor|].
  intros [Hx Hr]. constructor; [exact Hx | now apply IH].
Qed.

(** The text of an element that holds one text, joined again. *)
Lemma joinValues_text (text : string) :
  joinValues toText
    (if String.eqb (trim text) "" then [] else [@VString number date (trim text)])
  = trim text.
Proof. destruct (String.eqb_spec (trim text) "") as [E|E]; [rewrite E|]; reflexivity. Qed.

Lemma childName_parsedOf (k : string) (x : val) :
  childName toText (parsedOf' (Some ("name", k)) x) = Js.Ok k.
Proof. destruct x; reflexivity. Qed.

Lemma mapM_recovered {A B : Type} (f : B -> result A) (g : A -> B) (l : list A) :
  Forall (fun x => f (g x) = Js.Ok x) l -> mapM f (map g l) = Js.Ok l.
Proof.
  induction 1 as [|x r Hx _ IH]; cbn [map mapM]; [reflexivity|].
  fold (mapM f). now rewrite Hx, IH.
Qed.

(** [jsonMLToArbitraryObject] on what the parser returns. *)
Lemma fromParsed_parsedOf (v : val) :
  wellFormed v -> recovers' v ->
  forall extra, ownAttribute extra ->
  fromParsed (parsedOf' extra v) = Js.Ok v.
Proof.
  induction v as [| |b|n|s|d|b|items IH|props IH] using value_induction;
    intros Hwf Hrec extra Hn.
  1-3: try destruct b; reflexivity.
  - cbn [parsedOf textOf tagOf]. unfold element. cbn [fst snd].
    change (fromParsed (VArray (VString "number" :: ?a :: ?kids)))
      with (Js.Ok (VNumber (parseFloat (joinValues toText kids))) : result val).
    rewrite joinValues_text. cbn in Hrec. now rewrite Hrec.
  - cbn [parsedOf textOf tagOf]. unfold element. cbn [fst snd].
    change (fromParsed (VArray (VString "string" :: ?a :: ?kids)))
      with (Js.Ok (VString (joinValues toText kids)) : result val).
    rewrite joinValues_text. cbn in Hrec. now rewrite Hrec.
  - cbn [parsedOf textOf tagOf]. unfold element. cbn [fst snd].
    change (fromParsed (VArray (VString "date" :: ?a :: ?kids)))
      with (Js.Ok (VDate (newDate (joinValues toText kids))) : result val).
    rewrite joinValues_text. cbn in Hrec. now rewrite Hrec.
  - cbn [parsedOf textOf tagOf]. unfold element. cbn [fst snd].
    change (fromParsed (VArray (VString "buffer" :: ?a :: ?kids)))
      with (bind (bufferFrom (joinValues toText kids) (VString "base64"))
              (fun b => Js.Ok (VBuffer b)) : result val).
    rewrite joinValues_text. cbn in Hrec. now rewrite Hrec.
  - apply wellFormed_array in Hwf. apply recovers_array in Hrec.
    cbn [parsedOf tagOf]. unfold element. cbn [fst snd].
    change (fromParsed (VArray (VString "array" :: ?a :: ?kids)))
      with (bind (mapM fromParsed kids) (fun l => Js.Ok (VArray l)) : result val).
    rewrite (mapM_recovered fromParsed (parsedOf' None) items); [reflexivity|].
    apply Forall_forall. intros x Hx. rewrite Forall_forall in IH, Hwf, Hrec.
    exact (IH x Hx (Hwf x Hx) (Hrec x Hx) None I).
  - apply wellFormed_object in Hwf as [Henum Hwf]. apply recovers_object in Hrec.
    cbn [parsedOf tagOf]. unfold element. cbn [fst snd].
    change (fromParsed (VArray (VString "object" :: ?a :: ?kids)))
      with (bind (mapM (fun child =>
                    bind (childName toText child) (fun k =>
                    bind (fromParsed child) (fun v => Js.Ok (k, v)))) kids)
              (fun l => Js.Ok (VObject (Js.fromEntries l))) : result val).
    rewrite (mapM_recovered _
               (fun kv => match kv with (prop, x) => parsedOf' (Some ("name", prop)) x end)
               props).
    + cbn [bind]. now rewrite JsFacts.fromEntries_enumerated.
    + apply Forall_forall. intros [k x] Hx. rewrite Forall_forall in IH, Hwf, Hrec.
      rewrite childName_parsedOf. cbn [bind].
      pose proof (IH (k, x) Hx (Hwf (k, x) Hx) (Hrec (k, x) Hx) (Some ("name", k))
                    (or_introl eq_refl)) as E.
      cbn [snd] in E. rewrite E. reflexivity.
Qed.

Lemma isArbitrary_parsedOf (v : val) :
  isArbitrary (parsedOf' (Some ("xmlns", arbitraryNS)) v) = true.
Proof. destruct v; reflexivity. Qed.

(** C8. Let [v] be a value that is not itself a JsonML document (an object
    with an array under [JsonML]), whose objects list their properties in
    enumeration order, whose strings have no white space at their ends, and
    whose numbers, dates and byte strings the built-in conversions get back
    from their text. Then [encode v] returns a text; [onml.parse] makes of it
    an element in which [decode] recognises the namespace of arbitrary
    objects; and [decode] of the text returns [v]. *)
Theorem xml_round_trip (v : val) :
  wellFormed v ->
  isDocument v = false ->
  recovers' v ->
  exists (xml : string) (parsed : val),
    encode numberToString numberFalsy toISOString toBase64 toText v = Js.Ok xml /\
    Onml.parse xml = Js.Ok parsed /\
    isArbitrary parsed = true /\
    decode parseFloat numberFalsy newDate bufferFrom toText Onml.parse xml = Js.Ok v.
Proof.
  intros Hwf Hdoc Hrec.
  exists (xmlOf' (Some ("xmlns", arbitraryNS)) v), (parsedOf' (Some ("xmlns", arbitraryNS)) v).
  split; [|split; [|split]].
  - pose proof (document_closedForm v) as Hd.
    unfold encode. rewrite Hdoc. unfold document in Hd.
    destruct (toJsonML v) as [j|]; [|discriminate].
    cbn [bind] in Hd |- *.
    destruct (expandElement j) as [e|]; [|discriminate]. cbn [bind] in Hd |- *.
    rewrite Hd. apply build_xmlOf. exact (or_intror eq_refl).
  - exact (parse_xmlOf v (Some ("xmlns", arbitraryNS)) (or_intror eq_refl)).
  - apply isArbitrary_parsedOf.
  - unfold decode.
    rewrite (parse_xmlOf v (Some ("xmlns", arbitraryNS)) (or_intror eq_refl)).
    cbn [bind]. rewrite isArbitrary_parsedOf.
    apply fromParsed_parsedOf; [assumption .. | exact (or_intror eq_refl)].
Qed.

End Facts.

(** C8, where the round trip fails. [encode] treats an object that has an
    array under [JsonML] as a document to serialise as it is: it throws on
    the empty array, and for the document of a string element it yields the
    text it yields for the string itself, which no decoder can map back to
    both. The parser trims character data, so a string with white space at
    an end comes back without it, and a string of white space comes back
    empty. And the negative zero is written as 0, which is read as the
    positive zero. *)
Lemma decode_encode_differs :
  Scenario.encode Scenario.emptyDocument = Js.Throw TypeError /\
  (Scenario.encode Scenario.stringDocument = Scenario.encode (VString "x") /\
   Scenario.stringDocument <> VString "x") /\
  (exists xml, Scenario.encode (VString " a") = Js.Ok xml /\
               Scenario.decode xml = Js.Ok (VString "a")) /\
  (exists xml, Scenario.encode (VString " ") = Js.Ok xml /\
               Scenario.decode xml = Js.Ok (VString "")) /\
  (exists xml, Scenario.encodeZero (VNumber Scenario.NegativeZero) = Js.Ok xml /\
               Scenario.decodeZero xml = Js.Ok (VNumber Scenario.PositiveZero)).
Proof.
  split; [reflexivity|]. split; [split; [reflexivity | discriminate]|].
  repeat split; eexists; (split; [reflexivity|]); vm_compute; reflexivity.
Qed.

(** The record value of the scenario, encoded and decoded again. *)
Lemma xml_round_trip_witness :
  Scenario.encode Scenario.song = Js.Ok Scenario.songXml /\
  Scenario.decode Scenario.songXml = Js.Ok Scenario.song.
Proof.
  destruct (xml_round_trip (fun n => n) (fun text => text) Scenario.numberFalsy
              (fun d => d) (fun text => text) string_of_list_byte Scenario.bufferFrom
              Scenario.toText Scenario.song)
    as (xml & parsed & He & _ & _ & Hd).
  - repeat (constructor || split || discriminate).
  - reflexivity.
  - vm_compute. repeat split; reflexivity.
  - vm_compute in He. injection He as <-.
    split; [reflexivity | exact Hd].
Defined.

End XmlFacts.

(** ** Lookup in JavaScript objects *)

Module JsLookup.

Section Objects.
Context {V : Type}.
Implicit Types (o : Js.jsobj V) (k : string) (v : V).

Lemma get_replace_eq k v o : Js.has k o = true -> Js.get k (Js.replace k v o) = Some v.
Proof.
  unfold Js.has. induction o as [|[k' v'] r IH]; simpl; [discriminate|].
  destruct (String.eqb k k') eqn:E; simpl.
  - intros _. apply String.eqb_eq in E. subst k'. now rewrite String.eqb_refl.
  - rewrite E. exact IH.
Qed.

Lemma get_replace_ne k k' v o : k <> k' -> Js.get k (Js.replace k' v o) = Js.get k o.
Proof.
  intros Hne. induction o as [|[k2 v2] r IH]; simpl; [reflexivity|].
  destruct (String.eqb k' k2) eqn:E; simpl.
  - apply String.eqb_eq in E. subst k2.
    apply String.eqb_neq in Hne. now rewrite Hne.
  - rewrite IH. reflexivity.
Qed.

Lemma get_app k o1 o2 :
  Js.get k (o1 ++ o2)%list =
  match Js.get k o1 with Some v => Some v | None => Js.get k o2 end.
Proof.
  induction o1 as [|[k' v'] r IH]; simpl; [reflexivity|].
  now destruct (String.eqb k k').
Qed.

Lemma get_addIndex_eq i k v o : Js.get k o = None -> Js.get k (Js.addIndex i k v o) = Some v.
Proof.
  induction o as [|[k' v'] r IH]; simpl.
  - now rewrite String.eqb_refl.
  - destruct (String.eqb k k') eqn:E; [discriminate|]. intros H.
    destruct (Js.arrayIndex k') as [j|]; [destruct (j <? i)%N|]; simpl;
      rewrite ?E, ?String.eqb_refl; auto.
Qed.

Lemma get_addIndex_ne i k k' v o : k <> k' -> Js.get k (Js.addIndex i k' v o) = Js.get k o.
Proof.
  intros Hne. apply String.eqb_neq in Hne.
  induction o as [|[k2 v2] r IH]; simpl.
  - now rewrite Hne.
  - destruct (Js.arrayIndex k2) as [j|]; [destruct (j <? i)%N|]; simpl;
      rewrite ?Hne, ?IH; reflexivity.
Qed.

Lemma get_set_eq k v o : Js.get k (Js.set k v o) = Some v.
Proof.
  unfold Js.set. destruct (Js.has k o) eqn:E.
  - now apply get_replace_eq.
  - unfold Js.has in E. destruct (Js.get k o) eqn:G; [discriminate|].
    unfold Js.add. destruct (Js.arrayIndex k).
    + now apply get_addIndex_eq.
    + rewrite get_app, G. simpl. now rewrite String.eqb_refl.
Qed.

Lemma get_set_ne k k' v o : k <> k' -> Js.get k (Js.set k' v o) = Js.get k o.
Proof.
  intros Hne. unfold Js.set. destruct (Js.has k' o).
  - now apply get_replace_ne.
  - unfold Js.add. destruct (Js.arrayIndex k').
    + now apply get_addIndex_ne.
    + rewrite get_app. simpl. apply String.eqb_neq in Hne. rewrite Hne.
      now destruct (Js.get k o).
Qed.

Lemma get_del_eq k o : Js.get k (Js.del k o) = None.
Proof.
  induction o as [|[k' v'] r IH]; simpl; [reflexivity|].
  destruct (String.eqb k k') eqn:E; simpl; [exact IH|]. now rewrite E.
Qed.

Lemma get_del_ne k k' o : k <> k' -> Js.get k (Js.del k' o) = Js.get k o.
Proof.
  intros Hne. induction o as [|[k2 v2] r IH]; simpl; [reflexivity|].
  destruct (String.eqb k' k2) eqn:E; simpl.
  - apply String.eqb_eq in E. subst k2. apply String.eqb_neq in Hne. now rewrite Hne.
  - now rewrite IH.
Qed.

Lemma NoDup_keys_del k o : NoDup (Js.keys o) -> NoDup (Js.keys (Js.del k o)).
Proof.
  unfold Js.keys. induction o as [|[k' v'] r IH]; simpl; [auto|].
  intros H. apply NoDup_cons in H as [Hn Hr].
  destruct (String.eqb k k'); simpl; [auto|].
  apply NoDup_cons. split; [|auto].
  intros Hin. apply Hn. now apply (JsFacts.keys_del k' k r) in Hin as [_ ?].
Qed.

(** The value of a property whose key occurs once. *)
Lemma get_NoDup k v o : NoDup (Js.keys o) -> (k, v) ∈ o -> Js.get k o = Some v.
Proof.
  unfold Js.keys. induction o as [|[k' v'] r IH]; simpl; intros Hnd Hin.
  - now apply elem_of_nil in Hin.
  - apply NoDup_cons in Hnd as [Hn Hr]. apply elem_of_cons in Hin as [E|Hin].
    + injection E as <- <-. now rewrite String.eqb_refl.
    + destruct (String.eqb k k') eqn:E.
      * apply String.eqb_eq in E. subst k'. exfalso. apply Hn.
        apply list_elem_of_fmap. now exists (k, v).
      * auto.
Qed.

(** What a sequence of assignments leaves under a key: the value of its last
    assignment to the key, or what was there. *)
Lemma get_fold_set (l : list (string * V)) : forall o k,
  Js.get k (fold_left (fun o kv => Js.set kv.1 kv.2 o) l o) =
  match Js.get k (reverse l) with Some v => Some v | None => Js.get k o end.
Proof.
  induction l as [|[k' v'] r IH]; intros o k; simpl; [reflexivity|].
  rewrite IH, reverse_cons, get_app. destruct (Js.get k (reverse r)); [reflexivity|]. simpl.
  destruct (String.eqb k k') eqn:E.
  - apply String.eqb_eq in E. subst k'. apply get_set_eq.
  - apply String.eqb_neq in E. now apply get_set_ne.
Qed.

(** [Object.fromEntries] keeps, for each key, the value of its last entry. *)
Lemma get_fromEntries (l : list (string * V)) k :
  Js.get k (Js.fromEntries l) = Js.get k (reverse l).
Proof.
  unfold Js.fromEntries. rewrite get_fold_set. now destruct (Js.get k (reverse l)).
Qed.

Lemma get_fromEntries_NoDup (l : list (string * V)) k v :
  NoDup (map fst l) -> (k, v) ∈ l -> Js.get k (Js.fromEntries l) = Some v.
Proof.
  intros Hnd Hin. rewrite get_fromEntries. apply get_NoDup.
  - unfold Js.keys. change (NoDup (fst <$> reverse l)).
    now rewrite reverse_Permutation.
  - now apply elem_of_reverse.
Qed.

Lemma get_fromEntries_None (l : list (string * V)) k :
  k ∉ map fst l -> Js.get k (Js.fromEntries l) = None.
Proof.
  intros Hn. apply JsFacts.get_None_keys. now rewrite JsFacts.keys_fromEntries.
Qed.

Lemma fold_set_entries (l : list (string * V)) : forall o (e : string * V),
  e ∈ fold_left (fun o kv => Js.set kv.1 kv.2 o) l o -> e ∈ o \/ e ∈ l.
Proof.
  induction l as [|[k v] r IH]; intros o e; simpl; [auto|].
  intros H. apply IH in H as [H|H].
  - apply JsFacts.elem_of_set in H as [->|H]; [right; left|auto].
  - right. now right.
Qed.

Lemma elem_of_fromEntries (l : list (string * V)) (e : string * V) :
  e ∈ Js.fromEntries l -> e ∈ l.
Proof.
  intros H. apply fold_set_entries in H as [H|H]; [|exact H].
  now apply elem_of_nil in H.
Qed.

End Objects.

End JsLookup.

(** ** Invariants and round trips of the base data model *)

Module DatasetInvariants.
Import Dataset.

Section Facts.
Context {Data Config : Type}.
Variable objectHash : Data -> buffer.
Variable listHashURLs : Data -> list hashURL.
Variable validateRecord : string -> Data -> option string.
Variable validateConfig : meta Config -> option string.
Variable stringNaturalCompare : string -> string -> Z.
Implicit Types (w : world Data Config) (m : meta Config).

Local Abbreviation loop := (writeLoop objectHash listHashURLs validateRecord).
Local Abbreviation writeAll :=
  (writeEntries objectHash listHashURLs validateRecord validateConfig stringNaturalCompare).
Local Abbreviation runOp :=
  (run objectHash listHashURLs validateRecord validateConfig stringNaturalCompare).
Local Abbreviation stamped v :=
  (map (fun e : string * recordMeta => (e.1, stamp v e.2))).

Lemma checkRecords_stamp v rs : forall l rs' l',
  checkRecords v rs l = (Js.Ok rs', l') ->
  rs' = stamped v rs /\
  Forall (fun e => length (hash e.2) = 32%nat /\
                   0 < match recordVersion e.2 with Some x => x | None => v end) rs.
Proof.
  induction rs as [|[id r] rest IH]; intros l rs' l'; simpl.
  - intros [= <- <-]. split; [reflexivity|constructor].
  - destruct (0 <? _)%Z eqn:Ev; simpl; [|discriminate].
    destruct (length (hash r) =? 32)%nat eqn:El; simpl; [|discriminate].
    destruct (checkRecords v rest _) as [[rest'|e] l1] eqn:E; [|discriminate].
    intros [= <- <-]. apply IH in E as [-> HF]. split; [reflexivity|].
    constructor; [|exact HF]. simpl. split.
    + now apply Nat.eqb_eq.
    + now apply Z.ltb_lt.
Qed.

Lemma checkRecords_keeps v rs : forall l r l' h,
  checkRecords v rs l = (r, l') -> h ∈ l -> h ∈ l'.
Proof.
  induction rs as [|[id rm] rest IH]; intros l r l' h; simpl.
  - now intros [= <- <-].
  - destruct (negb _); [now intros [= <- <-]|].
    destruct (negb _); [now intros [= <- <-]|].
    destruct (checkRecords v rest _) as [res l1] eqn:E. intros [= <- <-] Hin.
    eapply IH; [exact E|]. apply elem_of_app. now left.
Qed.

Lemma retain_lookup_Some (l : list buffer) w h d :
  objects w !! h = Some d -> h ∈ l -> objects (retain l w) !! h = Some d.
Proof.
  intros Ho Hl. unfold retain; simpl. apply map_lookup_filter_Some. split; [exact Ho|].
  now left.
Qed.

Lemma retain_lookup_is_Some (l : list buffer) w h :
  is_Some (objects w !! h) -> h ∈ l -> is_Some (objects (retain l w) !! h).
Proof. intros [d Hd] Hl. exists d. now apply retain_lookup_Some. Qed.

Lemma writeLoop_setRecords entries : forall m inc w m' inc' w' rs,
  loop entries m inc w = (Js.Ok (m', inc'), w') -> setRecords m' rs = setRecords m rs.
Proof.
  induction entries as [|[k [data|]] rest IH]; intros m inc w m' inc' w' rs; simpl.
  - now intros [= <- <- <-].
  - destruct (0 <? length _)%nat; [discriminate|].
    destruct (validateRecord k data); [discriminate|].
    intros H. now apply (IH _ _ _ _ _ _ rs) in H.
  - intros H. now apply (IH _ _ _ _ _ _ rs) in H.
Qed.

Lemma writeLoop_objects_mono entries : forall m inc w r w' h,
  loop entries m inc w = (r, w') ->
  is_Some (objects w !! h) -> is_Some (objects w' !! h).
Proof.
  induction entries as [|[k [data|]] rest IH]; intros m inc w r w' h; simpl.
  - now intros [= <- <-].
  - destruct (0 <? length _)%nat; [now intros [= <- <-]|].
    destruct (validateRecord k data); [now intros [= <- <-]|].
    intros H Hs. eapply IH; [exact H|]. simpl.
    destruct (decide (objectHash data = h)) as [->|Hne].
    + rewrite lookup_insert_eq. eauto.
    + now rewrite lookup_insert_ne.
  - intros H Hs. eapply IH; [exact H|exact Hs].
Qed.

Lemma writeLoop_written entries : forall m inc w m' inc' w' d,
  loop entries m inc w = (Js.Ok (m', inc'), w') ->
  d ∈ writes entries -> is_Some (objects w' !! objectHash d).
Proof.
  induction entries as [|[k [data|]] rest IH]; intros m inc w m' inc' w' d; simpl.
  - intros _ H. now apply elem_of_nil in H.
  - destruct (0 <? length _)%nat; [discriminate|].
    destruct (validateRecord k data); [discriminate|].
    intros H Hd. apply elem_of_cons in Hd as [->|Hd].
    + eapply writeLoop_objects_mono; [exact H|]. simpl. rewrite lookup_insert_eq. eauto.
    + eapply IH; eassumption.
  - intros H Hd. eapply IH; eassumption.
Qed.

Lemma writeLoop_fresh entries : forall m inc w m' inc' w' e,
  loop entries m inc w = (Js.Ok (m', inc'), w') ->
  e ∈ records m' ->
  e ∈ records m \/
  exists d, d ∈ writes entries /\
            e.2 = mkRecord (objectHash d) (map urlText (listHashURLs d)) None.
Proof.
  induction entries as [|[k [data|]] rest IH]; intros m inc w m' inc' w' e; simpl.
  - intros [= <- <- <-]. now left.
  - destruct (0 <? length _)%nat; [discriminate|].
    destruct (validateRecord k data); [discriminate|].
    intros H He. eapply IH in H; [|exact He]. simpl in H.
    destruct H as [H|(d & Hd & Hh)].
    + assert (Hs : e ∈ records m \/ e = (k, mkRecord (objectHash data)
                                           (map urlText (listHashURLs data)) None)).
      { destruct (Js.get k (records m)) as [r|].
        - destruct (sameHash (hash r) (objectHash data)); [now left|].
          apply JsFacts.elem_of_set in H. tauto.
        - apply JsFacts.elem_of_set in H. tauto. }
      destruct Hs as [Hs| ->]; [now left|].
      right. exists data. split; [left | reflexivity].
    + right. exists d. split; [now right | assumption].
  - intros H He. eapply IH in H; [|exact He]. simpl in H.
    destruct H as [H|H]; [|now right].
    left. now apply JsFacts.elem_of_del in H.
Qed.

Lemma writeLoop_NoDup entries : forall m inc w m' inc' w',
  loop entries m inc w = (Js.Ok (m', inc'), w') ->
  NoDup (Js.keys (records m)) -> NoDup (Js.keys (records m')).
Proof.
  induction entries as [|[k [data|]] rest IH]; intros m inc w m' inc' w'; simpl.
  - now intros [= <- <- <-].
  - destruct (0 <? length _)%nat; [discriminate|].
    destruct (validateRecord k data); [discriminate|].
    intros H Hnd. eapply IH; [exact H|]. simpl.
    destruct (Js.get k (records m)) as [r|];
      [destruct (sameHash (hash r) (objectHash data)); [assumption|]|];
      now apply JsFacts.NoDup_keys_set.
  - intros H Hnd. eapply IH; [exact H|]. simpl. now apply JsLookup.NoDup_keys_del.
Qed.

Lemma writeLoop_other entries : forall m inc w m' inc' w' id,
  loop entries m inc w = (Js.Ok (m', inc'), w') ->
  id ∉ ids entries -> Js.get id (records m') = Js.get id (records m).
Proof.
  induction entries as [|[k [data|]] rest IH]; intros m inc w m' inc' w' id; simpl.
  - now intros [= <- <- <-].
  - destruct (0 <? length _)%nat; [discriminate|].
    destruct (validateRecord k data); [discriminate|].
    intros H Hid. apply not_elem_of_cons in Hid as [Hne Hid].
    erewrite IH; [|exact H|exact Hid]. simpl.
    destruct (Js.get k (records m)) as [r|];
      [destruct (sameHash (hash r) (objectHash data)); [reflexivity|]|];
      now apply JsLookup.get_set_ne.
  - intros H Hid. apply not_elem_of_cons in Hid as [Hne Hid].
    erewrite IH; [|exact H|exact Hid]. simpl. now apply JsLookup.get_del_ne.
Qed.

Lemma dropOthers_NoDup prev inc : forall (rs : Js.jsobj recordMeta),
  NoDup (Js.keys rs) -> NoDup (Js.keys (dropOthers prev inc rs)).
Proof.
  unfold dropOthers. induction prev as [|p prev IH]; intros rs Hnd; simpl; [exact Hnd|].
  apply IH. destruct (included inc p); [exact Hnd|]. now apply JsLookup.NoDup_keys_del.
Qed.

(** The records the callback of [writeEntries] returns. *)
Local Abbreviation returned ow stored m1 inc :=
  (if ow then dropOthers (Js.keys (records stored)) inc (records m1) else records m1).

(** What a call of [writeEntries] that succeeds has done. *)
Lemma writeEntries_ok now entries (ow : bool) w v w' :
  writeAll now entries ow w = (Js.Ok v, w') ->
  exists stored m1 inc w1,
    metaFile w = Some stored /\
    loop entries (draftOf now stored) [] w = (Js.Ok (m1, inc), w1) /\
    Forall (fun e => length (hash e.2) = 32%nat /\
                     0 < match recordVersion e.2 with
                         | Some x => x
                         | None => version stored + 1
                         end) (returned ow stored m1 inc) /\
    w' = setMetaFile
           (Some (mkMeta (version stored + 1) (created stored) now (config stored)
                    (sortRecords stringNaturalCompare
                       (stamped (version stored + 1) (returned ow stored m1 inc)))))
           (retain (hashes stored ++ map hash (returned ow stored m1 inc).*2)%list w1) /\
    v = version stored + 1.
Proof.
  unfold writeEntries, updateMeta, fileRead.
  destruct (metaFile w) as [stored|] eqn:Em; [|discriminate].
  change (mkMeta (version stored + 1) (created stored) now (config stored) (records stored))
    with (draftOf now stored).
  unfold writeBlock.
  destruct (loop entries (draftOf now stored) [] w) as [[[m1 inc]|e] w1] eqn:E;
    [|discriminate].
  intros H. exists stored, m1, inc, w1. split; [reflexivity|]. split; [exact E|].
  pose proof E as Hv. apply DatasetFacts.writeLoop_frame in Hv as (_ & _ & _ & Hv).
  assert (Hset : forall rs, setRecords m1 rs = setRecords (draftOf now stored) rs).
  { intros rs. eapply writeLoop_setRecords. exact E. }
  simpl in Hv.
  assert (Hr : forall rs, setRecords (if ow
                 then setRecords m1 (dropOthers (Js.keys (records (draftOf now stored))) inc
                                       (records m1))
                 else m1) rs = setRecords (draftOf now stored) rs).
  { intros rs. destruct ow; [|apply Hset]. exact (Hset rs). }
  assert (Hrec : records (if ow
                 then setRecords m1 (dropOthers (Js.keys (records (draftOf now stored))) inc
                                       (records m1))
                 else m1) = returned ow stored m1 inc).
  { now destruct ow. }
  assert (Hver : version (if ow
                 then setRecords m1 (dropOthers (Js.keys (records (draftOf now stored))) inc
                                       (records m1))
                 else m1) = version stored + 1).
  { now destruct ow. }
  revert H. unfold Js.entries. rewrite Hrec, Hver.
  destruct (checkRecords _ _ _) as [[rs|e] l] eqn:Ec; [|discriminate].
  rewrite Hr.
  pose proof Ec as Hl. apply DatasetFacts.checkRecords_keys in Hl as (_ & _ & ->).
  apply checkRecords_stamp in Ec as [-> HF].
  destruct (validateConfig _); [discriminate|].
  intros [= <- <-]. split; [exact HF|]. split; reflexivity.
Qed.

Lemma stamp_versioned v (r : recordMeta) x : recordVersion r = Some x -> stamp v r = r.
Proof. destruct r as [h l rv]. simpl. intros ->. reflexivity. Qed.

Lemma returned_entries (ow : bool) (stored m1 : meta Config) inc e :
  e ∈ returned ow stored m1 inc -> e ∈ records m1.
Proof. destruct ow; [apply DatasetFacts.dropOthers_entries|auto]. Qed.

Lemma sortRecords_entries (rs : list (string * recordMeta)) e :
  e ∈ sortRecords stringNaturalCompare rs -> e ∈ rs.
Proof.
  intros H. apply JsLookup.elem_of_fromEntries in H.
  now rewrite merge_sort_Permutation in H.
Qed.

Lemma sortRecords_get (rs : list (string * recordMeta)) id :
  NoDup (Js.keys rs) ->
  Js.get id (sortRecords stringNaturalCompare rs) = Js.get id rs.
Proof.
  intros Hnd. unfold sortRecords. destruct (Js.get id rs) as [r|] eqn:G.
  - apply JsLookup.get_fromEntries_NoDup.
    + change (NoDup (merge_sort (keyLe stringNaturalCompare) rs).*1).
      now rewrite merge_sort_Permutation.
    + rewrite merge_sort_Permutation. now apply JsFacts.get_Some_entry.
  - apply JsLookup.get_fromEntries_None.
    change (id ∉ (merge_sort (keyLe stringNaturalCompare) rs).*1).
    rewrite merge_sort_Permutation. now apply JsFacts.get_None_keys.
Qed.

Lemma stamped_get v (rs : list (string * recordMeta)) id :
  Js.get id (stamped v rs) = stamp v <$> Js.get id rs.
Proof.
  induction rs as [|[k r] rest IH]; simpl; [reflexivity|].
  now destruct (String.eqb id k).
Qed.

Lemma stamped_keys v (rs : list (string * recordMeta)) :
  Js.keys (stamped v rs) = Js.keys rs.
Proof. unfold Js.keys. rewrite map_map. reflexivity. Qed.

(** Every mutation is a call of [writeEntries], or throws before it does
    anything. *)
Lemma run_writeEntries now op w :
  (exists e, runOp now op w = (Js.Throw e, w)) \/
  (exists entries ow, runOp now op w = writeAll now entries ow w).
Proof.
  destruct op as [id [d|]|entries ow|recs|recs|id]; simpl.
  - right. now exists [(id, Some d)], false.
  - left. eauto.
  - right. now exists entries, ow.
  - right. now exists (Js.entries recs), false.
  - right. now exists (Js.entries recs), true.
  - unfold delete. destruct (0 <? String.length id)%nat.
    + right. now exists [(id, None)], false.
    + left. eauto.
Qed.

Lemma writeEntries_wellFormed now entries ow w v w' stored :
  metaFile w = Some stored -> wellFormed stored ->
  writeAll now entries ow w = (Js.Ok v, w') ->
  exists m', metaFile w' = Some m' /\ wellFormed m'.
Proof.
  intros Hm (Hv0 & Hnd & Hwf) H.
  apply writeEntries_ok in H as (stored' & m1 & inc & w1 & Hm' & E & HF & -> & ->).
  rewrite Hm in Hm'. injection Hm' as <-.
  eexists. split; [reflexivity|]. split; [simpl; lia|]. split; simpl.
  - apply JsFacts.NoDup_keys_fromEntries.
  - apply Forall_forall. intros e He. apply sortRecords_entries in He.
    apply list_elem_of_fmap in He as (e0 & -> & He0). simpl.
    rewrite Forall_forall in HF. destruct (HF e0 He0) as [Hlen Hpos].
    split; [exact Hlen|]. simpl.
    apply returned_entries in He0.
    eapply writeLoop_fresh in E; [|exact He0]. destruct E as [Hold|(d & _ & Hd)].
    + simpl in Hold. rewrite Forall_forall in Hwf.
      destruct (Hwf e0 Hold) as (_ & x & Hx & Hx0 & Hx1).
      rewrite Hx. exists x. split; [reflexivity|]. lia.
    + rewrite Hd in Hpos |- *. simpl in *. eexists. split; [reflexivity|]. lia.
Qed.

Lemma writeEntries_objectsPresent now entries ow w :
  objectsPresent w -> objectsPresent (writeAll now entries ow w).2.
Proof.
  intros Hp. unfold writeEntries, updateMeta, fileRead.
  destruct (metaFile w) as [stored|] eqn:Em; [|exact Hp].
  specialize (Hp stored Em). rewrite Forall_forall in Hp.
  change (mkMeta (version stored + 1) (created stored) now (config stored) (records stored))
    with (draftOf now stored).
  assert (Hold : forall l w1 r e,
            loop entries (draftOf now stored) [] w = (r, w1) ->
            (forall h, h ∈ hashes stored -> h ∈ l) ->
            e ∈ records stored -> is_Some (objects (retain l w1) !! hash e.2)).
  { intros l w1 r e E Hl He. apply retain_lookup_is_Some.
    - eapply writeLoop_objects_mono; [exact E|]. now apply Hp.
    - apply Hl. unfold hashes, Js.values.
      apply list_elem_of_fmap. exists e.2. split; [reflexivity|].
      apply list_elem_of_fmap. now exists e. }
  unfold writeBlock.
  destruct (loop entries (draftOf now stored) [] w) as [[[m1 inc]|e] w1] eqn:E.
  - pose proof E as Hf. apply DatasetFacts.writeLoop_frame in Hf as (Hmf & _).
    set (r := if ow then _ else m1).
    assert (Hr : forall e, e ∈ records r -> e ∈ records m1).
    { intros e He. subst r. destruct ow; [|assumption]. simpl in He.
      now apply DatasetFacts.dropOthers_entries in He. }
    destruct (checkRecords _ _ _) as [res l] eqn:Ec.
    assert (Hkeep : forall h, h ∈ hashes stored -> h ∈ l).
    { intros h Hh. eapply checkRecords_keeps; [exact Ec|exact Hh]. }
    assert (Hfail : objectsPresent (retain l w1)).
    { intros m Hm. simpl in Hm. rewrite Hmf, Em in Hm. injection Hm as <-.
      apply Forall_forall. intros e He. eapply Hold; eauto. }
    destruct res as [rs|e]; [destruct (validateConfig _)|]; simpl; try exact Hfail.
    intros m Hm. simpl in Hm. injection Hm as <-. simpl.
    apply Forall_forall. intros e He. apply sortRecords_entries in He.
    apply DatasetFacts.checkRecords_keys in Ec as (_ & Hh & ->).
    assert (Hin : hash e.2 ∈ map hash rs.*2).
    { apply list_elem_of_fmap. exists e.2. split; [reflexivity|].
      apply list_elem_of_fmap. now exists e. }
    rewrite Hh in Hin.
    apply retain_lookup_is_Some; [|apply elem_of_app; now right].
    apply list_elem_of_fmap in Hin as (rm & -> & Hin).
    apply list_elem_of_fmap in Hin as (e0 & -> & He0).
    apply Hr in He0.
    pose proof E as E'.
    eapply writeLoop_fresh in E'; [|exact He0]. destruct E' as [Hin|(d & Hd & Heq)].
    + eapply writeLoop_objects_mono; [exact E|]. now apply Hp.
    + rewrite Heq. simpl. eapply writeLoop_written; [exact E|exact Hd].
  - simpl. pose proof E as Hf. apply DatasetFacts.writeLoop_frame in Hf as (Hmf & _).
    intros m Hm. simpl in Hm. rewrite Hmf, Em in Hm. injection Hm as <-.
    apply Forall_forall. intros e0 He0. eapply Hold; eauto.
Qed.

(** X1. Whatever sequence of operations a dataset has gone through since it
    did not exist, the version of its meta is not negative and its records
    have distinct ids, each with a 32-byte hash and a version above 0 that is
    at most the version of the dataset. *)
Theorem reachable_wellFormed w :
  reachable objectHash listHashURLs validateRecord validateConfig stringNaturalCompare w ->
  forall m, metaFile w = Some m -> wellFormed m.
Proof.
  induction 1 as [w Hn|w now cfg Hr IH|w now op Hown Hr IH|w Hr IH|w holds store Hr IH];
    intros m Hm.
  - congruence.
  - unfold create in Hm. destruct (metaFile w) eqn:Em; simpl in Hm.
    + apply IH. congruence.
    + destruct (validateConfig _); simpl in Hm; [congruence|].
      injection Hm as <-. split; [simpl; lia|]. split; simpl; constructor.
  - destruct (run_writeEntries now op w) as [[e He]|(entries & ow & He)];
      rewrite He in Hm; simpl in Hm; [now apply IH|].
    destruct (writeAll now entries ow w) as [[v|e] w'] eqn:E; simpl in Hm.
    + pose proof E as E'.
      apply writeEntries_ok in E' as (stored & _ & _ & _ & Hs & _).
      destruct (writeEntries_wellFormed _ _ _ _ _ _ _ Hs (IH _ Hs) E) as (m' & Hm' & Hwf).
      congruence.
    + pose proof (DatasetFacts.writeEntries_step objectHash listHashURLs validateRecord
                    validateConfig stringNaturalCompare now entries ow w) as Hstep.
      unfold versionStep in Hstep. rewrite E in Hstep. simpl in Hstep.
      apply IH. congruence.
  - discriminate.
  - now apply IH.
Qed.

(** X2. Whatever sequence of operations a dataset has gone through, calls
    that threw included, the object of every record of its meta is in the
    object store: [retain] never collects an object the stored meta refers
    to. *)
Theorem reachable_objectsPresent w :
  reachable objectHash listHashURLs validateRecord validateConfig stringNaturalCompare w ->
  objectsPresent w.
Proof.
  induction 1 as [w Hn|w now cfg Hr IH|w now op Hown Hr IH|w Hr IH|w holds store Hr IH].
  - intros m Hm. congruence.
  - unfold create. destruct (metaFile w) eqn:Em; simpl; [exact IH|].
    destruct (validateConfig _); simpl; [exact IH|].
    intros m Hm. simpl in Hm. injection Hm as <-. constructor.
  - destruct (run_writeEntries now op w) as [[e He]|(entries & ow & He)];
      rewrite He; simpl; [exact IH|].
    now apply writeEntries_objectsPresent.
  - intros m Hm. discriminate.
  - exact IH.
Qed.

(** The record of each id after a call of [writeEntries] that succeeds. *)
Lemma writeEntries_get now entries (ow : bool) w v w' stored :
  metaFile w = Some stored -> NoDup (Js.keys (records stored)) ->
  writeAll now entries ow w = (Js.Ok v, w') ->
  exists m1 inc w1 m',
    loop entries (draftOf now stored) [] w = (Js.Ok (m1, inc), w1) /\
    metaFile w' = Some m' /\ version m' = version stored + 1 /\ v = version stored + 1 /\
    (forall id, Js.get id (records m') =
                stamp (version stored + 1) <$> Js.get id (returned ow stored m1 inc)) /\
    (forall h d, objects w1 !! h = Some d ->
                 h ∈ map hash (returned ow stored m1 inc).*2 ->
                 objects w' !! h = Some d).
Proof.
  intros Hm Hnd H.
  apply writeEntries_ok in H as (stored' & m1 & inc & w1 & Hm' & E & HF & -> & ->).
  rewrite Hm in Hm'. injection Hm' as <-.
  exists m1, inc, w1. eexists. split; [exact E|]. split; [reflexivity|].
  split; [reflexivity|]. split; [reflexivity|]. split.
  - intros id. simpl. rewrite sortRecords_get, stamped_get; [reflexivity|].
    rewrite stamped_keys.
    assert (Hnd1 : NoDup (Js.keys (records m1))).
    { eapply writeLoop_NoDup; [exact E|exact Hnd]. }
    destruct ow; [now apply dropOthers_NoDup|exact Hnd1].
  - intros h d Hd Hin. simpl. apply map_lookup_filter_Some. split; [exact Hd|].
    left. simpl. apply elem_of_app. now right.
Qed.

(** X3. A record read after [write] has stored it is the value written, and
    [exists] finds the record. The id is no inherited property name, so that
    the lookups of the code are lookups of own properties. *)
Theorem read_after_write now id d w v w' stored :
  Js.ownName id ->
  metaFile w = Some stored -> NoDup (Js.keys (records stored)) ->
  write objectHash listHashURLs validateRecord validateConfig stringNaturalCompare
    now id (Some d) w = (Js.Ok v, w') ->
  read id w' = Js.Ok (Some d) /\ exists_ (Some id) w' = true.
Proof.
  intros _ Hm Hnd H. simpl in H.
  destruct (writeEntries_get _ _ _ _ _ _ _ Hm Hnd H)
    as (m1 & inc & w1 & m' & E & Hm' & _ & _ & Hget & Hobj).
  simpl in E.
  destruct (0 <? length _)%nat; [discriminate|].
  destruct (validateRecord id d); [discriminate|].
  injection E as <- _ <-. simpl in Hget, Hobj.
  set (rs1 := match Js.get id (records stored) with Some r => _ | None => _ end) in *.
  assert (Hr : exists r1, Js.get id rs1 = Some r1 /\ hash r1 = objectHash d).
  { subst rs1. destruct (Js.get id (records stored)) as [r|] eqn:G.
    - destruct (sameHash (hash r) (objectHash d)) eqn:S.
      + exists r. split; [exact G|]. unfold sameHash in S.
        now apply bool_decide_eq_true in S.
      + eexists. split; [apply JsLookup.get_set_eq|reflexivity].
    - eexists. split; [apply JsLookup.get_set_eq|reflexivity]. }
  destruct Hr as (r1 & Hr1 & Hh).
  assert (Hd : objects w' !! objectHash d = Some d).
  { apply Hobj; [apply lookup_insert_eq|].
    rewrite <- Hh. apply list_elem_of_fmap. exists r1. split; [reflexivity|].
    apply list_elem_of_fmap. exists (id, r1). split; [reflexivity|].
    now apply JsFacts.get_Some_entry. }
  unfold read, exists_, readMeta, fileRead, objectRead, Js.has.
  rewrite Hm', Hget, Hr1. simpl. rewrite Hh, Hd. split; reflexivity.
Qed.

(** X4. A record that is rewritten with a value of the same hash keeps its
    version; a record that is new or whose hash changes gets the new version
    of the dataset. The id is no inherited property name. *)
Theorem write_record_version now id d w v w' stored :
  Js.ownName id ->
  metaFile w = Some stored -> wellFormed stored ->
  write objectHash listHashURLs validateRecord validateConfig stringNaturalCompare
    now id (Some d) w = (Js.Ok v, w') ->
  exists m' r',
    metaFile w' = Some m' /\ version m' = v /\ v = version stored + 1 /\
    Js.get id (records m') = Some r' /\ hash r' = objectHash d /\
    recordVersion r' =
      match Js.get id (records stored) with
      | Some r => if sameHash (hash r) (objectHash d) then recordVersion r else Some v
      | None => Some v
      end.
Proof.
  intros _ Hm (Hv0 & Hnd & Hwf) H. simpl in H.
  destruct (writeEntries_get _ _ _ _ _ _ _ Hm Hnd H)
    as (m1 & inc & w1 & m' & E & Hm' & Hv & -> & Hget & _).
  simpl in E.
  destruct (0 <? length _)%nat; [discriminate|].
  destruct (validateRecord id d); [discriminate|].
  injection E as <- _ _. simpl in Hget.
  exists m'. specialize (Hget id). revert Hget.
  destruct (Js.get id (records stored)) as [r|] eqn:G.
  - destruct (sameHash (hash r) (objectHash d)) eqn:S.
    + rewrite G. simpl. intros Hget. exists (stamp (version stored + 1) r).
      rewrite Forall_forall in Hwf.
      destruct (Hwf (id, r) (JsFacts.get_Some_entry _ _ _ G)) as (_ & x & Hx & _).
      simpl in Hx. rewrite (stamp_versioned _ _ _ Hx) in *.
      unfold sameHash in S. apply bool_decide_eq_true in S. tauto.
    + rewrite JsLookup.get_set_eq. simpl. intros Hget. eexists. repeat split; eauto.
  - rewrite JsLookup.get_set_eq. simpl. intros Hget. eexists. repeat split; eauto.
Qed.

(** X5. A merge leaves alone the records it does not name: after
    [writeEntries] without [overwrite], the meta of a record whose id is not
    among the entries is what it was. The ids of the entries are no
    inherited property names. *)
Theorem merge_keeps_unnamed now entries w v w' stored id :
  Forall Js.ownName (ids entries) ->
  metaFile w = Some stored -> wellFormed stored ->
  writeAll now entries false w = (Js.Ok v, w') ->
  id ∉ ids entries ->
  exists m', metaFile w' = Some m' /\
             Js.get id (records m') = Js.get id (records stored).
Proof.
  intros _ Hm (Hv0 & Hnd & Hwf) H Hid.
  destruct (writeEntries_get _ _ _ _ _ _ _ Hm Hnd H)
    as (m1 & inc & w1 & m' & E & Hm' & _ & _ & Hget & _).
  exists m'. split; [exact Hm'|]. rewrite Hget.
  erewrite writeLoop_other; [|exact E|exact Hid]. simpl.
  destruct (Js.get id (records stored)) as [r|] eqn:G; [|reflexivity]. simpl.
  rewrite Forall_forall in Hwf.
  destruct (Hwf (id, r) (JsFacts.get_Some_entry _ _ _ G)) as (_ & x & Hx & _).
  simpl in Hx. now rewrite (stamp_versioned _ _ _ Hx).
Qed.

(** X6. [delete] with an empty record id throws and changes nothing. With
    another id that is no inherited property name, when it succeeds the
    record is gone, whether or not it was there, every other record is as it
    was, and the dataset has a new version. *)
Theorem delete_record now id w :
  delete validateConfig stringNaturalCompare now "" w =
    (Js.Throw (AssertionError "recordID can't be an empty string"), w) /\
  forall v w' stored,
    Js.ownName id ->
    metaFile w = Some stored -> wellFormed stored ->
    delete validateConfig stringNaturalCompare now id w = (Js.Ok v, w') ->
    exists m',
      metaFile w' = Some m' /\ version m' = version stored + 1 /\
      Js.get id (records m') = None /\
      exists_ (Some id) w' = false /\
      read id w' = Js.Ok None /\
      forall id', id' <> id -> Js.get id' (records m') = Js.get id' (records stored).
Proof.
  split; [reflexivity|]. intros v w' stored _ Hm (Hv0 & Hnd & Hwf) H.
  unfold delete in H. destruct (0 <? String.length id)%nat; [|discriminate].
  change (writeAll now [(id, None)] false w = (Js.Ok v, w')) in H.
  destruct (writeEntries_get _ _ _ _ _ _ _ Hm Hnd H)
    as (m1 & inc & w1 & m' & E & Hm' & Hv & _ & Hget & _).
  simpl in E. injection E as <- _ _. simpl in Hget.
  assert (Hgone : Js.get id (records m') = None).
  { now rewrite Hget, JsLookup.get_del_eq. }
  exists m'. split; [exact Hm'|]. split; [exact Hv|]. split; [exact Hgone|].
  split; [|split].
  - unfold exists_, Js.has. now rewrite Hm', Hgone.
  - unfold read, readMeta, fileRead. now rewrite Hm', Hgone.
  - intros id' Hne. rewrite Hget, JsLookup.get_del_ne by exact Hne.
    destruct (Js.get id' (records stored)) as [r|] eqn:G; [|reflexivity]. simpl.
    rewrite Forall_forall in Hwf.
    destruct (Hwf (id', r) (JsFacts.get_Some_entry _ _ _ G)) as (_ & x & Hx & _).
    simpl in Hx. now rewrite (stamp_versioned _ _ _ Hx).
Qed.

(** X7. Deleting a record is merging [null] for its id: the two calls
    return the same and leave the same stores. *)
Theorem delete_is_merge_null now id w :
  id <> "" ->
  delete validateConfig stringNaturalCompare now id w =
  merge objectHash listHashURLs validateRecord validateConfig stringNaturalCompare
    now [(id, None)] w.
Proof.
  intros Hne. unfold delete. destruct id as [|c r]; [contradiction|]. reflexivity.
Qed.

Lemma checkRecords_passes v rs : forall l,
  Forall (fun e => length (hash e.2) = 32%nat /\
                   0 < match recordVersion e.2 with Some x => x | None => v end) rs ->
  exists rs' l', checkRecords v rs l = (Js.Ok rs', l').
Proof.
  induction rs as [|[id r] rest IH]; intros l HF; simpl; [eauto|].
  apply Forall_cons in HF as [[Hlen Hpos] HF]. simpl in Hlen, Hpos.
  apply Z.ltb_lt in Hpos. rewrite Hpos. apply Nat.eqb_eq in Hlen. rewrite Hlen. simpl.
  destruct (IH (l ++ [hash r])%list HF) as (rs' & l' & ->). eauto.
Qed.

(** The records after the loop of [write] has run for one value. *)
Local Abbreviation one id d stored :=
  (match Js.get id (records stored) with
   | Some r =>
       if sameHash (hash r) (objectHash d) then records stored
       else Js.set id (mkRecord (objectHash d) (map urlText (listHashURLs d)) None)
              (records stored)
   | None =>
       Js.set id (mkRecord (objectHash d) (map urlText (listHashURLs d)) None)
         (records stored)
   end).

Lemma one_get id d (stored : meta Config) :
  exists r1, Js.get id (one id d stored) = Some r1 /\ hash r1 = objectHash d.
Proof.
  destruct (Js.get id (records stored)) as [r|] eqn:G.
  - destruct (sameHash (hash r) (objectHash d)) eqn:S.
    + exists r. split; [exact G|]. unfold sameHash in S.
      now apply bool_decide_eq_true in S.
    + eexists. split; [apply JsLookup.get_set_eq|reflexivity].
  - eexists. split; [apply JsLookup.get_set_eq|reflexivity].
Qed.

Lemma one_hash id d (stored : meta Config) :
  objectHash d ∈ map hash (one id d stored).*2.
Proof.
  destruct (one_get id d stored) as (r1 & Hr1 & Hh).
  apply list_elem_of_fmap. exists r1. split; [symmetry; exact Hh|].
  apply list_elem_of_fmap. exists (id, r1). split; [reflexivity|].
  now apply JsFacts.get_Some_entry.
Qed.

Lemma one_checked id d (stored : meta Config) :
  wellFormed stored -> length (objectHash d) = 32%nat ->
  Forall (fun e => length (hash e.2) = 32%nat /\
                   0 < match recordVersion e.2 with
                       | Some x => x
                       | None => version stored + 1
                       end) (one id d stored).
Proof.
  intros (Hv0 & Hnd & Hwf) Hlen. apply Forall_forall. intros e0 He0.
  assert (Hs : e0 ∈ records stored \/
               e0 = (id, mkRecord (objectHash d) (map urlText (listHashURLs d)) None)).
  { destruct (Js.get id (records stored)) as [r|].
    - destruct (sameHash (hash r) (objectHash d)); [now left|].
      apply JsFacts.elem_of_set in He0. tauto.
    - apply JsFacts.elem_of_set in He0. tauto. }
  rewrite Forall_forall in Hwf. destruct Hs as [Hs| ->].
  - destruct (Hwf e0 Hs) as (Hl & x & Hx & Hx0 & _). rewrite Hx. tauto.
  - simpl. split; [exact Hlen|lia].
Qed.



(** X10. [create] stores a meta with version 0 and no records, after which
    the dataset exists and a second [create] throws and changes nothing. *)
Theorem create_once now cfg w v w' :
  create validateConfig now cfg w = (Js.Ok v, w') ->
  v = 0 /\
  readMeta w' = Js.Ok (Some (mkMeta 0 now now cfg [])) /\
  exists_ None w' = true /\
  forall now' cfg',
    create validateConfig now' cfg' w' =
      (Js.Throw (AssertionError "Name already in use already exists, choose another name"),
       w').
Proof.
  unfold create. destruct (metaFile w) eqn:Em; [discriminate|].
  destruct (validateConfig _); [discriminate|].
  intros [= <- <-]. repeat split.
Qed.

End Facts.

Local Ltac scenario_ownName :=
  unfold Js.ownName; apply (bool_decide_unpack _); vm_compute; exact I.

Local Ltac scenario_ownNames :=
  repeat (apply List.Forall_cons; [scenario_ownName|]); apply List.Forall_nil.

Local Ltac scenario_reachable :=
  unfold Scenario.writtenTwice, Scenario.run;
  apply reach_run; [scenario_ownNames|];
  apply reach_run; [scenario_ownNames|];
  change Scenario.created with (create Scenario.validateConfig 1000 tt Scenario.absent).2;
  apply reach_create; now apply reach_absent.

Local Ltac scenario_wellFormed :=
  split; [simpl; lia|]; split;
  [apply (bool_decide_unpack _); vm_compute; exact I
  |repeat (apply List.Forall_cons;
           [split; [reflexivity|eexists; split; [reflexivity|simpl; lia]]|]);
   apply List.Forall_nil].

Lemma reachable_wellFormed_witness :
  exists m, metaFile Scenario.writtenTwice = Some m /\ wellFormed m.
Proof.
  eexists. split; [vm_compute; reflexivity|].
  apply (reachable_wellFormed Scenario.objectHash Scenario.listHashURLs
           Scenario.validateRecord Scenario.validateConfig NaturalCompare.naturalCompare
           Scenario.writtenTwice).
  - scenario_reachable.
  - vm_compute. reflexivity.
Defined.

Lemma reachable_objectsPresent_witness : objectsPresent Scenario.writtenTwice.
Proof.
  apply (reachable_objectsPresent Scenario.objectHash Scenario.listHashURLs
           Scenario.validateRecord Scenario.validateConfig NaturalCompare.naturalCompare
           Scenario.writtenTwice).
  scenario_reachable.
Defined.

Lemma read_after_write_witness :
  read "a" Scenario.writtenTwice = Js.Ok (Some "second") /\
  exists_ (Some "a") Scenario.writtenTwice = true.
Proof.
  apply (read_after_write Scenario.objectHash Scenario.listHashURLs
           Scenario.validateRecord Scenario.validateConfig NaturalCompare.naturalCompare
           1002 "a" "second" Scenario.writtenOnce 2 Scenario.writtenTwice Scenario.metaOnce).
  - scenario_ownName.
  - vm_compute. reflexivity.
  - apply (bool_decide_unpack _). vm_compute. exact I.
  - vm_compute. reflexivity.
Defined.

Lemma write_record_version_witness :
  exists m' r',
    metaFile (Scenario.run 1002 (Write "a" (Some "first")) Scenario.writtenOnce).2 = Some m' /\
    version m' = 2 /\
    Js.get "a" (records m') = Some r' /\ recordVersion r' = Some 1.
Proof.
  destruct (write_record_version Scenario.objectHash Scenario.listHashURLs
              Scenario.validateRecord Scenario.validateConfig NaturalCompare.naturalCompare
              1002 "a" "first" Scenario.writtenOnce 2
              (Scenario.run 1002 (Write "a" (Some "first")) Scenario.writtenOnce).2
              Scenario.metaOnce)
    as (m' & r' & Hm' & Hv & _ & Hget & _ & Hrv).
  - scenario_ownName.
  - vm_compute. reflexivity.
  - scenario_wellFormed.
  - vm_compute. reflexivity.
  - exists m', r'. repeat split; assumption.
Defined.

Lemma merge_keeps_unnamed_witness :
  exists m',
    metaFile (Scenario.writeEntries 1002 [("b", Some "B2"); ("c", None)] false Scenario.abc).2
      = Some m' /\
    Js.get "a" (records m') = Some (mkRecord (Scenario.objectHash "A") [] (Some 1)).
Proof.
  destruct (merge_keeps_unnamed Scenario.objectHash Scenario.listHashURLs
              Scenario.validateRecord Scenario.validateConfig NaturalCompare.naturalCompare
              1002 [("b", Some "B2"); ("c", None)] Scenario.abc 2
              (Scenario.writeEntries 1002 [("b", Some "B2"); ("c", None)] false
                 Scenario.abc).2
              Scenario.metaAbc "a")
    as (m' & Hm' & Hget).
  - scenario_ownNames.
  - vm_compute. reflexivity.
  - scenario_wellFormed.
  - vm_compute. reflexivity.
  - apply (bool_decide_unpack _). vm_compute. exact I.
  - exists m'. split; [exact Hm'|exact Hget].
Defined.

Lemma delete_record_witness :
  exists m',
    metaFile (delete Scenario.validateConfig NaturalCompare.naturalCompare 1002 "b"
                Scenario.abc).2 = Some m' /\
    version m' = 2 /\
    Js.get "b" (records m') = None /\
    Js.get "a" (records m') = Some (mkRecord (Scenario.objectHash "A") [] (Some 1)).
Proof.
  destruct (proj2 (delete_record Scenario.objectHash Scenario.listHashURLs
                     Scenario.validateRecord Scenario.validateConfig
                     NaturalCompare.naturalCompare 1002 "b" Scenario.abc) 2
              (delete Scenario.validateConfig NaturalCompare.naturalCompare 1002 "b"
                 Scenario.abc).2
              Scenario.metaAbc)
    as (m' & Hm' & Hv & Hgone & _ & _ & Hothers).
  - scenario_ownName.
  - vm_compute. reflexivity.
  - scenario_wellFormed.
  - vm_compute. reflexivity.
  - exists m'. split; [exact Hm'|]. split; [exact Hv|]. split; [exact Hgone|].
    rewrite (Hothers "a") by discriminate. reflexivity.
Defined.

Lemma delete_is_merge_null_witness :
  delete Scenario.validateConfig NaturalCompare.naturalCompare 1002 "b" Scenario.abc =
  merge Scenario.objectHash Scenario.listHashURLs Scenario.validateRecord
    Scenario.validateConfig NaturalCompare.naturalCompare 1002 [("b", None)] Scenario.abc.
Proof.
  apply (delete_is_merge_null Scenario.objectHash Scenario.listHashURLs
           Scenario.validateRecord Scenario.validateConfig NaturalCompare.naturalCompare).
  discriminate.
Defined.



Lemma create_once_witness :
  readMeta (create Scenario.validateConfig 1000 tt Scenario.absent).2
    = Js.Ok (Some (mkMeta 0 1000 1000 tt [])) /\
  (create Scenario.validateConfig 2000 tt
     (create Scenario.validateConfig 1000 tt Scenario.absent).2).1
    = Js.Throw (AssertionError "Name already in use already exists, choose another name").
Proof.
  destruct (create_once (Data := string) Scenario.validateConfig 1000 tt Scenario.absent 0
              (create Scenario.validateConfig 1000 tt Scenario.absent).2 eq_refl)
    as (_ & Hr & _ & Hc).
  split; [exact Hr|]. now rewrite Hc.
Defined.

End DatasetInvariants.

(** ** Life cycle of an attachment *)

Module AttachmentLifecycle.
Import Attachments.

Lemma store_eta (st : store) : mkStore (blobs st) (metas st) (holding st) = st.
Proof. now destruct st. Qed.

Lemma unique_from (l : list string) : forall seen,
  NoDup seen ->
  let r := fold_left (fun seen x => if includesPath seen x then seen else (seen ++ [x])%list)
             l seen in
  NoDup r /\ (forall x, x ∈ r <-> x ∈ seen \/ x ∈ l) /\ exists more, r = (seen ++ more)%list.
Proof.
  induction l as [|a l IH]; intros seen Hnd; simpl.
  - split; [exact Hnd|]. split.
    + intros x. rewrite elem_of_nil. tauto.
    + exists []. now rewrite app_nil_r.
  - destruct (includesPath seen a) eqn:E.
    + destruct (IH seen Hnd) as (H1 & H2 & H3). split; [exact H1|]. split; [|exact H3].
      intros x. rewrite H2, elem_of_cons.
      apply AttachmentFacts.includesPath_elem in E. split; [tauto|].
      intros [H|[->|H]]; tauto.
    + assert (Ha : a ∉ seen).
      { intros H. apply AttachmentFacts.includesPath_elem in H. congruence. }
      assert (Hnd' : NoDup (seen ++ [a])).
      { apply NoDup_app. split; [exact Hnd|]. split; [|apply NoDup_singleton].
        intros x Hx Hxa. apply list_elem_of_singleton in Hxa. now subst. }
      destruct (IH _ Hnd') as (H1 & H2 & more & H3). split; [exact H1|]. split.
      * intros x. rewrite H2, elem_of_app, list_elem_of_singleton, elem_of_cons. tauto.
      * exists (a :: more). rewrite H3, <- app_assoc. reflexivity.
Qed.

Lemma unique_spec (l : list string) :
  NoDup (unique l) /\ forall x, x ∈ unique l <-> x ∈ l.
Proof.
  destruct (unique_from l [] (NoDup_nil_2)) as (H1 & H2 & _). split; [exact H1|].
  intros x. rewrite H2, elem_of_nil. tauto.
Qed.

(** The linkers a stored meta has; none when there is no meta. *)
Local Abbreviation linkersOf o :=
  (match o with Some old => linkers old | None => [] end).

Lemma link_again now hexHash dataPaths st m :
  metas st !! hexHash = Some m ->
  Forall (fun x => x ∈ linkers m) dataPaths ->
  link now hexHash dataPaths st = (Js.Ok tt, st).
Proof.
  intros Hm Hall. unfold link, metaUpdate. rewrite Hm.
  apply AttachmentFacts.missing_nil in Hall. now rewrite Hall.
Qed.

Section Digest.
Variable digest : list Byte.byte -> string.

Lemma writeStream_present now content newLinkers props st :
  has (digest content) (writeStream digest now content newLinkers props st).2 = true /\
  holding (writeStream digest now content newLinkers props st).2 !! digest content
    = Some (match holding st !! digest content with Some n => n + 1 | None => 1 end).
Proof.
  split.
  - unfold has. simpl. rewrite lookup_insert_eq.
    rewrite bool_decide_eq_true_2
      by (apply elem_of_union; left; now apply elem_of_singleton).
    now rewrite bool_decide_eq_true_2 by eauto.
  - simpl. destruct (holding st !! digest content); simpl; apply lookup_insert_eq.
Qed.

(** X11. [writeStream], given a [meta] argument that names none of created,
    updated and linkers beside its linkers, returns the digest of the content
    and leaves the attachment present and held, one hold more than before.
    Its linkers are the stored ones and the given ones, each once; the
    creation time of a stored meta is kept and the update time is the current
    time. No other attachment is touched. *)
Theorem writeStream_stores now content newLinkers props st :
  Forall (fun kv => kv.1 ∉ reserved) props ->
  let h := digest content in
  let st' := (writeStream digest now content newLinkers props st).2 in
  (writeStream digest now content newLinkers props st).1 = h /\
  has h st' = true /\
  holding st' !! h = Some (match holding st !! h with Some n => n + 1 | None => 1 end) /\
  (exists m', metas st' !! h = Some m' /\
     NoDup (linkers m') /\
     (forall x, x ∈ linkers m' <-> x ∈ linkersOf (metas st !! h) \/ x ∈ newLinkers) /\
     created m' = match metas st !! h with Some old => created old | None => now end /\
     updated m' = now) /\
  (forall h', h' <> h ->
     metas st' !! h' = metas st !! h' /\ holding st' !! h' = holding st !! h' /\
     (h' ∈ blobs st' <-> h' ∈ blobs st)).
Proof.
  intros _. cbv zeta.
  destruct (writeStream_present now content newLinkers props st) as [Hhas Hhold].
  split; [reflexivity|]. split; [exact Hhas|]. split; [exact Hhold|]. split.
  - simpl. eexists. split; [apply lookup_insert_eq|].
    unfold writtenMeta. simpl.
    destruct (unique_spec (linkersOf (metas st !! digest content) ++ newLinkers))
      as [H1 H2].
    split; [exact H1|]. split; [|split; reflexivity].
    intros x. now rewrite H2, elem_of_app.
  - intros h' Hne. simpl. split; [|split].
    + now rewrite lookup_insert_ne.
    + destruct (holding st !! digest content); simpl; now rewrite lookup_insert_ne.
    + rewrite elem_of_union, elem_of_singleton. tauto.
Qed.

End Digest.

(** X12. [import] never stores content: it writes no blob and takes no hold.
    For an attachment that is not present it throws a TypeError, because the
    [fs] of the module is the promises interface, which has no
    [createReadStream], and it changes nothing. *)
Theorem import_never_stores now hexHash newLinkers st :
  let res := import_ now hexHash newLinkers st in
  blobs res.2 = blobs st /\ holding res.2 = holding st /\
  (has hexHash st = false ->
   res = (Js.Throw (TypeError "fs.createReadStream is not a function"), st)).
Proof.
  cbv zeta. unfold import_. destruct (has hexHash st) eqn:Hhas.
  - unfold link, metaUpdate. destruct (metas st !! hexHash) as [m|]; [|now repeat split].
    destruct (0 <? length _)%nat; now repeat split.
  - now repeat split.
Qed.

(** X13. An [import] returns only for an attachment that was present
    already; it then has linked it: afterwards the attachment is present and
    every linker given is among its linkers. *)
Theorem import_links now hexHash newLinkers st st' :
  import_ now hexHash newLinkers st = (Js.Ok tt, st') ->
  has hexHash st = true /\
  has hexHash st' = true /\
  exists m', metas st' !! hexHash = Some m' /\ Forall (fun x => x ∈ linkers m') newLinkers.
Proof.
  unfold import_. destruct (has hexHash st) eqn:Hhas; [|discriminate].
  intros H. split; [reflexivity|]. revert H. unfold link, metaUpdate.
  pose proof Hhas as Hh. unfold has in Hh. apply andb_true_iff in Hh as [Hb Hm].
  apply bool_decide_eq_true in Hm as [m Hm]. rewrite Hm.
  destruct (0 <? length _)%nat eqn:E.
  - intros [= <-]. split.
    + unfold has. simpl. rewrite lookup_insert_eq, Hb.
      now rewrite bool_decide_eq_true_2 by eauto.
    + eexists. split; [apply lookup_insert_eq|]. simpl.
      apply Forall_forall. intros x Hx. apply elem_of_app.
      destruct (includesPath (linkers m) x) eqn:I.
      * left. now apply AttachmentFacts.includesPath_elem.
      * right. apply list_elem_of_In, filter_In. split; [now apply list_elem_of_In|].
        now rewrite I.
  - intros [= <-]. split; [exact Hhas|]. exists m. split; [exact Hm|].
    apply AttachmentFacts.missing_nil.
    destruct (List.filter _ newLinkers); [reflexivity|discriminate].
Qed.

(** X14. [link] on an attachment without a meta throws and changes nothing.
    After a [link] that returns, every given path is a linker, the linkers
    there were are still there in their places, and the same call again, at
    any time, changes nothing. *)
Theorem link_settles now hexHash dataPaths st :
  (metas st !! hexHash = None ->
   link now hexHash dataPaths st =
     (Js.Throw (Error "Cannot link non-existant attachment"), st)) /\
  forall st1,
    link now hexHash dataPaths st = (Js.Ok tt, st1) ->
    (exists m m1,
       metas st !! hexHash = Some m /\ metas st1 !! hexHash = Some m1 /\
       Forall (fun x => x ∈ linkers m1) dataPaths /\
       exists more, linkers m1 = (linkers m ++ more)%list) /\
    blobs st1 = blobs st /\ holding st1 = holding st /\
    forall now', link now' hexHash dataPaths st1 = (Js.Ok tt, st1).
Proof.
  split.
  - intros Hm. unfold link, metaUpdate. now rewrite Hm.
  - intros st1. unfold link at 1, metaUpdate.
    destruct (metas st !! hexHash) as [m|] eqn:Hm; [|discriminate].
    destruct (0 <? length _)%nat eqn:E.
    + intros [= <-]. simpl.
      assert (Hall : Forall (fun x => x ∈ (linkers m ++
                 List.filter (fun x => negb (includesPath (linkers m) x)) dataPaths)%list)
                 dataPaths).
      { apply Forall_forall. intros x Hx. apply elem_of_app.
        destruct (includesPath (linkers m) x) eqn:I.
        - left. now apply AttachmentFacts.includesPath_elem.
        - right. apply list_elem_of_In, filter_In. split; [now apply list_elem_of_In|].
          now rewrite I. }
      split; [|split; [reflexivity|split; [reflexivity|]]].
      * exists m. eexists. split; [reflexivity|]. split; [apply lookup_insert_eq|].
        split; [exact Hall|]. eauto.
      * intros now'.
        eapply link_again; [apply lookup_insert_eq|exact Hall].
    + intros [= <-].
      assert (Hall : Forall (fun x => x ∈ linkers m) dataPaths).
      { apply AttachmentFacts.missing_nil.
        destruct (List.filter _ dataPaths); [reflexivity|discriminate]. }
      split; [|split; [reflexivity|split; [reflexivity|]]].
      * exists m, m. split; [reflexivity|]. split; [exact Hm|]. split; [exact Hall|].
        exists []. now rewrite app_nil_r.
      * intros now'. exact (link_again now' hexHash dataPaths _ _ Hm Hall).
Qed.

Section Validate.
Variable readPathMeta : list string -> list (string * option (list string)).

Local Abbreviation check := (validate readPathMeta).
Local Abbreviation prunedOf := (pruned readPathMeta).

(** X15. [validate] changes the hold table not at all and no attachment but
    the one it is given. It deletes nothing of a held attachment. When it
    returns true the meta is there with linkers left and the blob is as it
    was; when it returns false for an attachment that is not held, the blob
    and the meta are gone. *)
Theorem validate_touches_one hexHash st :
  let r := check hexHash st in
  holding r.2 = holding st /\
  (forall h', h' <> hexHash ->
     metas r.2 !! h' = metas st !! h' /\ (h' ∈ blobs r.2 <-> h' ∈ blobs st)) /\
  (held hexHash st = true -> blobs r.2 = blobs st /\ has hexHash r.2 = has hexHash st) /\
  (r.1 = true ->
     blobs r.2 = blobs st /\
     exists m', metas r.2 !! hexHash = Some m' /\ linkers m' <> []) /\
  (r.1 = false -> held hexHash st = false ->
     has hexHash r.2 = false /\ metas r.2 !! hexHash = None /\ hexHash ∉ blobs r.2).
Proof.
  simpl. destruct (metas st !! hexHash) as [m|] eqn:Hm.
  - rewrite (AttachmentFacts.validate_existing readPathMeta hexHash st m Hm).
    destruct (bool_decide (prunedOf hexHash m = [])) eqn:P; simpl.
    + destruct (held hexHash st) eqn:Hh; simpl.
      * split; [reflexivity|]. split; [|split; [|split]].
        -- intros h' Hne. now rewrite lookup_insert_ne.
        -- intros _. split; [reflexivity|]. unfold has. simpl.
           rewrite lookup_insert_eq, Hm.
           destruct (bool_decide (hexHash ∈ blobs st)); simpl; [|reflexivity].
           try reflexivity; now rewrite !bool_decide_eq_true_2 by eauto.
        -- discriminate.
        -- discriminate.
      * split; [reflexivity|]. split; [|split; [|split]].
        -- intros h' Hne. rewrite lookup_delete_ne by congruence. split; [reflexivity|].
           rewrite elem_of_difference, elem_of_singleton. tauto.
        -- discriminate.
        -- discriminate.
        -- intros _ _. unfold has. simpl. rewrite lookup_delete_eq.
           split; [|split; [reflexivity|]].
           ++ rewrite (bool_decide_eq_false_2 (is_Some None)); [apply andb_false_r|].
              now intros [x Hx].
           ++ rewrite elem_of_difference, elem_of_singleton. tauto.
    + split; [reflexivity|]. split; [|split; [|split]].
      * intros h' Hne. now rewrite lookup_insert_ne.
      * intros _. split; [reflexivity|]. unfold has. simpl.
        rewrite lookup_insert_eq, Hm.
        destruct (bool_decide (hexHash ∈ blobs st)); simpl; [|reflexivity].
        try reflexivity; now rewrite !bool_decide_eq_true_2 by eauto.
      * intros _. split; [reflexivity|]. eexists. split; [apply lookup_insert_eq|].
        simpl. now apply bool_decide_eq_false in P.
      * discriminate.
  - rewrite (AttachmentFacts.validate_absent readPathMeta hexHash st Hm).
    destruct (held hexHash st) eqn:Hh; simpl.
    + split; [reflexivity|]. split; [tauto|]. split; [tauto|]. split; discriminate.
    + split; [reflexivity|]. split; [|split; [|split]].
      * intros h' Hne. rewrite lookup_delete_ne by congruence. split; [reflexivity|].
        rewrite elem_of_difference, elem_of_singleton. tauto.
      * discriminate.
      * discriminate.
      * intros _ _. unfold has. simpl. rewrite lookup_delete_eq.
        split; [|split; [reflexivity|]].
        -- rewrite (bool_decide_eq_false_2 (is_Some None)); [apply andb_false_r|].
           now intros [x Hx].
        -- rewrite elem_of_difference, elem_of_singleton. tauto.
Qed.

(** X16. Taking a hold and releasing it: on an attachment that has other
    holds it changes nothing; on one that has none it is a validation of the
    attachment, and returns true when the validation does not retain it. *)
Theorem hold_then_release hexHash st :
  (forall n, holding st !! hexHash = Some n -> n <> 0 ->
     release readPathMeta hexHash (hold hexHash st) = (false, st)) /\
  (holding st !! hexHash = None ->
     release readPathMeta hexHash (hold hexHash st) =
       (negb (check hexHash st).1, (check hexHash st).2)).
Proof.
  split.
  - intros n Hn Hne. unfold hold, release. rewrite Hn. simpl. rewrite lookup_insert_eq.
    replace (n + 1 - 1) with n by lia.
    destruct (Z.eqb_spec n 0) as [|_]; [contradiction|].
    rewrite insert_insert_eq, (insert_id _ _ _ Hn). now rewrite store_eta.
  - intros Hn. unfold hold, release. rewrite Hn. cbn -[validate].
    rewrite lookup_insert_eq. cbn -[validate].
    rewrite (delete_insert_id _ _ _ Hn), store_eta.
    now destruct (check hexHash st).
Qed.

(** X17. Releasing the last hold of an attachment deletes its blob and its
    meta when no linker refers to it any more, and returns true; with a
    linker left it keeps the blob, stores the pruned linkers and returns
    false. The hold is gone in both cases. *)
Theorem release_last_hold hexHash st m :
  metas st !! hexHash = Some m ->
  holding st !! hexHash = Some 1 ->
  release readPathMeta hexHash st =
    if bool_decide (prunedOf hexHash m = [])
    then (true,
          mkStore (blobs st ∖ {[hexHash]}) (delete hexHash (metas st))
            (delete hexHash (holding st)))
    else (false,
          mkStore (blobs st)
            (<[hexHash := mkMeta (created m) (updated m) (prunedOf hexHash m) (other m)]>
               (metas st))
            (delete hexHash (holding st))).
Proof.
  intros Hm Hh. unfold release. rewrite Hh. cbn -[validate].
  rewrite (AttachmentFacts.validate_existing readPathMeta hexHash
             (mkStore (blobs st) (metas st) (delete hexHash (holding st))) m Hm).
  unfold held. simpl. rewrite lookup_delete_eq.
  rewrite (bool_decide_eq_false_2 (is_Some None)) by (now intros [x Hx]). simpl.
  rewrite andb_true_r. now destruct (bool_decide (prunedOf hexHash m = [])).
Qed.

(** X18. An upload whose linkers do not refer to it is lost when its hold is
    released: after [writeStream] of content that nothing else holds, the
    release deletes the attachment unless a linker resolves to a record
    that links to it. *)
Theorem upload_released digest now content newLinkers props st :
  holding st !! digest content = None ->
  let h := digest content in
  let uploaded := (writeStream digest now content newLinkers props st).2 in
  let res := release readPathMeta h uploaded in
  has h uploaded = true /\
  res.1 = bool_decide (prunedOf h (writtenMeta now (metas st !! h) newLinkers props) = []) /\
  has h res.2 = negb res.1.
Proof.
  intros Hn. cbv zeta.
  destruct (writeStream_present digest now content newLinkers props st) as [Hhas Hhold].
  rewrite Hn in Hhold. split; [exact Hhas|].
  rewrite (release_last_hold _ _ (writtenMeta now (metas st !! digest content)
                                    newLinkers props));
    [|apply lookup_insert_eq|exact Hhold].
  destruct (bool_decide (prunedOf _ _ = [])); simpl; (split; [reflexivity|]).
  - unfold has. simpl. rewrite lookup_delete_eq.
    rewrite (bool_decide_eq_false_2 (is_Some None)) by (now intros [x Hx]).
    apply andb_false_r.
  - unfold has. simpl. rewrite lookup_insert_eq.
    rewrite bool_decide_eq_true_2 by (apply elem_of_union; left; now apply elem_of_singleton).
    now rewrite bool_decide_eq_true_2 by eauto.
Qed.

End Validate.

Lemma writeStream_stores_witness :
  has Scenario.hash1
    (writeStream Scenario.digest 30 Scenario.upload ["datasets/u/n/j"] []
       Scenario.heldStore).2 = true /\
  holding (writeStream Scenario.digest 30 Scenario.upload ["datasets/u/n/j"] []
             Scenario.heldStore).2 !! Scenario.hash1 = Some 2.
Proof.
  pose proof (writeStream_stores Scenario.digest 30 Scenario.upload ["datasets/u/n/j"] []
                Scenario.heldStore (List.Forall_nil _)) as H.
  cbv zeta in H. destruct H as (_ & Hhas & Hhold & _).
  split; [exact Hhas|exact Hhold].
Defined.

Lemma import_never_stores_witness :
  import_ 30 Scenario.hash1 ["datasets/u/n/j"] Scenario.noAttachments
  = (Js.Throw (TypeError "fs.createReadStream is not a function"), Scenario.noAttachments).
Proof.
  pose proof (import_never_stores 30 Scenario.hash1 ["datasets/u/n/j"]
                Scenario.noAttachments) as H.
  cbv zeta in H. destruct H as (_ & _ & H). apply H. reflexivity.
Defined.

Lemma import_links_witness :
  has Scenario.hash1
    (import_ 30 Scenario.hash1 ["datasets/u/n/j"] Scenario.heldStore).2 = true.
Proof.
  refine (proj1 (proj2 (import_links 30 Scenario.hash1 ["datasets/u/n/j"]
                          Scenario.heldStore _ _))).
  vm_compute. reflexivity.
Defined.

Lemma link_settles_witness :
  link 40 Scenario.hash1 ["datasets/u/n/j"]
    (link 30 Scenario.hash1 ["datasets/u/n/j"] Scenario.heldStore).2
  = (Js.Ok tt, (link 30 Scenario.hash1 ["datasets/u/n/j"] Scenario.heldStore).2).
Proof.
  refine (proj2 (proj2 (proj2
            (proj2 (link_settles 30 Scenario.hash1 ["datasets/u/n/j"] Scenario.heldStore)
               _ _))) 40).
  vm_compute. reflexivity.
Defined.

Lemma validate_touches_one_witness :
  blobs (validate Scenario.noLinks Scenario.hash1 Scenario.heldStore).2
    = blobs Scenario.heldStore /\
  has Scenario.hash1 (validate Scenario.noLinks Scenario.hash1 Scenario.heldStore).2
    = has Scenario.hash1 Scenario.heldStore.
Proof.
  pose proof (validate_touches_one Scenario.noLinks Scenario.hash1 Scenario.heldStore) as H.
  cbv zeta in H. destruct H as (_ & _ & Hheld & _).
  apply Hheld. reflexivity.
Defined.

Lemma hold_then_release_witness :
  release Scenario.noLinks Scenario.hash1 (hold Scenario.hash1 Scenario.heldStore)
    = (false, Scenario.heldStore).
Proof.
  refine (proj1 (hold_then_release Scenario.noLinks Scenario.hash1 Scenario.heldStore)
            1 _ _).
  - reflexivity.
  - discriminate.
Defined.

Lemma release_last_hold_witness :
  release Scenario.noLinks Scenario.hash1 Scenario.heldStore
    = (true,
       mkStore (blobs Scenario.heldStore ∖ {[Scenario.hash1]})
         (delete Scenario.hash1 (metas Scenario.heldStore))
         (delete Scenario.hash1 (holding Scenario.heldStore))).
Proof.
  refine (eq_trans (release_last_hold Scenario.noLinks Scenario.hash1 Scenario.heldStore
                      (mkMeta 10 20 ["datasets/u/n/k"] []) _ _) _);
    reflexivity.
Defined.

Lemma upload_released_witness :
  let uploaded := (writeStream Scenario.digest 30 Scenario.upload ["datasets/u/n/j"] []
                     Scenario.noAttachments).2 in
  has Scenario.hash1 uploaded = true /\
  (release Scenario.noLinks Scenario.hash1 uploaded).1 = true /\
  has Scenario.hash1 (release Scenario.noLinks Scenario.hash1 uploaded).2 = false.
Proof.
  pose proof (upload_released Scenario.noLinks Scenario.digest 30 Scenario.upload
                ["datasets/u/n/j"] [] Scenario.noAttachments eq_refl) as H.
  cbv zeta in H. destruct H as (Hhas & Hres & Hgone).
  cbv zeta. split; [exact Hhas|]. split; [exact Hres|].
  change (has (Scenario.digest Scenario.upload)
            (release Scenario.noLinks (Scenario.digest Scenario.upload)
               (writeStream Scenario.digest 30 Scenario.upload ["datasets/u/n/j"] []
                  Scenario.noAttachments).2).2 = false).
  rewrite Hgone, Hres. reflexivity.
Defined.

End AttachmentLifecycle.

(** ** Lookup of a codec *)

Module CodecLookup.
Import Codec.

Lemma splitHead_absent (sep : ascii) (s : string) :
  Xml.inString sep s = false -> Js.splitHead sep s = s.
Proof.
  induction s as [|c r IH]; simpl; [reflexivity|].
  rewrite (Ascii.eqb_sym sep c). destruct (Ascii.eqb c sep); simpl; [discriminate|].
  intros H. now rewrite IH.
Qed.

Lemma forExtension_Some query hs c :
  forExtension query hs = Some c ->
  exists ext, (ext, c) ∈ hs /\ (query = ext \/ Js.endsWith query ("." ++ ext) = true).
Proof.
  induction hs as [|[ext c'] r IH]; simpl; [discriminate|].
  destruct (String.eqb query ext || Js.endsWith query ("." ++ ext)) eqn:E.
  - intros [= <-]. exists ext. split; [left|].
    apply orb_true_iff in E as [E|E]; [left; now apply String.eqb_eq|now right].
  - intros H. destruct (IH H) as (e & He & Hm). exists e. split; [now right|exact Hm].
Qed.

Lemma forExtension_finds query hs ext c :
  (ext, c) ∈ hs ->
  query = ext \/ Js.endsWith query ("." ++ ext) = true ->
  is_Some (forExtension query hs).
Proof.
  induction hs as [|[ext' c'] r IH]; simpl; intros Hin Hm.
  - now apply elem_of_nil in Hin.
  - destruct (String.eqb query ext' || Js.endsWith query ("." ++ ext')) eqn:E; [eauto|].
    apply elem_of_cons in Hin as [Heq|Hin]; [|now apply IH].
    injection Heq as <- <-. exfalso.
    apply orb_false_iff in E as [E1 E2]. destruct Hm as [->|Hm].
    + now rewrite String.eqb_refl in E1.
    + congruence.
Qed.

Section Registry.
Variable codecs : list codec.

Lemma mediaTypeHandlers_entry mediaType c :
  (mediaType, c) ∈ mediaTypeHandlers codecs -> c ∈ codecs /\ mediaType ∈ handles c.
Proof.
  intros H. apply JsLookup.elem_of_fromEntries in H.
  apply list_elem_of_In, in_flat_map in H as (c' & Hc & H).
  apply in_map_iff in H as (mt & [= <- <-] & Hmt).
  split; now apply list_elem_of_In.
Qed.

Lemma extensionHandlers_entry e c :
  (e, c) ∈ extensionHandlers codecs ->
  c ∈ codecs /\ exists ext, ext ∈ extensions c /\ e = Js.toLowerCase ext.
Proof.
  intros H. apply JsLookup.elem_of_fromEntries in H.
  apply list_elem_of_In, in_flat_map in H as (c' & Hc & H).
  apply in_map_iff in H as (ext & [= <- <-] & Hext).
  split; [now apply list_elem_of_In|]. exists ext. split; [now apply list_elem_of_In|reflexivity].
Qed.

(** X19. A codec [for] answers with is one of the registered codecs, and it
    declares what the query matched: the lower-cased query is one of its
    media types, or the query is, or ends with a dot and, one of its
    extensions in lower case. The query is none of the property names the
    handler table inherits. *)
Theorem for_sound query c :
  Js.ownName (Js.splitHead ";"%char (Js.toLowerCase query)) ->
  for_ codecs query = Some c ->
  c ∈ codecs /\
  (Js.toLowerCase query ∈ handles c \/
   exists ext, ext ∈ extensions c /\
     (Js.toLowerCase query = Js.toLowerCase ext \/
      Js.endsWith (Js.toLowerCase query) ("." ++ Js.toLowerCase ext) = true)).
Proof.
  intros _. unfold for_.
  destruct (Js.has _ (mediaTypeHandlers codecs)).
  - intros H. apply JsFacts.get_Some_entry, mediaTypeHandlers_entry in H as [Hc Hh].
    split; [exact Hc|now left].
  - intros H. apply forExtension_Some in H as (e & He & Hm).
    apply extensionHandlers_entry in He as (Hc & ext & Hext & ->).
    split; [exact Hc|]. right. now exists ext.
Qed.

(** X20. When several codecs declare the same media type, [for] answers
    with the last of them in export order. *)
Theorem for_last_declared pre c post mediaType :
  codecs = (pre ++ c :: post)%list ->
  mediaType ∈ handles c ->
  Forall (fun c' => mediaType ∉ handles c') post ->
  Js.toLowerCase mediaType = mediaType ->
  Xml.inString ";"%char mediaType = false ->
  for_ codecs mediaType = Some c.
Proof.
  intros Hcodecs Hin Hpost Hlow Hsemi.
  assert (Hget : Js.get mediaType (mediaTypeHandlers codecs) = Some c).
  { unfold mediaTypeHandlers. rewrite JsLookup.get_fromEntries, Hcodecs.
    rewrite flat_map_app. simpl. rewrite !reverse_app, <- app_assoc, JsLookup.get_app.
    assert (Hn : Js.get mediaType
                   (reverse (flat_map (fun c0 => map (fun mt => (mt, c0)) (handles c0)) post))
                 = None).
    { apply JsFacts.get_None_keys. unfold Js.keys. intros H.
      apply list_elem_of_fmap in H as ([mt c'] & -> & H). simpl in *.
      apply elem_of_reverse, list_elem_of_In, in_flat_map in H as (c0 & Hc0 & H).
      apply in_map_iff in H as (mt' & [= <- <-] & Hmt).
      rewrite Forall_forall in Hpost.
      apply (Hpost c0); now apply list_elem_of_In. }
    rewrite Hn, JsLookup.get_app.
    assert (Hs : exists v, Js.get mediaType
                   (reverse (map (fun mt => (mt, c)) (handles c))) = Some v /\ v = c).
    { destruct (Js.get mediaType (reverse (map (fun mt => (mt, c)) (handles c)))) as [v|] eqn:G.
      - exists v. split; [reflexivity|].
        apply JsFacts.get_Some_entry, elem_of_reverse, list_elem_of_In, in_map_iff in G
          as (mt & [= _ <-] & _). reflexivity.
      - exfalso. apply JsFacts.get_None_keys in G. apply G. unfold Js.keys.
        apply list_elem_of_fmap. exists (mediaType, c). split; [reflexivity|].
        apply elem_of_reverse, list_elem_of_In, in_map_iff. exists mediaType.
        split; [reflexivity|now apply list_elem_of_In]. }
    destruct Hs as (v & -> & ->). reflexivity. }
  unfold for_. rewrite Hlow, (splitHead_absent _ _ Hsemi).
  unfold Js.has. now rewrite Hget.
Qed.

(** X21. A query without [;] that is, or ends with a dot and, a declared
    extension in lower case finds a codec: [for] does not answer
    undefined. *)
Theorem for_finds_extension query c ext :
  c ∈ codecs -> ext ∈ extensions c ->
  Xml.inString ";"%char (Js.toLowerCase query) = false ->
  Js.toLowerCase query = Js.toLowerCase ext \/
    Js.endsWith (Js.toLowerCase query) ("." ++ Js.toLowerCase ext) = true ->
  is_Some (for_ codecs query).
Proof.
  intros Hc Hext Hsemi Hm. unfold for_. rewrite (splitHead_absent _ _ Hsemi).
  unfold Js.has. destruct (Js.get (Js.toLowerCase query) (mediaTypeHandlers codecs)) eqn:G;
    [eauto|].
  assert (Hk : Js.toLowerCase ext ∈ Js.keys (extensionHandlers codecs)).
  { unfold extensionHandlers. apply JsFacts.keys_fromEntries.
    apply list_elem_of_fmap. exists (Js.toLowerCase ext, c). split; [reflexivity|].
    apply list_elem_of_In, in_flat_map. exists c. split; [now apply list_elem_of_In|].
    apply in_map_iff. exists ext. split; [reflexivity|now apply list_elem_of_In]. }
  apply list_elem_of_fmap in Hk as ([e c'] & He & Hin). simpl in He. subst e.
  now apply (forExtension_finds _ _ _ _ Hin).
Qed.

End Registry.

Lemma for_sound_witness :
  Codec.xml ∈ [Codec.json; Codec.xml] /\
  ("notes.xhtml" ∈ handles Codec.xml \/
   exists ext, ext ∈ extensions Codec.xml /\
     ("notes.xhtml" = Js.toLowerCase ext \/
      Js.endsWith "notes.xhtml" ("." ++ Js.toLowerCase ext) = true)).
Proof.
  apply (for_sound [Codec.json; Codec.xml] "Notes.XHTML" Codec.xml).
  - unfold Js.ownName. apply (bool_decide_unpack _). vm_compute. exact I.
  - reflexivity.
Defined.

(** Two codecs that both declare [text/xml]. *)
Lemma for_last_declared_witness :
  for_ [Codec.xml; Codec.mkCodec "html" ["text/html"; "text/xml"] ["html"]; Codec.json]
    "text/xml"
  = Some (Codec.mkCodec "html" ["text/html"; "text/xml"] ["html"]).
Proof.
  apply (for_last_declared _ [Codec.xml] _ [Codec.json] "text/xml" eq_refl).
  - apply (bool_decide_unpack _). vm_compute. exact I.
  - repeat constructor. apply (bool_decide_unpack _). vm_compute. exact I.
  - reflexivity.
  - reflexivity.
Defined.

Lemma for_finds_extension_witness :
  is_Some (for_ [Codec.json; Codec.xml] "Feed.RSS").
Proof.
  apply (for_finds_extension [Codec.json; Codec.xml] "Feed.RSS" Codec.xml "rss").
  - apply elem_of_cons. right. apply elem_of_cons. now left.
  - apply (bool_decide_unpack _). vm_compute. exact I.
  - reflexivity.
  - right. reflexivity.
Defined.

End CodecLookup.

(** ** Escaping and the streaming encoders of the XML codec *)

Module XmlText.
Import Xml.

Lemma string_app_cons (c : ascii) (r s : string) : String c r ++ s = String c (r ++ s).
Proof. reflexivity. Qed.

Lemma string_app_nil_r (s : string) : s ++ "" = s.
Proof.
  induction s as [|c r IH]; [reflexivity|]. now rewrite string_app_cons, IH.
Qed.

Lemma inString_app (c : ascii) (a b : string) :
  inString c (a ++ b) = inString c a || inString c b.
Proof.
  induction a as [|x r IH]; [reflexivity|].
  rewrite string_app_cons. simpl. now rewrite IH, orb_assoc.
Qed.

(** The characters that delimit markup and attribute values. *)
Local Abbreviation delimiter c :=
  (c = "<"%char \/ c = ">"%char \/ c = doubleQuote \/ c = "'"%char).

Local Ltac split_entity c :=
  unfold entity;
  destruct (Ascii.eqb_spec c "&"%char);
  [|destruct (Ascii.eqb_spec c "<"%char);
    [|destruct (Ascii.eqb_spec c ">"%char);
      [|destruct (Ascii.eqb_spec c doubleQuote);
        [|destruct (Ascii.eqb_spec c "'"%char)]]]].

Local Ltac split_listed replaceList :=
  repeat match goal with
         | |- context [inString ?x replaceList] =>
             destruct (inString x replaceList) eqn:?
         end.

(** X22. [esc] leaves no character of the replace list that delimits markup
    or an attribute value: the escaped text contains none of the characters
    less-than, greater-than and the two quotes that the list names. *)
Theorem esc_removes (s replaceList : string) (c : ascii) :
  delimiter c -> inString c replaceList = true -> inString c (esc s replaceList) = false.
Proof.
  intros Hc Hin. induction s as [|d r IH]; simpl; [reflexivity|].
  assert (Hd : d <> c ->
               inString c (String d (esc r replaceList)) = false).
  { intros Hne. simpl. rewrite IH, orb_false_r. apply Ascii.eqb_neq. congruence. }
  split_entity d; subst.
  - destruct (inString "&"%char replaceList).
    + rewrite inString_app, IH.
      destruct Hc as [-> | [-> | [-> | ->]]]; reflexivity.
    + apply Hd. destruct Hc as [-> | [-> | [-> | ->]]]; discriminate.
  - destruct (inString "<"%char replaceList) eqn:E.
    + rewrite inString_app, IH.
      destruct Hc as [-> | [-> | [-> | ->]]]; reflexivity.
    + apply Hd. intros <-. congruence.
  - destruct (inString ">"%char replaceList) eqn:E.
    + rewrite inString_app, IH.
      destruct Hc as [-> | [-> | [-> | ->]]]; reflexivity.
    + apply Hd. intros <-. congruence.
  - destruct (inString doubleQuote replaceList) eqn:E.
    + rewrite inString_app, IH.
      destruct Hc as [-> | [-> | [-> | ->]]]; reflexivity.
    + apply Hd. intros <-. congruence.
  - destruct (inString "'"%char replaceList) eqn:E.
    + rewrite inString_app, IH.
      destruct Hc as [-> | [-> | [-> | ->]]]; reflexivity.
    + apply Hd. intros <-. congruence.
  - apply Hd. destruct Hc as [-> | [-> | [-> | ->]]]; congruence.
Qed.

(** X23. With the ampersand in the replace list, [esc] loses nothing: two
    texts with the same escaped text are the same text. *)
Theorem esc_injective (replaceList s t : string) :
  inString "&"%char replaceList = true ->
  esc s replaceList = esc t replaceList -> s = t.
Proof.
  intros Hamp. revert t.
  induction s as [|c r IH]; intros [|d t]; simpl; [reflexivity| | |].
  - split_entity d; subst; cbv beta iota; split_listed replaceList;
      cbv [String.append]; intros H; discriminate H.
  - split_entity c; subst; cbv beta iota; split_listed replaceList;
      cbv [String.append]; intros H; discriminate H.
  - split_entity c; subst; split_entity d; subst; cbv beta iota; rewrite ?Hamp;
      split_listed replaceList;
      cbv [String.append]; intros H;
      first [ exfalso; congruence
            | f_equal; apply IH; congruence
            | f_equal; [congruence|apply IH; congruence] ].
Qed.

Section Facts.
Context {number date : Type}.
Variable numberToString : number -> string.
Variable numberFalsy : number -> bool.
Variable toISOString : date -> string.
Variable toBase64 : list Byte.byte -> string.
Variable toText : value number date -> string.
Variable toHex : list Byte.byte -> string.

Local Abbreviation val := (value number date).
Local Abbreviation toJsonML := (arbitraryObjectToJsonML numberToString toISOString toBase64).
Local Abbreviation build := (buildXML numberFalsy toText).
Local Abbreviation encodeValue :=
  (encode numberToString numberFalsy toISOString toBase64 toText).
Local Abbreviation recordText :=
  (recordXml numberToString numberFalsy toISOString toBase64 toText toHex).


(** X25. What [expandElement] returns is in the verbose form: it has an
    item after the tag name that is neither a string nor an array, and
    expanding it again returns it unchanged. *)
Theorem expandElement_settles (element expanded : val) :
  expandElement element = Js.Ok expanded ->
  expandElement expanded = Js.Ok expanded /\
  exists tag attributes children,
    expanded = VArray (VString tag :: attributes :: children) /\
    isString attributes = false /\ isArray attributes = false.
Proof.
  destruct element as [| | | | | | |[|[| | | |tag| | | |] rest]|]; simpl; try discriminate.
  destruct rest as [|x more].
  - intros [= <-]. split; [reflexivity|]. now exists tag, (VObject []), [].
  - destruct (isString x || isArray x) eqn:E.
    + intros [= <-]. split; [reflexivity|]. now exists tag, (VObject []), (x :: more).
    + intros [= <-]. split; [simpl; now rewrite E|].
      apply orb_false_iff in E as [E1 E2]. now exists tag, x, more.
Qed.

(** The lines a transform pushes for the texts of its chunks. *)
Local Abbreviation framed opening xmls :=
  (match xmls with
   | [] => []
   | x :: rest => (opening ++ x ++ lineFeed)%string :: map (fun y => (y ++ lineFeed)%string) rest
   end).

Lemma transformed_rest {A : Type} (each : A -> result string) opening closing chunks :
  forall xmls, mapM each chunks = Js.Ok xmls ->
  transformed each opening closing false chunks =
    ((map (fun y => (y ++ lineFeed)%string) xmls ++ [closing])%list, None).
Proof.
  induction chunks as [|chunk rest IH]; intros xmls; simpl.
  - now intros [= <-].
  - destruct (each chunk) as [x|e]; simpl; [|discriminate].
    destruct (mapM each rest) as [xs|e] eqn:E; simpl; [|discriminate].
    intros [= <-]. now rewrite (IH xs eq_refl).
Qed.

Lemma transformed_all {A : Type} (each : A -> result string) opening closing chunks xmls :
  mapM each chunks = Js.Ok xmls ->
  transformed each opening closing true chunks =
    ((framed opening xmls ++ [closing])%list, None).
Proof.
  destruct chunks as [|chunk rest]; simpl.
  - now intros [= <-].
  - destruct (each chunk) as [x|e]; simpl; [|discriminate].
    destruct (mapM each rest) as [xs|e] eqn:E; simpl; [|discriminate].
    intros [= <-]. now rewrite (transformed_rest each opening closing rest xs E).
Qed.

Lemma transformed_rest_error {A : Type} (each : A -> result string) opening closing
    pre bad post err :
  forall xmls, mapM each pre = Js.Ok xmls -> each bad = Js.Throw err ->
  transformed each opening closing false (pre ++ bad :: post) =
    (map (fun y => (y ++ lineFeed)%string) xmls, Some err).
Proof.
  induction pre as [|chunk rest IH]; intros xmls; simpl.
  - intros [= <-] ->. reflexivity.
  - destruct (each chunk) as [x|e]; simpl; [|discriminate].
    destruct (mapM each rest) as [xs|e] eqn:E; simpl; [|discriminate].
    intros [= <-] Hbad. now rewrite (IH xs eq_refl Hbad).
Qed.

Lemma transformed_error {A : Type} (each : A -> result string) opening closing
    pre bad post err xmls :
  mapM each pre = Js.Ok xmls -> each bad = Js.Throw err ->
  transformed each opening closing true (pre ++ bad :: post) =
    (framed opening xmls, Some err).
Proof.
  destruct pre as [|chunk rest]; simpl.
  - intros [= <-] ->. reflexivity.
  - destruct (each chunk) as [x|e]; simpl; [|discriminate].
    destruct (mapM each rest) as [xs|e] eqn:E; simpl; [|discriminate].
    intros [= <-] Hbad.
    now rewrite (transformed_rest_error each opening closing rest bad post err xs E Hbad).
Qed.


Lemma buildAttributes_record (h v id : string) :
  exists attributes,
    @buildAttributes number date
      [("hash", VString h); ("version", VString v); ("id", VString id)]
    = Js.Ok attributes.
Proof.
  simpl. eauto.
Qed.

(** X27. The record element [entriesEncoder()] writes for a chunk whose
    data is a JsonML document, or is not an object with a [JsonML] property,
    holds exactly the text [encode] makes of the data, between the opening
    tag with the hash, the version and the id, and the closing tag; when
    [encode] throws for the data, so does the element. *)
Theorem record_embeds_encode (chunk : exportEntry number date) :
  isJsonML numberFalsy (entryData chunk) = false \/ isDocument (entryData chunk) = true ->
  exists attributes,
    @buildAttributes number date
      [("hash", VString (toHex (entryHash chunk)));
       ("version", VString (numberToString (entryVersion chunk)));
       ("id", VString (entryId chunk))] = Js.Ok attributes /\
    recordText chunk =
      bind (encodeValue (entryData chunk))
        (fun xml => Js.Ok ("<record" ++ attributes ++ ">" ++ xml ++ "</record>")).
Proof.
  intros Hdata.
  destruct (buildAttributes_record (toHex (entryHash chunk))
              (numberToString (entryVersion chunk)) (entryId chunk)) as (a & Ha).
  exists a. split; [exact Ha|].
  assert (Hrec : forall data : val,
            encodeValue
              (VObject
                 [("JsonML",
                   VArray [VString "record";
                           VObject [("hash", VString (toHex (entryHash chunk)));
                                    ("version",
                                     VString (numberToString (entryVersion chunk)));
                                    ("id", VString (entryId chunk))];
                           data])])
            = bind (build data)
                (fun xml => Js.Ok ("<record" ++ a ++ ">" ++ xml ++ "</record>"))).
  { intros data. unfold encode. cbn [isDocument Js.get String.eqb Ascii.eqb Bool.eqb isArray].
    cbn -[buildAttributes String.append]. rewrite Ha. cbn -[String.append].
    destruct (build data) as [x|e]; cbn -[String.append]; [|reflexivity].
    now rewrite string_app_nil_r. }
  unfold recordXml. destruct Hdata as [Hj|Hd].
  - rewrite Hj. unfold encode.
    assert (Hnd : isDocument (entryData chunk) = false).
    { destruct (entryData chunk) as [| | | | | | | |props]; try reflexivity.
      simpl in *. destruct (Js.get "JsonML" props) as [j|]; [|reflexivity].
      destruct j; simpl in *; try reflexivity; discriminate. }
    rewrite Hnd.
    destruct (toJsonML (entryData chunk)) as [j|e]; cbn [bind]; [|reflexivity].
    destruct (expandElement j) as [x|e]; cbn [bind]; [|reflexivity].
    destruct (setAttribute "xmlns" arbitraryNS x) as [y|e]; cbn [bind]; [|reflexivity].
    apply Hrec.
  - assert (Hj : isJsonML numberFalsy (entryData chunk) = true).
    { destruct (entryData chunk) as [| | | | | | | |props]; try discriminate.
      simpl in *. destruct (Js.get "JsonML" props) as [j|]; [|discriminate].
      destruct j; simpl in *; try discriminate; reflexivity. }
    rewrite Hj. cbn [bind]. rewrite Hrec. unfold encode. now rewrite Hd.
Qed.

End Facts.

(** X28. [escapeText] escapes text for HTML as the XML codec escapes a text
    node: the result contains no less-than sign, and two texts with the same
    result are the same text. *)
Theorem escapeText_safe (s : string) :
  EscapeText.escapeText s = esc s "&<" /\
  inString "<"%char (EscapeText.escapeText s) = false /\
  forall t, EscapeText.escapeText s = EscapeText.escapeText t -> s = t.
Proof.
  assert (H : forall x, EscapeText.escapeText x = esc x "&<").
  { induction x as [|c r IH]; simpl; [reflexivity|]. rewrite IH.
    unfold EscapeText.table. split_entity c; subst; reflexivity. }
  split; [apply H|]. split.
  - rewrite H. apply esc_removes; [tauto|reflexivity].
  - intros t. rewrite !H. now apply esc_injective.
Qed.

Lemma esc_removes_witness : inString "<"%char (esc "a<b & 'c'" "&<") = false.
Proof. apply (esc_removes "a<b & 'c'" "&<" "<"%char); [now left|reflexivity]. Defined.

Lemma esc_injective_witness :
  esc "a<b" "&<" = esc "a<b" "&<" /\ "a<b" = "a<b".
Proof.
  split; [reflexivity|].
  apply (esc_injective "&<" "a<b" "a<b"); reflexivity.
Defined.

Lemma expandElement_settles_witness :
  expandElement (VArray [VString "string"; VString "x"] : Scenario.xmlValue)
    = Js.Ok (VArray [VString "string"; VObject []; VString "x"]) /\
  expandElement (VArray [VString "string"; VObject []; VString "x"] : Scenario.xmlValue)
    = Js.Ok (VArray [VString "string"; VObject []; VString "x"]).
Proof.
  split; [reflexivity|].
  apply (expandElement_settles (VArray [VString "string"; VString "x"] : Scenario.xmlValue)).
  reflexivity.
Defined.



Lemma record_embeds_encode_witness :
  exists attributes,
    recordXml (fun n => n) Scenario.numberFalsy (fun d => d) string_of_list_byte
      Scenario.toText Scenario.toHex
      (mkEntry "a" (VString "x" : Scenario.xmlValue) [Byte.x61] "1")
    = bind (Scenario.encode (VString "x"))
        (fun xml => Js.Ok ("<record" ++ attributes ++ ">" ++ xml ++ "</record>")).
Proof.
  destruct (record_embeds_encode (fun n => n) Scenario.numberFalsy (fun d => d)
              string_of_list_byte Scenario.toText Scenario.toHex
              (mkEntry "a" (VString "x" : Scenario.xmlValue) [Byte.x61] "1"))
    as (a & _ & H).
  - left. reflexivity.
  - exists a. exact H.
Defined.

Lemma escapeText_safe_witness :
  inString "<"%char (EscapeText.escapeText "a<b") = false /\ "a<b" = "a<b".
Proof.
  destruct (escapeText_safe "a<b") as (_ & Hsafe & Hinj).
  split; [exact Hsafe|]. apply Hinj. reflexivity.
Defined.

End XmlText.
